(** * pymunk / easymunk: the 2x2 matrix helper, the constraint bindings and
      the pyglet debug-draw adapter.

    Numbers are exact reals: a Python [float] (or [int]) is the real number
    it denotes.  Rounding, infinities and NaN are outside this development. *)

From Stdlib Require Import Reals Lra List String ZArith Lia Bool.
Import ListNotations.
Open Scope string_scope.

(** ** Python exceptions and results *)

Inductive exn : Type :=
| TypeError
| ValueError
| IndexError
| ZeroDivisionError
| AttributeError
| OverflowError
| Exception (msg : string).

(** What a call does: it returns a value, it raises, or what it does is
    decided by code that is not in the modelled files (a special method of
    [Vec2d], arithmetic on a matrix entry that is not a number, a helper of
    easymunk/math.py applied to a non-number).  Nothing is claimed about
    the last case. *)
Inductive outcome (A : Type) : Type :=
| Ok (a : A)
| Err (e : exn)
| Outside.
Arguments Ok {A} a.
Arguments Err {A} e.
Arguments Outside {A}.

Definition bind {A B : Type} (r : outcome A) (f : A -> outcome B) : outcome B :=
  match r with
  | Ok a => f a
  | Err e => Err e
  | Outside => Outside
  end.

Declare Scope py_scope.
Delimit Scope py_scope with py.
Notation "x <- r ;; k" := (bind r (fun x => k))
  (at level 61, r at next level, right associativity) : py_scope.
Notation "' p <- r ;; k" := (bind r (fun p => k))
  (at level 61, p pattern, r at next level, right associativity) : py_scope.

(** ** mat22.py *)

Module Mat22.
Open Scope R_scope.

(** [class Mat22(NamedTuple)]: four fields, no setter. *)
Record Mat22 : Type := mk { a : R; b : R; c : R; d : R }.

(** [Vec2d] lives in vec2d.py; mat22.py only builds it from two numbers and
    unpacks it into two numbers. *)
Record Vec2d : Type := mkVec { x : R; y : R }.

Definition scale (scale_x : R) (scale_y : option R) : Mat22 :=
  let scale_y := match scale_y with None => scale_x | Some s => s end in
  mk scale_x 0 0 scale_y.

Definition identity : Mat22 := scale 1 (Some 1).

Definition zero : Mat22 := mk 0 0 0 0.

Definition trace (self : Mat22) : R := a self + d self.

Definition determinant (self : Mat22) : R :=
  a self * d self - b self * c self.

Definition transposed (self : Mat22) : Mat22 :=
  mk (a self) (c self) (b self) (d self).

Definition T (self : Mat22) : Mat22 := transposed self.

Definition add (self other : Mat22) : Mat22 :=
  let '(mk a b c d) := self in
  let '(mk x y z w) := other in
  mk (a + x) (b + y) (c + z) (d + w).

Definition sub (self other : Mat22) : Mat22 :=
  let '(mk a b c d) := self in
  let '(mk x y z w) := other in
  mk (a - x) (b - y) (c - z) (d - w).

Definition _real_mul (self : Mat22) (r : R) : Mat22 :=
  let '(mk a b c d) := self in
  mk (a * r) (b * r) (c * r) (d * r).

(** The third entry is [c * x + b * z], as the source has it. *)
Definition _mat_mul (self other : Mat22) : Mat22 :=
  let '(mk a b c d) := self in
  let '(mk x y z w) := other in
  mk (a * x + b * z) (a * y + b * w) (c * x + b * z) (c * y + d * w).

Definition transform_vector (self : Mat22) (vec : Vec2d) : Vec2d :=
  let '(mkVec x y) := vec in
  mkVec (a self * x + c self * y) (b self * x + d self * y).

(** [inverse]: the first division, [self.d / det], raises when [det] is 0. *)
Definition inverse (self : Mat22) : outcome Mat22 :=
  let det := determinant self in
  if Req_dec_T det 0 then Err ZeroDivisionError
  else Ok (mk (d self / det) (- b self / det) (- c self / det) (a self / det)).

(** A Python number that is a [float] or a [complex]. *)
Inductive num : Type :=
| Real (r : R)
| Cplx (re im : R).

(** Modelled from the spec: [sqrt] is imported from easymunk/math.py, which
    is not under src; it is taken to be the real square root, raising
    [ValueError] on a negative argument as [math.sqrt] does. *)
Definition math_sqrt (v : R) : outcome R :=
  if Rle_dec 0 v then Ok (sqrt v) else Err ValueError.

(** [eigenvalues]: [aux] is the discriminant; a negative one gives the
    conjugate pair [(d + a +- i sqrt(-aux)) / 2]. *)
Definition eigenvalues (self : Mat22) : outcome (num * num) :=
  let '(mk a b c d) := self in
  let aux := d ^ 2 - 2 * a * d + a ^ 2 + 4 * c * b in
  if Rle_dec 0 aux then
    (aux <- math_sqrt aux ;;
     Ok (Real ((d + a + aux) / 2), Real ((d + a - aux) / 2)))%py
  else
    (s <- math_sqrt (- aux) ;;
     Ok (Cplx ((d + a) / 2) (s / 2), Cplx ((d + a) / 2) (- s / 2)))%py.

(** [l - self.a] for an eigenvalue [l]. *)
Definition num_sub_real (l : num) (r : R) : num :=
  match l with
  | Real v => Real (v - r)
  | Cplx re im => Cplx (re - r) im
  end.

(** [self.c / z]: a float divided by a float or a complex. *)
Definition real_div_num (r : R) (z : num) : outcome num :=
  match z with
  | Real v =>
      if Req_dec_T v 0 then Err ZeroDivisionError else Ok (Real (r / v))
  | Cplx re im =>
      if Req_dec_T re 0 then
        if Req_dec_T im 0 then Err ZeroDivisionError
        else Ok (Cplx (r * re / (re * re + im * im))
                      (- (r * im) / (re * re + im * im)))
      else Ok (Cplx (r * re / (re * re + im * im))
                    (- (r * im) / (re * re + im * im)))
  end.

(** [eigenvectors]: both quotients are computed, then [Vec2d.normalized]
    (vec2d.py) is called on each vector. *)
Definition eigenvectors (self : Mat22) : outcome (Vec2d * Vec2d) :=
  ('(l1, l2) <- eigenvalues self ;;
   v1 <- real_div_num (c self) (num_sub_real l1 (a self)) ;;
   v2 <- real_div_num (c self) (num_sub_real l2 (a self)) ;;
   Outside)%py.

(** *** Operands as Python passes them

    The values an operand can be: [None], [NotImplemented], a string, a
    real number (int, float, bool), a complex number, a [Vec2d], a
    [Mat22], a tuple, a list, and the generator [rows] and [cols] return
    (given by what it yields). *)
#[warnings="-register-all"]
Inductive pyval : Type :=
| PNone
| PNotImplemented
| PStr (s : string)
| PNum (r : R)
| PComplex (re im : R)
| PVec (v : Vec2d)
| PMat (m : Mat22)
| PTuple (l : list pyval)
| PList (l : list pyval)
| PGen (l : list pyval).

Definition of_num (n : num) : pyval :=
  match n with
  | Real r => PNum r
  | Cplx re im => PComplex re im
  end.

Definition __add__ (self : Mat22) (other : pyval) : pyval :=
  match other with
  | PMat other => PMat (add self other)
  | _ => PNotImplemented
  end.

Definition __sub__ (self : Mat22) (other : pyval) : pyval :=
  match other with
  | PMat other => PMat (sub self other)
  | _ => PNotImplemented
  end.

Definition __matmul__ (self : Mat22) (other : pyval) : pyval :=
  match other with
  | PMat other => PMat (_mat_mul self other)
  | _ => PNotImplemented
  end.

(** [isinstance(other, Real)] holds of [PNum] only; [float(other)] is then
    the number itself. *)
Definition __mul__ (self : Mat22) (other : pyval) : pyval :=
  match other with
  | PMat other => PMat (_mat_mul self other)
  | PNum r => PMat (_real_mul self r)
  | PVec v => PVec (transform_vector self v)
  | _ => PNotImplemented
  end.

Definition __rmul__ (self : Mat22) (other : pyval) : pyval :=
  match other with
  | PNum r => PMat (_real_mul self r)
  | _ => PNotImplemented
  end.

(** [1 / other] with the int 1 on the left: a number divides, a [Vec2d]
    answers through its own [__rtruediv__], anything else is a type
    error. *)
Definition one_over (other : pyval) : outcome num :=
  match other with
  | PNum r => real_div_num 1 (Real r)
  | PComplex re im => real_div_num 1 (Cplx re im)
  | PVec _ => Outside
  | _ => Err TypeError
  end.

(** [float(v)] for what [1 / other] returns. *)
Definition py_float (n : num) : outcome R :=
  match n with
  | Real r => Ok r
  | Cplx _ _ => Err TypeError
  end.

Definition __truediv__ (self : Mat22) (other : pyval) : outcome Mat22 :=
  (q <- one_over other ;;
   r <- py_float q ;;
   Ok (_real_mul self r))%py.

(** [v == n] for an int [n]. *)
Definition eq_int (v : pyval) (n : R) : outcome bool :=
  match v with
  | PNum r => Ok (if Req_dec_T r n then true else false)
  | PComplex re im =>
      Ok (if Req_dec_T re n then if Req_dec_T im 0 then true else false
          else false)
  | PVec _ => Outside
  | _ => Ok false
  end.

(** [v == (n, m)]: tuple comparison goes through the items in order, stops
    at the first pair that differs, and compares the lengths last.  A
    [Mat22] is a tuple of four floats; a list never equals a tuple. *)
Definition eq_pair (v : pyval) (n m : R) : outcome bool :=
  match v with
  | PTuple [] => Ok false
  | PTuple (u :: l) =>
      (e <- eq_int u n ;;
       if e then
         match l with
         | [] => Ok false
         | w :: l' =>
             e' <- eq_int w m ;;
             if e' then Ok (match l' with [] => true | _ => false end)
             else Ok false
         end
       else Ok false)%py
  | PVec _ => Outside
  | _ => Ok false
  end.

Definition __getitem__ (self : Mat22) (idx : pyval) : outcome pyval :=
  (e <- eq_int idx 0 ;;
   if e then Ok (PVec (mkVec (a self) (c self))) else
   e <- eq_int idx 1 ;;
   if e then Ok (PVec (mkVec (b self) (d self))) else
   e <- eq_pair idx 0 0 ;;
   if e then Ok (PNum (a self)) else
   e <- eq_pair idx 0 1 ;;
   if e then Ok (PNum (c self)) else
   e <- eq_pair idx 1 0 ;;
   if e then Ok (PNum (b self)) else
   e <- eq_pair idx 1 1 ;;
   if e then Ok (PNum (d self)) else
   Err IndexError)%py.

Definition rows (self : Mat22) : pyval :=
  PGen [PVec (mkVec (a self) (c self)); PVec (mkVec (b self) (d self))].

Definition cols (self : Mat22) : pyval :=
  PGen [PVec (mkVec (a self) (b self)); PVec (mkVec (c self) (d self))].

(** [u, w = v]: unpacking into two targets.  A sequence of another length
    is a [ValueError], a value that cannot be iterated a [TypeError]; a
    string yields its characters, a [Mat22] its four entries, a [Vec2d] its
    two coordinates (as [transform_vector] relies on). *)
Definition unpack2 (v : pyval) : outcome (pyval * pyval) :=
  match v with
  | PTuple [u; w] | PList [u; w] | PGen [u; w] => Ok (u, w)
  | PTuple _ | PList _ | PGen _ => Err ValueError
  | PStr (String c1 (String c2 EmptyString)) =>
      Ok (PStr (String c1 EmptyString), PStr (String c2 EmptyString))
  | PStr _ => Err ValueError
  | PMat _ => Err ValueError
  | PVec v => Ok (PNum (x v), PNum (y v))
  | PNone | PNotImplemented | PNum _ | PComplex _ _ => Err TypeError
  end.

(** [Mat22(a, b, c, d)]: the constructor stores what it is given; a matrix
    with an entry that is not a real number is outside the model. *)
Definition Mat22_new (a b c d : pyval) : outcome Mat22 :=
  match a, b, c, d with
  | PNum a, PNum b, PNum c, PNum d => Ok (mk a b c d)
  | _, _, _, _ => Outside
  end.

Definition as_mat2 (obj : pyval) : outcome Mat22 :=
  match obj with
  | PMat m => Ok m
  | PTuple _ | PList _ =>
      ('(p, q) <- unpack2 obj ;;
       '(a, b) <- unpack2 p ;;
       '(c, d) <- unpack2 q ;;
       Mat22_new a b c d)%py
  | PVec _ => Outside
  | _ => Err TypeError
  end.

(** The operators as the interpreter runs them: a method that returns
    [NotImplemented] hands over to the reflected method of the other
    operand, which for every operand here but a [Vec2d] ends in a
    [TypeError]. *)
Definition reflected (other : pyval) : outcome pyval :=
  match other with
  | PVec _ => Outside
  | _ => Err TypeError
  end.

Definition op_add (self : Mat22) (other : pyval) : outcome pyval :=
  match __add__ self other with
  | PNotImplemented => reflected other
  | v => Ok v
  end.

Definition op_sub (self : Mat22) (other : pyval) : outcome pyval :=
  match __sub__ self other with
  | PNotImplemented => reflected other
  | v => Ok v
  end.

Definition op_matmul (self : Mat22) (other : pyval) : outcome pyval :=
  match __matmul__ self other with
  | PNotImplemented => reflected other
  | v => Ok v
  end.

Definition op_mul (self : Mat22) (other : pyval) : outcome pyval :=
  match __mul__ self other with
  | PNotImplemented => reflected other
  | v => Ok v
  end.

(** [other * self]: [other]'s own [__mul__] runs first; the numbers, [None]
    and the generators have none that accepts a [Mat22], and a sequence
    cannot be repeated by one. *)
Definition op_rmul (self : Mat22) (other : pyval) : outcome pyval :=
  match other with
  | PMat other => op_mul other (PMat self)
  | PVec _ => Outside
  | _ =>
      match __rmul__ self other with
      | PNotImplemented => Err TypeError
      | v => Ok v
      end
  end.

(** [1 - ratio] with the int 1 on the left. *)
Definition one_minus (ratio : pyval) : outcome num :=
  match ratio with
  | PNum r => Ok (Real (1 - r))
  | PComplex re im => Ok (Cplx (1 - re) (- im))
  | PVec _ => Outside
  | _ => Err TypeError
  end.

Definition interpolate_to (self : Mat22) (other ratio : pyval) : outcome pyval :=
  (t <- one_minus ratio ;;
   lhs <- op_mul self (of_num t) ;;
   m <- as_mat2 other ;;
   rhs <- op_mul m ratio ;;
   match lhs with
   | PMat lhs => op_add lhs rhs
   | _ => Outside
   end)%py.

(** [transform_vector] on an operand that is still to be unpacked. *)
Definition transform_vector_dyn (self : Mat22) (vec : pyval) : outcome pyval :=
  ('(u, w) <- unpack2 vec ;;
   match u, w with
   | PNum x, PNum y => Ok (PVec (transform_vector self (mkVec x y)))
   | _, _ => Outside
   end)%py.

Definition scale_dyn (scale_x scale_y : pyval) : outcome Mat22 :=
  let scale_y := match scale_y with PNone => scale_x | _ => scale_y end in
  Mat22_new scale_x (PNum 0) (PNum 0) scale_y.

(** [copy], called with keyword arguments: [kwargs] is the dict the call builds from its keyword
    arguments; [setdefault] adds a key that is missing. *)
Definition kwargs := list (string * pyval).

Fixpoint get (k : string) (kw : kwargs) : option pyval :=
  match kw with
  | [] => None
  | (k', v) :: kw => if String.eqb k k' then Some v else get k kw
  end.

Definition setdefault (k : string) (v : pyval) (kw : kwargs) : kwargs :=
  match get k kw with
  | Some _ => kw
  | None => (kw ++ [(k, v)])%list
  end.

Definition field_name (k : string) : bool :=
  String.eqb k "a" || String.eqb k "b" || String.eqb k "c" || String.eqb k "d".

(** [Mat22] called with the keyword arguments [kw]: a keyword that is not
    a field is a [TypeError]. *)
Definition Mat22_kw (kw : kwargs) : outcome Mat22 :=
  if forallb (fun kv => field_name (fst kv)) kw then
    match get "a" kw, get "b" kw, get "c" kw, get "d" kw with
    | Some a, Some b, Some c, Some d => Mat22_new a b c d
    | _, _, _, _ => Err TypeError
    end
  else Err TypeError.

Definition copy (self : Mat22) (kw : kwargs) : outcome Mat22 :=
  let kw := setdefault "a" (PNum (a self)) kw in
  let kw := setdefault "b" (PNum (b self)) kw in
  let kw := setdefault "c" (PNum (c self)) kw in
  let kw := setdefault "d" (PNum (d self)) kw in
  Mat22_kw kw.

(** *** The operations that use [cos] and [sin]

    Both are imported from easymunk/math.py, which is not under src; they
    are taken as given functions on the reals. *)
Section Trig.
Variables cos sin : R -> R.

Definition rotation (angle : R) : Mat22 :=
  let cos_ := cos angle in
  let sin_ := sin angle in
  mk cos_ sin_ (- sin_) cos_.

Definition projection (angle : R) : Mat22 :=
  let cos_ := cos angle in
  let sin_ := sin angle in
  let diag := cos_ * sin_ in
  mk (cos_ ^ 2) diag diag (sin_ ^ 2).

(** [rotate]: the assignment [c = cos(angle)] rebinds the name the third
    entry was unpacked into. *)
Definition rotate (self : Mat22) (angle : R) : Mat22 :=
  let '(mk a b c d) := self in
  let c := cos angle in
  let s := sin angle in
  let cs := c * s in
  let c2 := c * c in
  mk ((a - d) * c2 + d - cs * (b + c))
     ((c - b) * c2 - c + cs * (a + d))
     ((c + b) * c2 - b + cs * (a - d))
     ((d - a) * c2 + a + cs * (b + c)).

(** An angle that is not a real number goes to the helpers of
    easymunk/math.py. *)
Definition with_angle (f : R -> Mat22) (angle : pyval) : outcome pyval :=
  match angle with
  | PNum r => Ok (PMat (f r))
  | _ => Outside
  end.

(** The operations of the module, by name. *)
Inductive op : Type :=
| Mat22_ | identity_ | rotation_ | projection_ | scale_ | zero_
| trace_ | determinant_ | T_ | transposed_
| eigenvalues_ | eigenvectors_
| add_ | sub_ | mul_ | rmul_ | matmul_ | truediv_
| getitem_ | rows_ | cols_
| interpolate_to_ | inverse_ | rotate_ | transform_vector_ | as_mat2_.

Definition mat (r : outcome Mat22) : outcome pyval :=
  (m <- r ;; Ok (PMat m))%py.

(** A call [self.op(args)] (or [self op arg] for an operator, [Mat22.op(args)]
    for a static method, [as_mat2(arg)]); a call with the wrong number of
    arguments is a [TypeError]. *)
Definition call (o : op) (self : Mat22) (args : list pyval) : outcome pyval :=
  match o, args with
  | Mat22_, [a; b; c; d] => mat (Mat22_new a b c d)
  | identity_, [] => Ok (PMat identity)
  | rotation_, [angle] => with_angle rotation angle
  | projection_, [angle] => with_angle projection angle
  | scale_, [scale_x] => mat (scale_dyn scale_x PNone)
  | scale_, [scale_x; scale_y] => mat (scale_dyn scale_x scale_y)
  | zero_, [] => Ok (PMat zero)
  | trace_, [] => Ok (PNum (trace self))
  | determinant_, [] => Ok (PNum (determinant self))
  | T_, [] => Ok (PMat (T self))
  | transposed_, [] => Ok (PMat (transposed self))
  | eigenvalues_, [] =>
      ('(l1, l2) <- eigenvalues self ;; Ok (PTuple [of_num l1; of_num l2]))%py
  | eigenvectors_, [] =>
      ('(v1, v2) <- eigenvectors self ;; Ok (PTuple [PVec v1; PVec v2]))%py
  | add_, [other] => op_add self other
  | sub_, [other] => op_sub self other
  | mul_, [other] => op_mul self other
  | rmul_, [other] => op_rmul self other
  | matmul_, [other] => op_matmul self other
  | truediv_, [other] => mat (__truediv__ self other)
  | getitem_, [idx] => __getitem__ self idx
  | rows_, [] => Ok (rows self)
  | cols_, [] => Ok (cols self)
  | interpolate_to_, [other] => interpolate_to self other (PNum (1 / 2))
  | interpolate_to_, [other; ratio] => interpolate_to self other ratio
  | inverse_, [] => mat (inverse self)
  | rotate_, [angle] => with_angle (rotate self) angle
  | transform_vector_, [vec] => transform_vector_dyn self vec
  | as_mat2_, [obj] => mat (as_mat2 obj)
  | _, _ => Err TypeError
  end.

(** *** Calls on objects

    Operands are objects in a store.  A method body unpacks its operands,
    computes, and returns a new object ([as_mat2] hands back the [Mat22] it
    is given); the one statement of the module that updates an object in
    place is [kwargs.setdefault] in [copy], on the dict made for the
    call. *)
Definition loc := nat.

Inductive object : Type :=
| Value (v : pyval)
| Dict (kw : kwargs).

Record store : Type := Store {
  heap : loc -> option object;
  next : loc
}.

Definition update (h : loc -> option object) (l : loc) (o : object) :
  loc -> option object :=
  fun l' => if Nat.eqb l' l then Some o else h l'.

Definition load (st : store) (l : loc) : outcome pyval :=
  match heap st l with
  | Some (Value v) => Ok v
  | _ => Outside
  end.

Fixpoint load_all (st : store) (ls : list loc) : outcome (list pyval) :=
  match ls with
  | [] => Ok []
  | l :: ls => (v <- load st l ;; vs <- load_all st ls ;; Ok (v :: vs))%py
  end.

Definition alloc (st : store) (o : object) : loc * store :=
  (next st, Store (update (heap st) (next st) o) (S (next st))).

Definition invoke (o : op) (self : loc) (args : list loc) (st : store) :
    outcome loc * store :=
  match load st self, load_all st args with
  | Ok (PMat m), Ok vals =>
      match o, vals, args with
      | as_mat2_, [PMat _], [obj] => (Ok obj, st)
      | _, _, _ =>
          match call o m vals with
          | Ok v => let '(l, st) := alloc st (Value v) in (Ok l, st)
          | Err e => (Err e, st)
          | Outside => (Outside, st)
          end
      end
  | Err e, _ | _, Err e => (Err e, st)
  | _, _ => (Outside, st)
  end.

(** [setdefault] on the dict at [d]. *)
Definition dict_setdefault (d : loc) (k : string) (v : pyval) (st : store) : store :=
  match heap st d with
  | Some (Dict kw) => Store (update (heap st) d (Dict (setdefault k v kw))) (next st)
  | _ => st
  end.

Fixpoint load_kwargs (st : store) (kw : list (string * loc)) : outcome kwargs :=
  match kw with
  | [] => Ok []
  | (k, l) :: kw => (v <- load st l ;; kw <- load_kwargs st kw ;; Ok ((k, v) :: kw))%py
  end.

Definition invoke_copy (self : loc) (kw : list (string * loc)) (st : store) :
    outcome loc * store :=
  match load st self, load_kwargs st kw with
  | Ok (PMat m), Ok kw =>
      let '(kwargs, st) := alloc st (Dict kw) in
      let st := dict_setdefault kwargs "a" (PNum (a m)) st in
      let st := dict_setdefault kwargs "b" (PNum (b m)) st in
      let st := dict_setdefault kwargs "c" (PNum (c m)) st in
      let st := dict_setdefault kwargs "d" (PNum (d m)) st in
      match heap st kwargs with
      | Some (Dict kw) =>
          match Mat22_kw kw with
          | Ok r => let '(l, st) := alloc st (Value (PMat r)) in (Ok l, st)
          | Err e => (Err e, st)
          | Outside => (Outside, st)
          end
      | _ => (Outside, st)
      end
  | Err e, _ | _, Err e => (Err e, st)
  | _, _ => (Outside, st)
  end.

(** What a call returned, as a value. *)
Definition returned_value (r : outcome loc * store) : outcome pyval :=
  (l <- fst r ;; load (snd r) l)%py.

End Trig.

End Mat22.

(** ** constraint.py *)

Module constraint.
Open Scope R_scope.

(** A Python object is named by its location; a native object by its
    address. *)
Definition loc := nat.

#[warnings="-register-all"]
Inductive value : Type :=
| VNone
| VNum (r : R)
| VTuple (l : list value)
| VRef (l : loc)
| VPtr (p : nat).

(** *** Programs

    A method body is a tree of the steps it takes: attribute reads and
    writes on Python objects, calls [cp.f(args)] into the compiled
    library, the test [cp is not None], the ctypes operations [.contents]
    and [cp.cast], reads and writes of a field of a native struct,
    [set.add], and calls of methods of [Body] (body.py, not under src). *)
Inductive py (A : Type) : Type :=
| Ret (a : A)
| Raise (e : exn)
| GetAttr (o : value) (name : string) (k : value -> py A)
| SetAttr (o : value) (name : string) (v : value) (k : py A)
| Foreign (f : string) (args : list value) (k : value -> py A)
| CpIsNotNone (k : bool -> py A)
| Contents (p : value) (k : value -> py A)
| Cast (p : value) (ty : string) (k : value -> py A)
| FieldGet (s : value) (field : string) (k : value -> py A)
| FieldSet (s : value) (field : string) (v : value) (k : py A)
| SetAdd (s : value) (v : value) (k : py A)
| Method (o : value) (name : string) (args : list value) (k : value -> py A).
Arguments Ret {A} a.
Arguments Raise {A} e.
Arguments GetAttr {A} o name k.
Arguments SetAttr {A} o name v k.
Arguments Foreign {A} f args k.
Arguments CpIsNotNone {A} k.
Arguments Contents {A} p k.
Arguments Cast {A} p ty k.
Arguments FieldGet {A} s field k.
Arguments FieldSet {A} s field v k.
Arguments SetAdd {A} s v k.
Arguments Method {A} o name args k.

Fixpoint seq {A B : Type} (m : py A) (f : A -> py B) : py B :=
  match m with
  | Ret a => f a
  | Raise e => Raise e
  | GetAttr o name k => GetAttr o name (fun v => seq (k v) f)
  | SetAttr o name v k => SetAttr o name v (seq k f)
  | Foreign g args k => Foreign g args (fun v => seq (k v) f)
  | CpIsNotNone k => CpIsNotNone (fun v => seq (k v) f)
  | Contents p k => Contents p (fun v => seq (k v) f)
  | Cast p ty k => Cast p ty (fun v => seq (k v) f)
  | FieldGet s field k => FieldGet s field (fun v => seq (k v) f)
  | FieldSet s field v k => FieldSet s field v (seq k f)
  | SetAdd s v k => SetAdd s v (seq k f)
  | Method o name args k => Method o name args (fun v => seq (k v) f)
  end.

Declare Scope prog_scope.
Delimit Scope prog_scope with prog.
Notation "x <- m ;; k" := (seq m (fun x => k))
  (at level 61, m at next level, right associativity) : prog_scope.
Notation "m ;; k" := (seq m (fun _ => k))
  (at level 61, right associativity) : prog_scope.
Open Scope prog_scope.

(** [o.name] and [o.name = v]. *)
Definition getattr (o : value) (name : string) : py value := GetAttr o name Ret.
Definition setattr (o : value) (name : string) (v : value) : py value :=
  SetAttr o name v (Ret VNone).

(** [cp.f(args)]. *)
Definition cp (f : string) (args : list value) : py value := Foreign f args Ret.

(** [property(fget, fset)]. *)
Record property : Type := Property {
  fget : option (value -> py value);
  fset : option (value -> value -> py value)
}.

Definition property2 (g : value -> py value) (s : value -> value -> py value) :=
  Property (Some g) (Some s).
Definition property1 (g : value -> py value) := Property (Some g) None.

Module Constraint.

Definition __init__ (self constraint : value) : py value :=
  setattr self "_constraint" constraint ;;
  h <- getattr self "_constraint" ;;
  c <- Contents h Ret ;;
  setattr self "_ccontents" c.

Definition _get_max_force (self : value) : py value :=
  h <- getattr self "_constraint" ;; cp "cpConstraintGetMaxForce" [h].
Definition _set_max_force (self f : value) : py value :=
  h <- getattr self "_constraint" ;; cp "cpConstraintSetMaxForce" [h; f] ;; Ret VNone.

Definition _get_error_bias (self : value) : py value :=
  h <- getattr self "_constraint" ;; cp "cpConstraintGetErrorBias" [h].
Definition _set_error_bias (self error_bias : value) : py value :=
  h <- getattr self "_constraint" ;; cp "cpConstraintSetErrorBias" [h; error_bias] ;; Ret VNone.

Definition _get_max_bias (self : value) : py value :=
  h <- getattr self "_constraint" ;; cp "cpConstraintGetMaxBias" [h].
Definition _set_max_bias (self max_bias : value) : py value :=
  h <- getattr self "_constraint" ;; cp "cpConstraintSetMaxBias" [h; max_bias] ;; Ret VNone.

Definition _get_collide_bodies (self : value) : py value :=
  h <- getattr self "_constraint" ;; cp "cpConstraintGetCollideBodies" [h].
Definition _set_collide_bodies (self collide_bodies : value) : py value :=
  h <- getattr self "_constraint" ;; cp "cpConstraintSetCollideBodies" [h; collide_bodies] ;; Ret VNone.

Definition _get_impulse (self : value) : py value :=
  h <- getattr self "_constraint" ;; cp "cpConstraintGetImpulse" [h].

Definition properties : list (string * property) :=
  [ ("max_force", property2 _get_max_force _set_max_force);
    ("error_bias", property2 _get_error_bias _set_error_bias);
    ("max_bias", property2 _get_max_bias _set_max_bias);
    ("collide_bodies", property2 _get_collide_bodies _set_collide_bodies);
    ("impulse", property1 _get_impulse);
    ("a", property1 (fun self => getattr self "_a"));
    ("b", property1 (fun self => getattr self "_b")) ].

Definition activate_bodies (self : value) : py value :=
  a <- getattr self "_a" ;; Method a "activate" [] Ret ;;
  b <- getattr self "_b" ;; Method b "activate" [] Ret ;;
  Ret VNone.

Definition _set_bodies (self a b : value) : py value :=
  setattr self "_a" a ;;
  setattr self "_b" b ;;
  s <- getattr a "_constraints" ;; SetAdd s self (Ret VNone) ;;
  s <- getattr b "_constraints" ;; SetAdd s self (Ret VNone).

Definition __del__ (self : value) : py value :=
  loaded <- CpIsNotNone Ret ;;
  if loaded : bool then
    h <- getattr self "_constraint" ;; cp "cpConstraintFree" [h] ;; Ret VNone
  else Ret VNone.

End Constraint.

Module PinJoint.
Definition __init__ (self : value) (args : list value) : py value :=
  let init a b anchor_a anchor_b :=
    ba <- getattr a "_body" ;; bb <- getattr b "_body" ;;
    h <- cp "cpPinJointNew" [ba; bb; anchor_a; anchor_b] ;;
    setattr self "_constraint" h ;;
    Constraint._set_bodies self a b in
  let origin := VTuple [VNum 0; VNum 0] in
  match args with
  | [a; b] => init a b origin origin
  | [a; b; anchor_a] => init a b anchor_a origin
  | [a; b; anchor_a; anchor_b] => init a b anchor_a anchor_b
  | _ => Raise TypeError
  end.
Definition _get_anchor_a (self : value) : py value :=
  h <- getattr self "_constraint" ;; cp "cpPinJointGetAnchorA" [h].
Definition _set_anchor_a (self anchor : value) : py value :=
  h <- getattr self "_constraint" ;; cp "cpPinJointSetAnchorA" [h; anchor] ;; Ret VNone.
Definition _get_anchor_b (self : value) : py value :=
  h <- getattr self "_constraint" ;; cp "cpPinJointGetAnchorB" [h].
Definition _set_anchor_b (self anchor : value) : py value :=
  h <- getattr self "_constraint" ;; cp "cpPinJointSetAnchorB" [h; anchor] ;; Ret VNone.
Definition _get_distance (self : value) : py value :=
  h <- getattr self "_constraint" ;; cp "cpPinJointGetDist" [h].
Definition _set_distance (self distance : value) : py value :=
  h <- getattr self "_constraint" ;; cp "cpPinJointSetDist" [h; distance] ;; Ret VNone.

Definition properties : list (string * property) :=
  [ ("anchor_a", property2 _get_anchor_a _set_anchor_a);
    ("anchor_b", property2 _get_anchor_b _set_anchor_b);
    ("distance", property2 _get_distance _set_distance) ].

End PinJoint.

Module SlideJoint.
Definition __init__ (self : value) (args : list value) : py value :=
  match args with
  | [a; b; anchor_a; anchor_b; min; max] =>
      ba <- getattr a "_body" ;; bb <- getattr b "_body" ;;
      h <- cp "cpSlideJointNew" [ba; bb; anchor_a; anchor_b; min; max] ;;
      setattr self "_constraint" h ;;
      Constraint._set_bodies self a b
  | _ => Raise TypeError
  end.
Definition _get_anchor_a (self : value) : py value :=
  h <- getattr self "_constraint" ;; cp "cpSlideJointGetAnchorA" [h].
Definition _set_anchor_a (self anchor : value) : py value :=
  h <- getattr self "_constraint" ;; cp "cpSlideJointSetAnchorA" [h; anchor] ;; Ret VNone.
Definition _get_anchor_b (self : value) : py value :=
  h <- getattr self "_constraint" ;; cp "cpSlideJointGetAnchorB" [h].
Definition _set_anchor_b (self anchor : value) : py value :=
  h <- getattr self "_constraint" ;; cp "cpSlideJointSetAnchorB" [h; anchor] ;; Ret VNone.
Definition _get_min (self : value) : py value :=
  h <- getattr self "_constraint" ;; cp "cpSlideJointGetMin" [h].
Definition _set_min (self min : value) : py value :=
  h <- getattr self "_constraint" ;; cp "cpSlideJointSetMin" [h; min] ;; Ret VNone.
Definition _get_max (self : value) : py value :=
  h <- getattr self "_constraint" ;; cp "cpSlideJointGetMax" [h].
Definition _set_max (self max : value) : py value :=
  h <- getattr self "_constraint" ;; cp "cpSlideJointSetMax" [h; max] ;; Ret VNone.

Definition properties : list (string * property) :=
  [ ("anchor_a", property2 _get_anchor_a _set_anchor_a);
    ("anchor_b", property2 _get_anchor_b _set_anchor_b);
    ("min", property2 _get_min _set_min);
    ("max", property2 _get_max _set_max) ].

End SlideJoint.

Module PivotJoint.
(** [__init__(self, a, b, *args)]: [args] is what follows the two bodies. *)
Definition __init__ (self : value) (args : list value) : py value :=
  match args with
  | a :: b :: args =>
      (if (List.length args =? 1)%nat then
         ba <- getattr a "_body" ;; bb <- getattr b "_body" ;;
         h <- cp "cpPivotJointNew" [ba; bb; nth 0 args VNone] ;;
         setattr self "_constraint" h
       else if (List.length args =? 2)%nat then
         ba <- getattr a "_body" ;; bb <- getattr b "_body" ;;
         h <- cp "cpPivotJointNew2" [ba; bb; nth 0 args VNone; nth 1 args VNone] ;;
         setattr self "_constraint" h
       else
         Raise (Exception "You must specify either one pivot point or two anchor points")) ;;
      Constraint._set_bodies self a b
  | _ => Raise TypeError
  end.
Definition _get_anchor_a (self : value) : py value :=
  h <- getattr self "_constraint" ;; cp "cpPivotJointGetAnchorA" [h].
Definition _set_anchor_a (self anchor : value) : py value :=
  h <- getattr self "_constraint" ;; cp "cpPivotJointSetAnchorA" [h; anchor] ;; Ret VNone.
Definition _get_anchor_b (self : value) : py value :=
  h <- getattr self "_constraint" ;; cp "cpPivotJointGetAnchorB" [h].
Definition _set_anchor_b (self anchor : value) : py value :=
  h <- getattr self "_constraint" ;; cp "cpPivotJointSetAnchorB" [h; anchor] ;; Ret VNone.

Definition properties : list (string * property) :=
  [ ("anchor_a", property2 _get_anchor_a _set_anchor_a);
    ("anchor_b", property2 _get_anchor_b _set_anchor_b) ].

End PivotJoint.

Module GrooveJoint.
Definition __init__ (self : value) (args : list value) : py value :=
  match args with
  | [a; b; groove_a; groove_b; anchor_b] =>
      ba <- getattr a "_body" ;; bb <- getattr b "_body" ;;
      h <- cp "cpGrooveJointNew" [ba; bb; groove_a; groove_b; anchor_b] ;;
      setattr self "_constraint" h ;;
      Constraint._set_bodies self a b
  | _ => Raise TypeError
  end.
Definition _get_anchor_b (self : value) : py value :=
  h <- getattr self "_constraint" ;; cp "cpGrooveJointGetAnchorB" [h].
Definition _set_anchor_b (self anchor : value) : py value :=
  h <- getattr self "_constraint" ;; cp "cpGrooveJointSetAnchorB" [h; anchor] ;; Ret VNone.
Definition _get_groove_a (self : value) : py value :=
  h <- getattr self "_constraint" ;; cp "cpGrooveJointGetGrooveA" [h].
Definition _set_groove_a (self groove : value) : py value :=
  h <- getattr self "_constraint" ;; cp "cpGrooveJointSetGrooveA" [h; groove] ;; Ret VNone.
Definition _get_groove_b (self : value) : py value :=
  h <- getattr self "_constraint" ;; cp "cpGrooveJointGetGrooveB" [h].
Definition _set_groove_b (self groove : value) : py value :=
  h <- getattr self "_constraint" ;; cp "cpGrooveJointSetGrooveB" [h; groove] ;; Ret VNone.

Definition properties : list (string * property) :=
  [ ("anchor_b", property2 _get_anchor_b _set_anchor_b);
    ("groove_a", property2 _get_groove_a _set_groove_a);
    ("groove_b", property2 _get_groove_b _set_groove_b) ].

End GrooveJoint.

Module DampedSpring.
Definition __init__ (self : value) (args : list value) : py value :=
  match args with
  | [a; b; anchor_a; anchor_b; rest_length; stiffness; damping] =>
      ba <- getattr a "_body" ;; bb <- getattr b "_body" ;;
      h <- cp "cpDampedSpringNew"
             [ba; bb; anchor_a; anchor_b; rest_length; stiffness; damping] ;;
      setattr self "_constraint" h ;;
      Constraint._set_bodies self a b
  | _ => Raise TypeError
  end.
Definition _get_anchor_a (self : value) : py value :=
  h <- getattr self "_constraint" ;; cp "cpDampedSpringGetAnchorA" [h].
Definition _set_anchor_a (self anchor : value) : py value :=
  h <- getattr self "_constraint" ;; cp "cpDampedSpringSetAnchorA" [h; anchor] ;; Ret VNone.
Definition _get_anchor_b (self : value) : py value :=
  h <- getattr self "_constraint" ;; cp "cpDampedSpringGetAnchorB" [h].
Definition _set_anchor_b (self anchor : value) : py value :=
  h <- getattr self "_constraint" ;; cp "cpDampedSpringSetAnchorB" [h; anchor] ;; Ret VNone.
Definition _get_rest_length (self : value) : py value :=
  h <- getattr self "_constraint" ;; cp "cpDampedSpringGetRestLength" [h].
Definition _set_rest_length (self rest_length : value) : py value :=
  h <- getattr self "_constraint" ;; cp "cpDampedSpringSetRestLength" [h; rest_length] ;; Ret VNone.
Definition _get_stiffness (self : value) : py value :=
  h <- getattr self "_constraint" ;; cp "cpDampedSpringGetStiffness" [h].
Definition _set_stiffness (self stiffness : value) : py value :=
  h <- getattr self "_constraint" ;; cp "cpDampedSpringSetStiffness" [h; stiffness] ;; Ret VNone.
Definition _get_damping (self : value) : py value :=
  h <- getattr self "_constraint" ;; cp "cpDampedSpringGetDamping" [h].
Definition _set_damping (self damping : value) : py value :=
  h <- getattr self "_constraint" ;; cp "cpDampedSpringSetDamping" [h; damping] ;; Ret VNone.

Definition properties : list (string * property) :=
  [ ("anchor_a", property2 _get_anchor_a _set_anchor_a);
    ("anchor_b", property2 _get_anchor_b _set_anchor_b);
    ("rest_length", property2 _get_rest_length _set_rest_length);
    ("stiffness", property2 _get_stiffness _set_stiffness);
    ("damping", property2 _get_damping _set_damping) ].

End DampedSpring.

Module DampedRotarySpring.
Definition __init__ (self : value) (args : list value) : py value :=
  match args with
  | [a; b; rest_angle; stiffness; damping] =>
      ba <- getattr a "_body" ;; bb <- getattr b "_body" ;;
      h <- cp "cpDampedRotarySpringNew" [ba; bb; rest_angle; stiffness; damping] ;;
      setattr self "_constraint" h ;;
      Constraint._set_bodies self a b
  | _ => Raise TypeError
  end.
Definition _get_rest_angle (self : value) : py value :=
  h <- getattr self "_constraint" ;; cp "cpDampedRotarySpringGetRestAngle" [h].
Definition _set_rest_angle (self rest_angle : value) : py value :=
  h <- getattr self "_constraint" ;; cp "cpDampedRotarySpringSetRestAngle" [h; rest_angle] ;; Ret VNone.
Definition _get_stiffness (self : value) : py value :=
  h <- getattr self "_constraint" ;; cp "cpDampedRotarySpringGetStiffness" [h].
Definition _set_stiffness (self stiffness : value) : py value :=
  h <- getattr self "_constraint" ;; cp "cpDampedRotarySpringSetStiffness" [h; stiffness] ;; Ret VNone.
Definition _get_damping (self : value) : py value :=
  h <- getattr self "_constraint" ;; cp "cpDampedRotarySpringGetDamping" [h].
Definition _set_damping (self damping : value) : py value :=
  h <- getattr self "_constraint" ;; cp "cpDampedRotarySpringSetDamping" [h; damping] ;; Ret VNone.

Definition properties : list (string * property) :=
  [ ("rest_angle", property2 _get_rest_angle _set_rest_angle);
    ("stiffness", property2 _get_stiffness _set_stiffness);
    ("damping", property2 _get_damping _set_damping) ].

End DampedRotarySpring.

Module RotaryLimitJoint.
Definition __init__ (self : value) (args : list value) : py value :=
  match args with
  | [a; b; min; max] =>
      ba <- getattr a "_body" ;; bb <- getattr b "_body" ;;
      h <- cp "cpRotaryLimitJointNew" [ba; bb; min; max] ;;
      setattr self "_constraint" h ;;
      Constraint._set_bodies self a b
  | _ => Raise TypeError
  end.
Definition _get_min (self : value) : py value :=
  h <- getattr self "_constraint" ;; cp "cpRotaryLimitJointGetMin" [h].
Definition _set_min (self min : value) : py value :=
  h <- getattr self "_constraint" ;; cp "cpRotaryLimitJointSetMin" [h; min] ;; Ret VNone.
Definition _get_max (self : value) : py value :=
  h <- getattr self "_constraint" ;; cp "cpRotaryLimitJointGetMax" [h].
Definition _set_max (self max : value) : py value :=
  h <- getattr self "_constraint" ;; cp "cpRotaryLimitJointSetMax" [h; max] ;; Ret VNone.

Definition properties : list (string * property) :=
  [ ("min", property2 _get_min _set_min);
    ("max", property2 _get_max _set_max) ].

End RotaryLimitJoint.

Module RatchetJoint.
Definition __init__ (self : value) (args : list value) : py value :=
  match args with
  | [a; b; phase; ratchet] =>
      ba <- getattr a "_body" ;; bb <- getattr b "_body" ;;
      h <- cp "cpRatchetJointNew" [ba; bb; phase; ratchet] ;;
      setattr self "_constraint" h ;;
      Constraint._set_bodies self a b
  | _ => Raise TypeError
  end.
Definition _get_angle (self : value) : py value :=
  h <- getattr self "_constraint" ;; cp "cpRatchetJointGetAngle" [h].
Definition _set_angle (self angle : value) : py value :=
  h <- getattr self "_constraint" ;; cp "cpRatchetJointSetAngle" [h; angle] ;; Ret VNone.
Definition _get_phase (self : value) : py value :=
  h <- getattr self "_constraint" ;; cp "cpRatchetJointGetPhase" [h].
Definition _set_phase (self phase : value) : py value :=
  h <- getattr self "_constraint" ;; cp "cpRatchetJointSetPhase" [h; phase] ;; Ret VNone.
Definition _get_ratchet (self : value) : py value :=
  h <- getattr self "_constraint" ;; cp "cpRatchetJointGetRatchet" [h].
Definition _set_ratchet (self ratchet : value) : py value :=
  h <- getattr self "_constraint" ;; cp "cpRatchetJointSetRatchet" [h; ratchet] ;; Ret VNone.

Definition properties : list (string * property) :=
  [ ("angle", property2 _get_angle _set_angle);
    ("phase", property2 _get_phase _set_phase);
    ("ratchet", property2 _get_ratchet _set_ratchet) ].

End RatchetJoint.

Module GearJoint.
Definition __init__ (self : value) (args : list value) : py value :=
  match args with
  | [a; b; phase; ratio] =>
      ba <- getattr a "_body" ;; bb <- getattr b "_body" ;;
      h <- cp "cpGearJointNew" [ba; bb; phase; ratio] ;;
      setattr self "_constraint" h ;;
      h <- getattr self "_constraint" ;;
      c <- Contents h Ret ;;
      setattr self "_ccontents" c ;;
      h <- getattr self "_constraint" ;;
      p <- Cast h "cpGearJoint" Ret ;;
      s <- Contents p Ret ;;
      setattr self "_dsc" s ;;
      Constraint._set_bodies self a b
  | _ => Raise TypeError
  end.
Definition _get_phase (self : value) : py value :=
  s <- getattr self "_dsc" ;; FieldGet s "phase" Ret.
Definition _set_phase (self phase : value) : py value :=
  s <- getattr self "_dsc" ;; FieldSet s "phase" phase (Ret VNone).
Definition _get_ratio (self : value) : py value :=
  s <- getattr self "_dsc" ;; FieldGet s "ratio" Ret.
Definition _set_ratio (self ratio : value) : py value :=
  s <- getattr self "_dsc" ;; FieldSet s "ratio" ratio (Ret VNone).

Definition properties : list (string * property) :=
  [ ("phase", property2 _get_phase _set_phase);
    ("ratio", property2 _get_ratio _set_ratio) ].

End GearJoint.

Module SimpleMotor.
Definition __init__ (self : value) (args : list value) : py value :=
  match args with
  | [a; b; rate] =>
      ba <- getattr a "_body" ;; bb <- getattr b "_body" ;;
      h <- cp "cpSimpleMotorNew" [ba; bb; rate] ;;
      setattr self "_constraint" h ;;
      h <- getattr self "_constraint" ;;
      c <- Contents h Ret ;;
      setattr self "_ccontents" c ;;
      h <- getattr self "_constraint" ;;
      p <- Cast h "cpSimpleMotor" Ret ;;
      s <- Contents p Ret ;;
      setattr self "_dsc" s ;;
      Constraint._set_bodies self a b
  | _ => Raise TypeError
  end.
Definition _get_rate (self : value) : py value :=
  s <- getattr self "_dsc" ;; FieldGet s "rate" Ret.
Definition _set_rate (self rate : value) : py value :=
  s <- getattr self "_dsc" ;; FieldSet s "rate" rate (Ret VNone).

Definition properties : list (string * property) :=
  [ ("rate", property2 _get_rate _set_rate) ].

End SimpleMotor.

(** *** The classes of the module *)

Inductive cls : Type :=
| Constraint_ | PinJoint_ | SlideJoint_ | PivotJoint_ | GrooveJoint_
| DampedSpring_ | DampedRotarySpring_ | RotaryLimitJoint_ | RatchetJoint_
| GearJoint_ | SimpleMotor_.

Definition classes : list cls :=
  [ Constraint_; PinJoint_; SlideJoint_; PivotJoint_; GrooveJoint_;
    DampedSpring_; DampedRotarySpring_; RotaryLimitJoint_; RatchetJoint_;
    GearJoint_; SimpleMotor_ ].

Definition class_name (c : cls) : string :=
  match c with
  | Constraint_ => "Constraint"
  | PinJoint_ => "PinJoint"
  | SlideJoint_ => "SlideJoint"
  | PivotJoint_ => "PivotJoint"
  | GrooveJoint_ => "GrooveJoint"
  | DampedSpring_ => "DampedSpring"
  | DampedRotarySpring_ => "DampedRotarySpring"
  | RotaryLimitJoint_ => "RotaryLimitJoint"
  | RatchetJoint_ => "RatchetJoint"
  | GearJoint_ => "GearJoint"
  | SimpleMotor_ => "SimpleMotor"
  end.

(** [class X(Constraint)] for every class but [Constraint] itself, which
    derives from [object]. *)
Definition base (c : cls) : option cls :=
  match c with
  | Constraint_ => None
  | _ => Some Constraint_
  end.

(** The properties a class body defines. *)
Definition properties (c : cls) : list (string * property) :=
  match c with
  | Constraint_ => Constraint.properties
  | PinJoint_ => PinJoint.properties
  | SlideJoint_ => SlideJoint.properties
  | PivotJoint_ => PivotJoint.properties
  | GrooveJoint_ => GrooveJoint.properties
  | DampedSpring_ => DampedSpring.properties
  | DampedRotarySpring_ => DampedRotarySpring.properties
  | RotaryLimitJoint_ => RotaryLimitJoint.properties
  | RatchetJoint_ => RatchetJoint.properties
  | GearJoint_ => GearJoint.properties
  | SimpleMotor_ => SimpleMotor.properties
  end.

(** [X(args)] runs [X.__init__(self, args)] on the new object. *)
Definition init (c : cls) (self : value) (args : list value) : py value :=
  match c with
  | Constraint_ =>
      match args with
      | [] => Constraint.__init__ self VNone
      | [constraint] => Constraint.__init__ self constraint
      | _ => Raise TypeError
      end
  | PinJoint_ => PinJoint.__init__ self args
  | SlideJoint_ => SlideJoint.__init__ self args
  | PivotJoint_ => PivotJoint.__init__ self args
  | GrooveJoint_ => GrooveJoint.__init__ self args
  | DampedSpring_ => DampedSpring.__init__ self args
  | DampedRotarySpring_ => DampedRotarySpring.__init__ self args
  | RotaryLimitJoint_ => RotaryLimitJoint.__init__ self args
  | RatchetJoint_ => RatchetJoint.__init__ self args
  | GearJoint_ => GearJoint.__init__ self args
  | SimpleMotor_ => SimpleMotor.__init__ self args
  end.

Fixpoint find (name : string) (l : list (string * property)) : option property :=
  match l with
  | [] => None
  | (n, p) :: l => if String.eqb name n then Some p else find name l
  end.

(** Attribute lookup along the classes an instance of [c] derives from. *)
Definition lookup (c : cls) (name : string) : option property :=
  match find name (properties c) with
  | Some p => Some p
  | None =>
      match base c with
      | Some b => find name (properties b)
      | None => None
      end
  end.

(** The properties an instance of [c] exposes: its own, then the inherited
    ones its class does not redefine. *)
Definition exposed (c : cls) : list (string * property) :=
  match base c with
  | None => properties c
  | Some b =>
      properties c ++
      filter (fun np => match find (fst np) (properties c) with
                        | Some _ => false
                        | None => true
                        end) (properties b)
  end%list.

(** What a caller does with an instance: read an attribute, assign to one,
    or call [activate_bodies]. *)
Inductive access : Type :=
| Read (name : string)
| Write (name : string) (v : value)
| ActivateBodies.

Definition perform (c : cls) (self : value) (acc : access) : py value :=
  match acc with
  | Read name =>
      match lookup c name with
      | Some p =>
          match fget p with
          | Some g => g self
          | None => Raise AttributeError
          end
      | None => getattr self name
      end
  | Write name v =>
      match lookup c name with
      | Some p =>
          match fset p with
          | Some s => s self v
          | None => Raise AttributeError
          end
      | None => setattr self name v
      end
  | ActivateBodies => Constraint.activate_bodies self
  end.

(** *** Running a program

    The Python side of the state is a heap of instances (attribute
    dictionaries) and sets, and whether the module global [cp] is still
    bound; the native side is whatever the compiled library keeps, with
    [log] recording the foreign calls made so far.  Reading a missing
    attribute, or an attribute of something that is not an instance, is an
    [AttributeError]; so is [cp.f] once [cp] is [None]. *)
Inductive object : Type :=
| Instance (attrs : list (string * value))
| PySet (elems : list value).

Inductive event : Type :=
| Called (f : string) (args : list value) (ret : value).

Fixpoint attr (name : string) (attrs : list (string * value)) : option value :=
  match attrs with
  | [] => None
  | (n, v) :: attrs => if String.eqb name n then Some v else attr name attrs
  end.

(** Objects without [__eq__] are compared by identity. *)
Definition same (v w : value) : bool :=
  match v, w with
  | VRef l, VRef l' => Nat.eqb l l'
  | _, _ => false
  end.

Definition set_add (v : value) (elems : list value) : list value :=
  if existsb (same v) elems then elems else (elems ++ [v])%list.

Section Run.
Variable native : Type.
(** The compiled library, ctypes, and the methods of [Body]. *)
Variable foreign : string -> list value -> native -> value * native.
Variable contents : value -> native -> outcome value.
Variable cast : value -> string -> outcome value.
Variable field_get : value -> string -> native -> outcome value.
Variable field_set : value -> string -> value -> native -> outcome native.
Variable method : value -> string -> list value -> native -> outcome value * native.

Record state : Type := State {
  heap : loc -> option object;
  world : native;
  cp_bound : bool;
  log : list event
}.

Definition update (h : loc -> option object) (l : loc) (o : object) :
  loc -> option object :=
  fun l' => if Nat.eqb l' l then Some o else h l'.

Fixpoint run {A : Type} (p : py A) (st : state) : outcome A * state :=
  match p with
  | Ret a => (Ok a, st)
  | Raise e => (Err e, st)
  | GetAttr o name k =>
      match o with
      | VRef l =>
          match heap st l with
          | Some (Instance attrs) =>
              match attr name attrs with
              | Some v => run (k v) st
              | None => (Err AttributeError, st)
              end
          | _ => (Err AttributeError, st)
          end
      | _ => (Err AttributeError, st)
      end
  | SetAttr o name v k =>
      match o with
      | VRef l =>
          match heap st l with
          | Some (Instance attrs) =>
              run k (State (update (heap st) l (Instance ((name, v) :: attrs)))
                           (world st) (cp_bound st) (log st))
          | _ => (Err AttributeError, st)
          end
      | _ => (Err AttributeError, st)
      end
  | Foreign f args k =>
      if cp_bound st then
        let '(r, w) := foreign f args (world st) in
        run (k r) (State (heap st) w (cp_bound st) (log st ++ [Called f args r]))
      else (Err AttributeError, st)
  | CpIsNotNone k => run (k (cp_bound st)) st
  | Contents p k =>
      match contents p (world st) with
      | Ok v => run (k v) st
      | Err e => (Err e, st)
      | Outside => (Outside, st)
      end
  | Cast p ty k =>
      match cast p ty with
      | Ok v => run (k v) st
      | Err e => (Err e, st)
      | Outside => (Outside, st)
      end
  | FieldGet s field k =>
      match field_get s field (world st) with
      | Ok v => run (k v) st
      | Err e => (Err e, st)
      | Outside => (Outside, st)
      end
  | FieldSet s field v k =>
      match field_set s field v (world st) with
      | Ok w => run k (State (heap st) w (cp_bound st) (log st))
      | Err e => (Err e, st)
      | Outside => (Outside, st)
      end
  | SetAdd s v k =>
      match s with
      | VRef l =>
          match heap st l with
          | Some (PySet elems) =>
              run k (State (update (heap st) l (PySet (set_add v elems)))
                           (world st) (cp_bound st) (log st))
          | _ => (Err AttributeError, st)
          end
      | _ => (Err AttributeError, st)
      end
  | Method o name args k =>
      match method o name args (world st) with
      | (Ok v, w) => run (k v) (State (heap st) w (cp_bound st) (log st))
      | (Err e, w) => (Err e, State (heap st) w (cp_bound st) (log st))
      | (Outside, w) => (Outside, State (heap st) w (cp_bound st) (log st))
      end
  end.

(** The life of an instance: [__init__] on the new object; if it returns,
    what the holders of the instance do with it (possibly with the
    interpreter unbinding [cp] as it shuts down); then [__del__] when the
    object is collected, which also happens to an object whose [__init__]
    raised.  An exception in a step goes to the caller and the life goes
    on. *)
Inductive step : Type :=
| Access (acc : access)
| Shutdown.

Definition do_step (c : cls) (self : value) (st : state) (s : step) : state :=
  match s with
  | Access acc => snd (run (perform c self acc) st)
  | Shutdown => State (heap st) (world st) false (log st)
  end.

Definition life (c : cls) (self : value) (args : list value)
    (steps : list step) (st : state) : state :=
  match run (init c self args) st with
  | (Ok _, st) =>
      snd (run (Constraint.__del__ self) (fold_left (do_step c self) steps st))
  | (_, st) => snd (run (Constraint.__del__ self) st)
  end.

End Run.

End constraint.

(** ** pyglet/draw_options.py *)

Module draw_options.
Open Scope R_scope.

Definition loc := nat.
Definition Vec2d := Mat22.Vec2d.
Definition Vec2d_ (x y : R) : Vec2d := Mat22.mkVec x y.

(** What a list holds here: vectors ([ps], [verts]) or numbers ([vs]). *)
Inductive item : Type :=
| IVec (v : Vec2d)
| INum (r : R).

(** pyglet: drawing modes, groups, and what [Batch.add] is given. *)
Inductive gl_mode : Type :=
| GL_POINTS | GL_LINES | GL_TRIANGLES | GL_TRIANGLE_STRIP.

Inductive group : Type :=
| NoGroup
| OrderedGroup (order : Z)
| _GrPointSize (size : R).

Inductive vertex_data : Type :=
| Floats (vs : list item)
| Ints (line : list Z)
| Point (pos : Vec2d).

Record primitive : Type := Primitive {
  count : Z;
  mode : gl_mode;
  in_group : group;
  vertices : string * vertex_data;
  colors : string * list Z
}.

(** *** Programs

    The steps a drawing method takes on objects: reading [self.batch],
    creating a list, [+=] and [append] on a list, reading a list, and
    [batch.add]. *)
Inductive dr (A : Type) : Type :=
| Ret (a : A)
| Raise (e : exn)
| GetBatch (self : loc) (k : loc -> dr A)
| NewList (items : list item) (k : loc -> dr A)
| Extend (l : loc) (items : list item) (k : dr A)
| Append (l : loc) (it : item) (k : dr A)
| Items (l : loc) (k : list item -> dr A)
| BatchAdd (b : loc) (p : primitive) (k : dr A).
Arguments Ret {A} a.
Arguments Raise {A} e.
Arguments GetBatch {A} self k.
Arguments NewList {A} items k.
Arguments Extend {A} l items k.
Arguments Append {A} l it k.
Arguments Items {A} l k.
Arguments BatchAdd {A} b p k.

Fixpoint seq {A B : Type} (m : dr A) (f : A -> dr B) : dr B :=
  match m with
  | Ret a => f a
  | Raise e => Raise e
  | GetBatch self k => GetBatch self (fun v => seq (k v) f)
  | NewList items k => NewList items (fun v => seq (k v) f)
  | Extend l items k => Extend l items (seq k f)
  | Append l it k => Append l it (seq k f)
  | Items l k => Items l (fun v => seq (k v) f)
  | BatchAdd b p k => BatchAdd b p (seq k f)
  end.

Declare Scope draw_scope.
Delimit Scope draw_scope with draw.
Notation "x <- m ;; k" := (seq m (fun x => k))
  (at level 61, m at next level, right associativity) : draw_scope.
Notation "' p <- m ;; k" := (seq m (fun p => k))
  (at level 61, p pattern, m at next level, right associativity) : draw_scope.
Notation "m ;; k" := (seq m (fun _ => k))
  (at level 61, right associativity) : draw_scope.
Open Scope draw_scope.

Definition new_list (items : list item) : dr loc := NewList items Ret.
Definition extend (l : loc) (items : list item) : dr unit := Extend l items (Ret tt).
Definition append (l : loc) (it : item) : dr unit := Append l it (Ret tt).
Definition items (l : loc) : dr (list item) := Items l Ret.
Definition batch (self : loc) : dr loc := GetBatch self Ret.
Definition add (b : loc) (count : Z) (mode : gl_mode) (g : group)
    (vertices : string * vertex_data) (colors : string * list Z) : dr unit :=
  BatchAdd b (Primitive count mode g vertices colors) (Ret tt).

(** [l[i]]: a negative index counts from the end. *)
Definition index {X : Type} (l : list X) (i : Z) : option X :=
  let n := Z.of_nat (List.length l) in
  if (0 <=? i)%Z then nth_error l (Z.to_nat i)
  else if (- n <=? i)%Z then nth_error l (Z.to_nat (n + i))
  else None.

Definition getitem (l : loc) (i : Z) : dr item :=
  its <- items l ;;
  match index its i with
  | Some it => Ret it
  | None => Raise IndexError
  end.

Definition len (l : loc) : dr Z :=
  its <- items l ;; Ret (Z.of_nat (List.length its)).

(** [p.x] and [p.y]: a float has neither. *)
Definition get_x (it : item) : dr R :=
  match it with
  | IVec v => Ret (Mat22.x v)
  | INum _ => Raise AttributeError
  end.

Definition get_y (it : item) : dr R :=
  match it with
  | IVec v => Ret (Mat22.y v)
  | INum _ => Raise AttributeError
  end.

(** [for i in range(lo, hi)], threading the variables the body rebinds. *)
Fixpoint for_ {X S : Type} (l : list X) (body : X -> S -> dr S) (s : S) : dr S :=
  match l with
  | [] => Ret s
  | i :: l => s <- body i s ;; for_ l body s
  end.

Definition range (lo hi : Z) : list Z :=
  map (fun i => (lo + Z.of_nat i)%Z) (List.seq 0 (Z.to_nat (hi - lo))).

(** [int(v)] truncates towards zero. *)
Definition int (v : R) : Z :=
  if Rle_dec 0 v then Int_part v else (- Int_part (- v))%Z.

(** [t * n] for a tuple [t]. *)
Definition times {X : Type} (t : list X) (n : Z) : list X :=
  List.concat (repeat t (Z.to_nat n)).

(** *** The drawing methods

    [math.atan2], the arithmetic and [rotated] of [Vec2d] (vec2d.py) and
    [SpaceDebugColor.as_int] (space_debug_draw_options.py) are given. *)
Section Draw.
Variable atan2 : R -> R -> R.
Variable vec_add vec_sub : Vec2d -> Vec2d -> Vec2d.
Variable rotated : Vec2d -> R -> Vec2d.
Variable SpaceDebugColor : Type.
Variable as_int : SpaceDebugColor -> list Z.

Definition draw_circle (self : loc) (pos : Vec2d) (angle radius : R)
    (outline_color fill_color : SpaceDebugColor) : dr unit :=
  let circle_center := pos in
  (if Rlt_dec radius 0 then Raise ValueError else Ret tt) ;;
  let num_segments := int (4 * sqrt radius) in
  (if (num_segments =? 0)%Z then Raise ZeroDivisionError else Ret tt) ;;
  let theta := 2 * PI / IZR num_segments in
  let c := cos theta in
  let s := sin theta in
  let x := radius in
  let y := 0 in
  ps <- new_list [] ;;
  for_ (range 0 num_segments) (fun i '(x, y) =>
    extend ps [IVec (Vec2d_ (Mat22.x circle_center + x) (Mat22.y circle_center + y))] ;;
    let t := x in
    let x := c * x - s * y in
    let y := s * t + c * y in
    Ret (x, y)) (x, y) ;;
  let mode := GL_TRIANGLE_STRIP in
  p0 <- getitem ps 0 ;;
  ps2 <- new_list [p0] ;;
  n <- len ps ;;
  for_ (range 1 (int (IZR n + 1 / 2))) (fun i _ =>
    p <- getitem ps i ;; append ps2 p ;;
    p <- getitem ps (- i) ;; append ps2 p) tt ;;
  let ps := ps2 in
  vs <- new_list [] ;;
  first <- getitem ps 0 ;;
  its <- items ps ;;
  last <- getitem ps (-1) ;;
  for_ ([first] ++ its ++ [last])%list (fun p _ =>
    px <- get_x p ;; py <- get_y p ;; extend vs [INum px; INum py]) tt ;;
  let cc := vec_add circle_center (rotated (Vec2d_ radius 0) angle) in
  let cvs := [INum (Mat22.x circle_center); INum (Mat22.y circle_center);
              INum (Mat22.x cc); INum (Mat22.y cc)] in
  let bg := OrderedGroup 0 in
  let fg := OrderedGroup 1 in
  n <- len vs ;;
  let l := (n / 2)%Z in
  b <- batch self ;;
  n <- len vs ;;
  data <- items vs ;;
  add b (n / 2)%Z mode bg ("v2f", Floats data) ("c4B", times (as_int fill_color) l) ;;
  b <- batch self ;;
  add b 2 GL_LINES fg ("v2f", Floats cvs) ("c4B", times (as_int outline_color) 2).

Definition draw_segment (self : loc) (a b : Vec2d) (color : SpaceDebugColor) : dr unit :=
  let pv1 := a in
  let pv2 := b in
  let line := [int (Mat22.x pv1); int (Mat22.y pv1); int (Mat22.x pv2); int (Mat22.y pv2)] in
  bt <- batch self ;;
  add bt 2 GL_LINES NoGroup ("v2i", Ints line) ("c4B", times (as_int color) 2).

Definition draw_fat_segment (self : loc) (a b : Vec2d) (radius : R)
    (outline_color fill_color : SpaceDebugColor) : dr unit :=
  let pv1 := a in
  let pv2 := b in
  let d := vec_sub pv2 pv1 in
  let atan := - atan2 (Mat22.x d) (Mat22.y d) in
  let radius := Rmax radius 1 in
  let dx := radius * cos atan in
  let dy := radius * sin atan in
  let p1 := vec_add pv1 (Vec2d_ dx dy) in
  let p2 := vec_sub pv1 (Vec2d_ dx dy) in
  let p3 := vec_add pv2 (Vec2d_ dx dy) in
  let p4 := vec_sub pv2 (Vec2d_ dx dy) in
  vs <- new_list (flat_map (fun xy => [INum (Mat22.x xy); INum (Mat22.y xy)])
                           ([p1; p2; p3] ++ [p2; p3; p4])%list) ;;
  n <- len vs ;;
  let l := (n / 2)%Z in
  bt <- batch self ;;
  data <- items vs ;;
  add bt l GL_TRIANGLES NoGroup ("v2f", Floats data) ("c4B", times (as_int fill_color) l) ;;
  draw_circle self a 0 radius fill_color fill_color ;;
  draw_circle self b 0 radius fill_color fill_color.

Definition draw_polygon (self : loc) (verts : loc) (radius : R)
    (outline_color fill_color : SpaceDebugColor) : dr unit :=
  let mode := GL_TRIANGLE_STRIP in
  l <- len verts ;;
  n <- len verts ;;
  let mid := (n / 2)%Z in
  vs <- new_list [] ;;
  for_ (range 0 mid) (fun i _ =>
    v <- getitem verts i ;; vx <- get_x v ;;
    v <- getitem verts i ;; vy <- get_y v ;;
    extend vs [INum vx; INum vy] ;;
    v <- getitem verts (l - 1 - i) ;; vx <- get_x v ;;
    v <- getitem verts (l - 1 - i) ;; vy <- get_y v ;;
    extend vs [INum vx; INum vy]) tt ;;
  (if (l mod 2 =? 0)%Z then Ret tt
   else
     v <- getitem verts mid ;; vx <- get_x v ;;
     v <- getitem verts mid ;; vy <- get_y v ;;
     extend vs [INum vx; INum vy]) ;;
  v0 <- getitem vs 0 ;;
  v1 <- getitem vs 1 ;;
  its <- items vs ;;
  w0 <- getitem vs (-2) ;;
  w1 <- getitem vs (-1) ;;
  vs <- new_list ([v0; v1] ++ its ++ [w0; w1])%list ;;
  n <- len vs ;;
  let l := (n / 2)%Z in
  bt <- batch self ;;
  data <- items vs ;;
  add bt l mode NoGroup ("v2f", Floats data) ("c4B", times (as_int fill_color) l) ;;
  if Rlt_dec 0 radius then
    n <- len verts ;;
    for_ (range 0 n) (fun i _ =>
      a <- getitem verts i ;;
      n <- len verts ;;
      b <- getitem verts ((i + 1) mod n) ;;
      match a, b with
      | IVec a, IVec b => draw_fat_segment self a b radius outline_color outline_color
      | _, _ => Raise AttributeError
      end) tt
  else Ret tt.

Definition draw_dot (self : loc) (size : R) (pos : Vec2d) (color : SpaceDebugColor) : dr unit :=
  bt <- batch self ;;
  add bt 1 GL_POINTS (_GrPointSize size) ("v2f", Point pos) ("c4B", times (as_int color) 1).

End Draw.

(** *** Running a program

    The store holds the adapter (its [new_batch] flag and its [batch], once
    it has one), batches (the primitives added so far) and lists; [next]
    is the first location not yet in use. *)
Inductive object : Type :=
| DrawOptions (new_batch : bool) (batch : option loc)
| Batch (prims : list primitive)
| List_ (items : list item).

Record store : Type := Store {
  heap : loc -> option object;
  next : loc
}.

Definition update (h : loc -> option object) (l : loc) (o : object) :
  loc -> option object :=
  fun l' => if Nat.eqb l' l then Some o else h l'.

Fixpoint run {A : Type} (p : dr A) (st : store) : outcome A * store :=
  match p with
  | Ret a => (Ok a, st)
  | Raise e => (Err e, st)
  | GetBatch self k =>
      match heap st self with
      | Some (DrawOptions _ (Some b)) => run (k b) st
      | _ => (Err AttributeError, st)
      end
  | NewList its k =>
      run (k (next st)) (Store (update (heap st) (next st) (List_ its)) (S (next st)))
  | Extend l its k =>
      match heap st l with
      | Some (List_ old) => run k (Store (update (heap st) l (List_ (old ++ its))) (next st))
      | _ => (Err TypeError, st)
      end
  | Append l it k =>
      match heap st l with
      | Some (List_ old) => run k (Store (update (heap st) l (List_ (old ++ [it]))) (next st))
      | _ => (Err AttributeError, st)
      end
  | Items l k =>
      match heap st l with
      | Some (List_ its) => run (k its) st
      | _ => (Err TypeError, st)
      end
  | BatchAdd b p k =>
      match heap st b with
      | Some (Batch prims) => run k (Store (update (heap st) b (Batch (prims ++ [p]))) (next st))
      | _ => (Err AttributeError, st)
      end
  end.

End draw_options.

(** * Properties: what the theorems are stated with *)

Module Mat22_props.
Import Mat22.
Open Scope R_scope.

(** [Mat22(1, 0, 1, 1)], of determinant 1. *)
Definition m0 : Mat22 := mk 1 0 1 1.

(** The errors an operation may raise: a [TypeError] from any of them, and
    three more, each from a few operations. *)
Definition permitted (o : op) (e : exn) : Prop :=
  e = TypeError
  \/ (e = IndexError /\ o = getitem_)
  \/ (e = ZeroDivisionError /\ (o = inverse_ \/ o = truediv_ \/ o = eigenvectors_))
  \/ (e = ValueError /\ (o = as_mat2_ \/ o = interpolate_to_ \/ o = transform_vector_)).

(** An outcome that, if it is an exception, is one of those [P] allows. *)
Definition raises_only {A} (P : exn -> Prop) (r : outcome A) : Prop :=
  match r with
  | Err e => P e
  | _ => True
  end.

Definition never : exn -> Prop := fun _ => False.
Definition only (e0 : exn) : exn -> Prop := fun e => e = e0.
Definition unpacking : exn -> Prop := fun e => e = TypeError \/ e = ValueError.

Definition dividing : exn -> Prop := fun e => e = TypeError \/ e = ZeroDivisionError.

(** What a call on objects returns is [call] at the values of its
    operands. *)
Definition at_values (cos sin : R -> R) (o : op) (rs : outcome pyval)
    (ra : outcome (list pyval)) : outcome pyval :=
  match rs, ra with
  | Ok (PMat m), Ok vals => call cos sin o m vals
  | Err e, _ => Err e
  | _, Err e => Err e
  | _, _ => Outside
  end.

(** The same for [copy]. *)
Definition copy_at_values (rs : outcome pyval) (rk : outcome kwargs) : outcome pyval :=
  match rs, rk with
  | Ok (PMat m), Ok kw => mat (copy m kw)
  | Err e, _ => Err e
  | _, Err e => Err e
  | _, _ => Outside
  end.

(** Two stores that hold the same two operands at different places. *)
Definition st1 : store :=
  Store (fun l => match l with
                  | 0 => Some (Value (PMat m0))
                  | 1 => Some (Value (PNum 2))
                  | _ => None
                  end%nat) 2%nat.

Definition st2 : store :=
  Store (fun l => match l with
                  | 3 => Some (Value (PMat m0))
                  | 0 => Some (Value (PNum 2))
                  | 1 => Some (Value PNone)
                  | _ => None
                  end%nat) 4%nat.

End Mat22_props.

Module constraint_props.
Import constraint.
Open Scope prog_scope.

(** *** The shape of the accessors *)

(** Reading forwards to the foreign getter [g]; writing to the setter [s]. *)
Definition get_forwards (get : value -> py value) (g : string) : Prop :=
  forall self, get self = GetAttr self "_constraint" (fun h => Foreign g [h] Ret).

Definition set_forwards (set : value -> value -> py value) (s : string) : Prop :=
  forall self v,
    set self v = GetAttr self "_constraint" (fun h => Foreign s [h; v] (fun _ => Ret VNone)).

(** Reading and writing a field of the struct behind [self._dsc]. *)
Definition get_field (get : value -> py value) (field : string) : Prop :=
  forall self, get self = GetAttr self "_dsc" (fun s => FieldGet s field Ret).

Definition set_field (set : value -> value -> py value) (field : string) : Prop :=
  forall self v, set self v = GetAttr self "_dsc" (fun s => FieldSet s field v (Ret VNone)).

(** Reading an attribute the instance stores. *)
Definition get_stored (get : value -> py value) (name : string) : Prop :=
  forall self, get self = GetAttr self name Ret.

Inductive shape : Type :=
| Forwarding (g : string) (s : option string)
| StructField (field : string)
| Stored (attr : string).

Definition has_shape (p : property) (sh : shape) : Prop :=
  match sh with
  | Forwarding g s =>
      (exists get, fget p = Some get /\ get_forwards get g) /\
      match s with
      | Some s => exists set, fset p = Some set /\ set_forwards set s
      | None => fset p = None
      end
  | StructField field =>
      (exists get, fget p = Some get /\ get_field get field) /\
      (exists set, fset p = Some set /\ set_field set field)
  | Stored attr =>
      (exists get, fget p = Some get /\ get_stored get attr) /\ fset p = None
  end.

Definition is_in (name : string) (l : list string) : bool :=
  existsb (String.eqb name) l.

Definition struct_backed (c : cls) (name : string) : bool :=
  match c with
  | GearJoint_ => is_in name ["phase"; "ratio"]
  | SimpleMotor_ => is_in name ["rate"]
  | _ => false
  end.

(** The class whose body defines the property [name] that an instance of
    [c] exposes. *)
Definition owner (c : cls) (name : string) : cls :=
  match find name (properties c) with
  | Some _ => c
  | None => Constraint_
  end.

(** The names of a foreign getter and setter that go together. *)
Definition getter_name (c : cls) (x : string) : string :=
  "cp" ++ class_name c ++ "Get" ++ x.
Definition setter_name (c : cls) (x : string) : string :=
  "cp" ++ class_name c ++ "Set" ++ x.

Definition shape_of (c : cls) (name x : string) : shape :=
  if is_in name ["a"; "b"] then Stored ("_" ++ name)
  else if struct_backed c name then StructField name
  else Forwarding (getter_name (owner c name) x)
         (if String.eqb name "impulse" then None
          else Some (setter_name (owner c name) x)).

(** The claim of C1 and C5 as stated, for one property: a getter and a
    setter, each one foreign call on the handle. *)
Definition forwards_both (p : property) : Prop :=
  exists get set g s, fget p = Some get /\ fset p = Some set /\
    get_forwards get g /\ set_forwards set s.

(** *** Joint kinds and classes *)

Definition glossary_kinds : list string :=
  ["pin"; "slide"; "pivot"; "groove"; "spring"; "motor"; "gear"; "ratchet"].

Definition upper (ch : Ascii.ascii) : Ascii.ascii :=
  let n := Ascii.nat_of_ascii ch in
  if ((97 <=? n) && (n <=? 122))%nat then Ascii.ascii_of_nat (n - 32) else ch.

Definition capitalize (s : string) : string :=
  match s with
  | EmptyString => EmptyString
  | String ch s => String (upper ch) s
  end.

Fixpoint contains (sub s : string) : bool :=
  String.prefix sub s ||
  match s with
  | EmptyString => false
  | String _ s => contains sub s
  end.

(** A class is of a kind when its name has the kind's name in it. *)
Definition of_kind (kind : string) (c : cls) : bool :=
  contains (capitalize kind) (class_name c).

Definition subclasses : list cls := filter (fun c => match base c with Some _ => true | None => false end) classes.

(** The start of a subclass constructor: the native bodies are read, the
    foreign constructor [f] is called, the handle is stored. *)
Definition construct (f : string) (a b : value) (extra : list value)
    (self : value) (rest : py value) : py value :=
  GetAttr a "_body" (fun ba =>
  GetAttr b "_body" (fun bb =>
  Foreign f (ba :: bb :: extra) (fun h =>
  SetAttr self "_constraint" h rest))).

Definition constructor_name (c : cls) : string := "cp" ++ class_name c ++ "New".

Definition constructor_of (c : cls) (f : string) : bool :=
  String.eqb f (constructor_name c) ||
  match c with
  | PivotJoint_ => String.eqb f (constructor_name c ++ "2")
  | _ => false
  end.

(** What reading and writing the property [name] of an instance of [c]
    come to, by the shape of the property. *)
Definition expected_read (c : cls) (name x : string) (self : value) : py value :=
  match shape_of c name x with
  | Forwarding g _ => GetAttr self "_constraint" (fun h => Foreign g [h] Ret)
  | StructField field => GetAttr self "_dsc" (fun s => FieldGet s field Ret)
  | Stored attr => GetAttr self attr Ret
  end.

Definition expected_write (c : cls) (name x : string) (self v : value) : py value :=
  match shape_of c name x with
  | Forwarding _ (Some s) =>
      GetAttr self "_constraint" (fun h => Foreign s [h; v] (fun _ => Ret VNone))
  | Forwarding _ None => Raise AttributeError
  | StructField field => GetAttr self "_dsc" (fun s => FieldSet s field v (Ret VNone))
  | Stored _ => Raise AttributeError
  end.

(** *** Foreign calls that neither create nor free a constraint *)

Definition constructor_names : list string :=
  (map constructor_name subclasses ++ ["cpPivotJointNew2"])%list.

Definition free_name : string := "cpConstraintFree".

Definition plain (f : string) : bool :=
  negb (is_in f constructor_names) && negb (String.eqb f free_name).

(** A program that calls no constructor, does not free, and does not
    assign to [_constraint]. *)
Inductive benign {A : Type} : py A -> Prop :=
| benign_Ret a : benign (Ret a)
| benign_Raise e : benign (Raise e)
| benign_GetAttr o name k :
    (forall v, benign (k v)) -> benign (GetAttr o name k)
| benign_SetAttr o name v k :
    String.eqb "_constraint" name = false -> benign k -> benign (SetAttr o name v k)
| benign_Foreign f args k :
    plain f = true -> (forall v, benign (k v)) -> benign (Foreign f args k)
| benign_CpIsNotNone k :
    (forall v, benign (k v)) -> benign (CpIsNotNone k)
| benign_Contents p k :
    (forall v, benign (k v)) -> benign (Contents p k)
| benign_Cast p ty k :
    (forall v, benign (k v)) -> benign (Cast p ty k)
| benign_FieldGet s field k :
    (forall v, benign (k v)) -> benign (FieldGet s field k)
| benign_FieldSet s field v k :
    benign k -> benign (FieldSet s field v k)
| benign_SetAdd s v k :
    benign k -> benign (SetAdd s v k)
| benign_Method o name args k :
    (forall v, benign (k v)) -> benign (Method o name args k).

Definition plain_event (ev : event) : Prop :=
  match ev with
  | Called f _ _ => plain f = true
  end.

Definition is_shutdown (s : step) : bool :=
  match s with
  | Shutdown => true
  | Access _ => false
  end.

(** A step that assigns to the attribute [_constraint] from outside. *)
Definition overwrites_handle (s : step) : Prop :=
  exists v, s = Access (Write "_constraint" v).

Definition returned {A : Type} (r : outcome A) : bool :=
  match r with
  | Ok _ => true
  | _ => false
  end.

Section Relations.
Variable native : Type.

(** [st'] comes after [st] by plain foreign calls, with the handle stored
    in the instance at [l] as it was. *)
Definition follows (l : loc) (st st' : state native) : Prop :=
  (exists ext, log native st' = (log native st ++ ext)%list /\ Forall plain_event ext) /\
  (forall attrs, heap native st l = Some (Instance attrs) ->
     exists attrs', heap native st' l = Some (Instance attrs') /\
       attr "_constraint" attrs' = attr "_constraint" attrs).

(** The same, with [cp] bound or not as it was. *)
Definition extends (l : loc) (st st' : state native) : Prop :=
  cp_bound native st' = cp_bound native st /\ follows l st st'.

End Relations.

(** A stand-in for the compiled library, to run lives on: every foreign
    call returns the pointer 7, ctypes hands its argument back, a struct
    field reads as [None], [Body.activate] does nothing. *)
Module stub.
Definition native : Type := unit.
Definition foreign (f : string) (args : list value) (w : native) : value * native :=
  (VPtr 7, w).
Definition contents (p : value) (w : native) : outcome value := Ok p.
Definition cast (p : value) (ty : string) : outcome value := Ok p.
Definition field_get (s : value) (field : string) (w : native) : outcome value := Ok VNone.
Definition field_set (s : value) (field : string) (v : value) (w : native) : outcome native :=
  Ok w.
Definition method (o : value) (name : string) (args : list value) (w : native) :
  outcome value * native := (Ok VNone, w).

(** Two bodies at 1 and 2, with their constraint sets at 3 and 4, and the
    new instance at 0. *)
Definition heap0 (l : loc) : option object :=
  match l with
  | 0 => Some (Instance [])
  | 1 => Some (Instance [("_body", VPtr 1); ("_constraints", VRef 3)])
  | 2 => Some (Instance [("_body", VPtr 2); ("_constraints", VRef 4)])
  | 3 => Some (PySet [])
  | 4 => Some (PySet [])
  | _ => None
  end%nat.

Definition st0 : state native := State native heap0 tt true [].

Definition life := life native foreign contents cast field_get field_set method.
Definition run {A : Type} := @run native foreign contents cast field_get field_set method A.
End stub.

End constraint_props.

Module draw_options_props.
Import draw_options.
Open Scope draw_scope.
Open Scope nat_scope.

(** The calls of the [draw_*] methods. *)
Inductive draw_call (SpaceDebugColor : Type) : Type :=
| Circle (pos : Vec2d) (angle radius : R) (outline_color fill_color : SpaceDebugColor)
| Segment (a b : Vec2d) (color : SpaceDebugColor)
| FatSegment (a b : Vec2d) (radius : R) (outline_color fill_color : SpaceDebugColor)
| Polygon (verts : loc) (radius : R) (outline_color fill_color : SpaceDebugColor)
| Dot (size : R) (pos : Vec2d) (color : SpaceDebugColor).
Arguments Circle {SpaceDebugColor}.
Arguments Segment {SpaceDebugColor}.
Arguments FatSegment {SpaceDebugColor}.
Arguments Polygon {SpaceDebugColor}.
Arguments Dot {SpaceDebugColor}.

Section Draw.
Variable atan2 : R -> R -> R.
Variable vec_add vec_sub : Vec2d -> Vec2d -> Vec2d.
Variable rotated : Vec2d -> R -> Vec2d.
Variable SpaceDebugColor : Type.
Variable as_int : SpaceDebugColor -> list Z.

Definition method (self : loc) (call : draw_call SpaceDebugColor) : dr unit :=
  match call with
  | Circle pos angle radius outline_color fill_color =>
      draw_circle vec_add rotated SpaceDebugColor as_int
        self pos angle radius outline_color fill_color
  | Segment a b color => draw_segment SpaceDebugColor as_int self a b color
  | FatSegment a b radius outline_color fill_color =>
      draw_fat_segment atan2 vec_add vec_sub rotated SpaceDebugColor as_int
        self a b radius outline_color fill_color
  | Polygon verts radius outline_color fill_color =>
      draw_polygon atan2 vec_add vec_sub rotated SpaceDebugColor as_int
        self verts radius outline_color fill_color
  | Dot size pos color => draw_dot SpaceDebugColor as_int self size pos color
  end.
End Draw.

(** A program that, run from a store whose first free location is at least
    [n0], writes only to lists it has created itself and adds only to the
    batch [b] it reads from [self]; [Q] holds of what it returns. *)
Inductive safe (n0 self b : loc) {A : Type} (Q : A -> Prop) : dr A -> Prop :=
| safe_Ret a : Q a -> safe n0 self b Q (Ret a)
| safe_Raise e : safe n0 self b Q (Raise e)
| safe_GetBatch k : safe n0 self b Q (k b) -> safe n0 self b Q (GetBatch self k)
| safe_NewList its k :
    (forall l, n0 <= l -> safe n0 self b Q (k l)) -> safe n0 self b Q (NewList its k)
| safe_Extend l its k :
    n0 <= l -> safe n0 self b Q k -> safe n0 self b Q (Extend l its k)
| safe_Append l it k :
    n0 <= l -> safe n0 self b Q k -> safe n0 self b Q (Append l it k)
| safe_Items l k :
    (forall its, safe n0 self b Q (k its)) -> safe n0 self b Q (Items l k)
| safe_BatchAdd p k :
    safe n0 self b Q k -> safe n0 self b Q (BatchAdd b p k).

(** [st] as reached from [st0]: every object that existed in [st0] is as
    it was, but for the batch at [b], which has its old primitives and
    then some more. *)
Definition framed (b : loc) (prims0 : list primitive) (st0 st : store) : Prop :=
  next st0 <= next st /\
  (forall l, l < next st0 -> l <> b -> heap st l = heap st0 l) /\
  (exists added, heap st b = Some (Batch (prims0 ++ added))).

(** A store to draw on: the adapter at 0, its batch at 1, a triangle at 2. *)
Module sample.
Definition heap0 (l : loc) : option object :=
  match l with
  | 0 => Some (DrawOptions false (Some 1))
  | 1 => Some (Batch [])
  | 2 => Some (List_ [IVec (Vec2d_ 0 0); IVec (Vec2d_ 4 0); IVec (Vec2d_ 0 3)])
  | _ => None
  end%nat.
Definition st0 : store := Store heap0 3.
Definition vec_add (u v : Vec2d) : Vec2d :=
  Vec2d_ (Mat22.x u + Mat22.x v)%R (Mat22.y u + Mat22.y v)%R.
Definition vec_sub (u v : Vec2d) : Vec2d :=
  Vec2d_ (Mat22.x u - Mat22.x v)%R (Mat22.y u - Mat22.y v)%R.
Definition rotated (v : Vec2d) (angle : R) : Vec2d :=
  Vec2d_ (Mat22.x v * cos angle - Mat22.y v * sin angle)%R
         (Mat22.x v * sin angle + Mat22.y v * cos angle)%R.
Definition atan2 (y x : R) : R := 0%R.
Definition as_int (color : Z * Z * Z * Z) : list Z :=
  let '(r, g, b, a) := color in [r; g; b; a].
Definition method := method atan2 vec_add vec_sub rotated (Z * Z * Z * Z)%type as_int.
End sample.

End draw_options_props.

Module Mat22_more_props.
Import Mat22 Mat22_props.
Open Scope R_scope.

(** The field [k] of [copy with keywords [kw]]: the keyword argument if there is one,
    the field of [self] otherwise. *)
Definition picked (k : string) (default : R) (kw : kwargs) : pyval :=
  match get k kw with
  | Some v => v
  | None => PNum default
  end.

(** Keyword arguments that name fields only, each with a number. *)
Definition field_numbers (kw : kwargs) : Prop :=
  Forall (fun kv => field_name (fst kv) = true /\ exists r, snd kv = PNum r) kw.

(** What a generator yields, as a tuple: [tuple(g)]. *)
Definition tuple_of (g : pyval) : pyval :=
  match g with
  | PGen l => PTuple l
  | v => v
  end.

(** What a generator yields, in order. *)
Definition yielded (g : pyval) : list pyval :=
  match g with
  | PGen l => l
  | _ => []
  end.

End Mat22_more_props.

Module constraint_more_props.
Import constraint constraint_props.
Open Scope prog_scope.

(** A program that assigns no attribute and adds to no set. *)
Inductive stateless {A : Type} : py A -> Prop :=
| stateless_Ret a : stateless (Ret a)
| stateless_Raise e : stateless (Raise e)
| stateless_GetAttr o name k :
    (forall v, stateless (k v)) -> stateless (GetAttr o name k)
| stateless_Foreign f args k :
    (forall v, stateless (k v)) -> stateless (Foreign f args k)
| stateless_CpIsNotNone k :
    (forall v, stateless (k v)) -> stateless (CpIsNotNone k)
| stateless_Contents p k :
    (forall v, stateless (k v)) -> stateless (Contents p k)
| stateless_Cast p ty k :
    (forall v, stateless (k v)) -> stateless (Cast p ty k)
| stateless_FieldGet s field k :
    (forall v, stateless (k v)) -> stateless (FieldGet s field k)
| stateless_FieldSet s field v k :
    stateless k -> stateless (FieldSet s field v k)
| stateless_Method o name args k :
    (forall v, stateless (k v)) -> stateless (Method o name args k).

Section Members.
Variable native : Type.

(** [self in body._constraints]. *)
Definition member (self body : value) (st : state native) : Prop :=
  exists lb attrs ls elems,
    body = VRef lb /\
    heap native st lb = Some (Instance attrs) /\
    attr "_constraints" attrs = Some (VRef ls) /\
    heap native st ls = Some (PySet elems) /\
    existsb (same self) elems = true.

End Members.

End constraint_more_props.

Module draw_options_more_props.
Import draw_options draw_options_props.
Open Scope draw_scope.
Open Scope nat_scope.

(** An item that is a vector, a number. *)
Definition is_vec (it : item) : Prop :=
  match it with
  | IVec _ => True
  | INum _ => False
  end.

(** [st] is [st0] but for the object at [l]. *)
Definition same_but (l : loc) (st0 st : store) : Prop :=
  next st = next st0 /\ forall l', l' <> l -> heap st l' = heap st0 l'.

(** The two primitives [draw_circle] adds: the disc as a triangle strip of
    [count] vertices, and the radius at [angle] as a line. *)
Definition disc (SpaceDebugColor : Type) (as_int : SpaceDebugColor -> list Z)
    (count : Z) (data : list item) (fill_color : SpaceDebugColor) : primitive :=
  Primitive count GL_TRIANGLE_STRIP (OrderedGroup 0) ("v2f", Floats data)
    ("c4B", times (as_int fill_color) count).

Definition radius_line (vec_add : Vec2d -> Vec2d -> Vec2d) (rotated : Vec2d -> R -> Vec2d)
    (SpaceDebugColor : Type) (as_int : SpaceDebugColor -> list Z)
    (pos : Vec2d) (angle radius : R) (outline_color : SpaceDebugColor) : primitive :=
  let cc := vec_add pos (rotated (Vec2d_ radius 0) angle) in
  Primitive 2 GL_LINES (OrderedGroup 1)
    ("v2f", Floats [INum (Mat22.x pos); INum (Mat22.y pos);
                    INum (Mat22.x cc); INum (Mat22.y cc)])
    ("c4B", times (as_int outline_color) 2).

(** The primitive [draw_fat_segment] adds first: two triangles. *)
Definition quad (SpaceDebugColor : Type) (as_int : SpaceDebugColor -> list Z)
    (data : list item) (fill_color : SpaceDebugColor) : primitive :=
  Primitive 6 GL_TRIANGLES NoGroup ("v2f", Floats data) ("c4B", times (as_int fill_color) 6).

(** The primitive [draw_polygon] adds first: the polygon as a triangle strip. *)
Definition strip (SpaceDebugColor : Type) (as_int : SpaceDebugColor -> list Z)
    (count : Z) (data : list item) (fill_color : SpaceDebugColor) : primitive :=
  Primitive count GL_TRIANGLE_STRIP NoGroup ("v2f", Floats data)
    ("c4B", times (as_int fill_color) count).

(** The program [p], run from [st], returns: a value and a store of which
    [Q] holds. *)
Definition returns {A : Type} (p : dr A) (st : store) (Q : A -> store -> Prop) : Prop :=
  exists a st', run p st = (Ok a, st') /\ Q a st'.

(** A program that does not return before it has read [self.batch]. *)
Inductive reads_batch (self : loc) {A : Type} : dr A -> Prop :=
| rb_Raise e : reads_batch self (Raise e)
| rb_GetBatch k : reads_batch self (GetBatch self k)
| rb_GetOther other k :
    (forall b, reads_batch self (k b)) -> reads_batch self (GetBatch other k)
| rb_NewList its k :
    (forall l, reads_batch self (k l)) -> reads_batch self (NewList its k)
| rb_Extend l its k : reads_batch self k -> reads_batch self (Extend l its k)
| rb_Append l it k : reads_batch self k -> reads_batch self (Append l it k)
| rb_Items l k : (forall its, reads_batch self (k its)) -> reads_batch self (Items l k)
| rb_BatchAdd b p k : reads_batch self k -> reads_batch self (BatchAdd b p k).

(** The object at [self], if any, is no adapter with a batch. *)
Definition no_batch (self : loc) (st : store) : Prop :=
  forall nb b, heap st self <> Some (DrawOptions nb (Some b)).

(** Stores for the examples: an adapter that has no batch yet, and an
    empty list of vertices beside an adapter with a batch. *)
Module sample_more.
Definition before_enter : store :=
  Store (fun l => match l with
                  | 0 => Some (DrawOptions true None)
                  | _ => None
                  end) 1.
Definition no_vertices : store :=
  Store (fun l => match l with
                  | 0 => Some (DrawOptions false (Some 1))
                  | 1 => Some (Batch [])
                  | 2 => Some (List_ [])
                  | _ => None
                  end) 3.
End sample_more.

End draw_options_more_props.

(** * Theorems *)

Module Mat22_facts.
Import Mat22 Mat22_props.
Open Scope R_scope.

(** *** The inverse and the product *)

Lemma inverse_ok (m : Mat22) :
  determinant m <> 0 ->
  inverse m = Ok (mk (d m / determinant m) (- b m / determinant m)
                     (- c m / determinant m) (a m / determinant m)).
Proof.
  intros H. unfold inverse. destruct (Req_dec_T (determinant m) 0); [contradiction | reflexivity].
Qed.

(** What [m.inverse() * m] is, for any [m] that has an inverse: the
    identity but for its third entry. *)
Lemma inverse_mul_entries (m i : Mat22) :
  determinant m <> 0 -> inverse m = Ok i ->
  _mat_mul i m = mk 1 0 (- (c m * (a m + b m)) / determinant m) 1.
Proof.
  intros H Hi. rewrite (inverse_ok m H) in Hi. injection Hi as <-.
  destruct m as [a b c d]; unfold determinant in *; simpl in *.
  f_equal; field; exact H.
Qed.

(** C4: the code does not do what the docstring of [inverse] promises.  At
    [Mat22(1, 0, 1, 1)], of determinant 1, [m.inverse() * m] is
    [Mat22(1, 0, -1, 1)] and not the identity; and [Mat22.identity() * m] is
    not [m], so the identity is not a left identity of [*]. *)
Theorem inverse_times_matrix_at_m0 :
  determinant m0 = 1 /\
  (i <- inverse m0 ;; Ok (__mul__ i (PMat m0)))%py = Ok (PMat (mk 1 0 (-1) 1)) /\
  mk 1 0 (-1) 1 <> identity /\
  __mul__ identity (PMat m0) = PMat identity /\
  identity <> m0.
Proof.
  split; [unfold determinant, m0; simpl; ring |].
  split.
  { rewrite inverse_ok by (unfold determinant, m0; simpl; lra).
    unfold determinant, m0; simpl. do 2 f_equal. f_equal; field. }
  split; [intros H; injection H; lra |].
  split; [unfold identity, scale, m0; simpl; do 2 f_equal; ring |].
  intros H; injection H; lra.
Qed.

(** With the third entry of the product computed as [c * x + d * z], the
    promise of the docstring would hold; the source has [c * x + b * z]. *)
Lemma inverse_mul_with_d (m i : Mat22) :
  determinant m <> 0 -> inverse m = Ok i ->
  mk (a i * a m + b i * c m) (a i * b m + b i * d m)
     (c i * a m + d i * c m) (c i * b m + d i * d m) = identity.
Proof.
  intros H Hi. rewrite (inverse_ok m H) in Hi. injection Hi as <-.
  destruct m as [a b c d]; unfold determinant, identity, scale in *; simpl in *.
  f_equal; field; exact H.
Qed.

Lemma mul_identity_right (m : Mat22) : _mat_mul m identity = m.
Proof. destruct m; unfold identity, scale; simpl; f_equal; ring. Qed.

(** C10: [m.interpolate_to(other, 0.0)] is [m] and
    [m.interpolate_to(other, 1.0)] is [other], for matrices [m] and
    [other]. *)
Theorem interpolate_to_endpoints (m other : Mat22) :
  interpolate_to m (PMat other) (PNum 0) = Ok (PMat m) /\
  interpolate_to m (PMat other) (PNum 1) = Ok (PMat other).
Proof.
  destruct m as [a b c d], other as [x y z w]; split; cbn; do 2 f_equal; f_equal; ring.
Qed.

(** *** The errors of the operations *)

Lemma raises_only_bind {A B} (P : exn -> Prop) (r : outcome A) (f : A -> outcome B) :
  raises_only P r -> (forall v, r = Ok v -> raises_only P (f v)) -> raises_only P (bind r f).
Proof.
  destruct r; simpl; auto.
Qed.

Lemma raises_only_weaken {A} (P Q : exn -> Prop) (r : outcome A) :
  (forall e, P e -> Q e) -> raises_only P r -> raises_only Q r.
Proof. destruct r; simpl; auto. Qed.

Lemma math_sqrt_nonneg v : 0 <= v -> math_sqrt v = Ok (sqrt v).
Proof. intros H. unfold math_sqrt. destruct (Rle_dec 0 v); [reflexivity | contradiction]. Qed.

Lemma eigenvalues_returns self : exists l1 l2, eigenvalues self = Ok (l1, l2).
Proof.
  destruct self as [a b c d]. unfold eigenvalues.
  destruct (Rle_dec 0 _) as [H | H].
  - rewrite (math_sqrt_nonneg _ H). simpl. eauto.
  - rewrite math_sqrt_nonneg by lra. simpl. eauto.
Qed.

Lemma real_div_num_raises r z : raises_only (only ZeroDivisionError) (real_div_num r z).
Proof.
  destruct z; simpl; repeat (destruct (Req_dec_T _ _); simpl); reflexivity || exact I.
Qed.

Lemma eigenvectors_raises self : raises_only (only ZeroDivisionError) (eigenvectors self).
Proof.
  unfold eigenvectors. destruct (eigenvalues_returns self) as (l1 & l2 & ->). simpl.
  apply raises_only_bind; [apply real_div_num_raises | intros _ _].
  apply raises_only_bind; [apply real_div_num_raises | intros _ _]. exact I.
Qed.

Lemma inverse_raises self : raises_only (only ZeroDivisionError) (inverse self).
Proof. unfold inverse. destruct (Req_dec_T _ _); simpl; reflexivity || exact I. Qed.

Lemma eq_int_returns v n : raises_only never (eq_int v n).
Proof. destruct v; simpl; exact I. Qed.

Lemma eq_pair_returns v n m : raises_only never (eq_pair v n m).
Proof.
  destruct v as [| | | | | | |l| |]; simpl; try exact I.
  destruct l as [|u l]; simpl; [exact I|].
  apply raises_only_bind; [apply eq_int_returns | intros [] _; [|exact I]].
  destruct l as [|w l]; simpl; [exact I|].
  apply raises_only_bind; [apply eq_int_returns | intros [] _; exact I].
Qed.

Lemma getitem_raises self idx : raises_only (only IndexError) (__getitem__ self idx).
Proof.
  unfold __getitem__.
  repeat (apply raises_only_bind;
          [ eapply raises_only_weaken; [| first [apply eq_int_returns | apply eq_pair_returns]];
            intros ? []
          | intros [] _; [exact I|] ]).
  reflexivity.
Qed.

Lemma unpack2_raises v : raises_only unpacking (unpack2 v).
Proof.
  destruct v as [| |s| | | | |l|l|l]; simpl;
    try (left; reflexivity); try (right; reflexivity); try exact I.
  - destruct s as [|c1 [|c2 [|c3 s]]]; simpl; try exact I; right; reflexivity.
  - destruct l as [|u [|w [|z l]]]; simpl; try exact I; right; reflexivity.
  - destruct l as [|u [|w [|z l]]]; simpl; try exact I; right; reflexivity.
  - destruct l as [|u [|w [|z l]]]; simpl; try exact I; right; reflexivity.
Qed.

Lemma Mat22_new_returns a b c d : raises_only never (Mat22_new a b c d).
Proof. destruct a, b, c, d; simpl; exact I. Qed.

Lemma as_mat2_raises obj : raises_only unpacking (as_mat2 obj).
Proof.
  assert (H : raises_only unpacking
                ('(p, q) <- unpack2 obj ;; '(a, b) <- unpack2 p ;;
                 '(c, d) <- unpack2 q ;; Mat22_new a b c d)%py).
  { apply raises_only_bind; [apply unpack2_raises | intros [p q] _].
    apply raises_only_bind; [apply unpack2_raises | intros [a b] _].
    apply raises_only_bind; [apply unpack2_raises | intros [c d] _].
    eapply raises_only_weaken; [| apply Mat22_new_returns]. intros ? []. }
  destruct obj; try exact H; simpl; try exact I; left; reflexivity.
Qed.

Lemma reflected_raises other : raises_only (only TypeError) (reflected other).
Proof. destruct other; simpl; reflexivity || exact I. Qed.

Lemma op_add_raises self other : raises_only (only TypeError) (op_add self other).
Proof. destruct other; simpl; reflexivity || exact I. Qed.

Lemma op_sub_raises self other : raises_only (only TypeError) (op_sub self other).
Proof. destruct other; simpl; reflexivity || exact I. Qed.

Lemma op_matmul_raises self other : raises_only (only TypeError) (op_matmul self other).
Proof. destruct other; simpl; reflexivity || exact I. Qed.

Lemma op_mul_raises self other : raises_only (only TypeError) (op_mul self other).
Proof. destruct other; simpl; reflexivity || exact I. Qed.

Lemma op_rmul_raises self other : raises_only (only TypeError) (op_rmul self other).
Proof. destruct other; simpl; reflexivity || exact I. Qed.

Lemma truediv_raises self other : raises_only dividing (__truediv__ self other).
Proof.
  unfold __truediv__.
  apply raises_only_bind.
  - destruct other; try (left; reflexivity); try exact I; unfold one_over;
      (eapply raises_only_weaken; [| apply real_div_num_raises]);
      intros ? ->; right; reflexivity.
  - intros q _. apply raises_only_bind; [| intros; exact I].
    destruct q; simpl; [exact I | left; reflexivity].
Qed.

Lemma one_minus_raises ratio : raises_only (only TypeError) (one_minus ratio).
Proof. destruct ratio; simpl; reflexivity || exact I. Qed.

Lemma interpolate_to_raises self other ratio :
  raises_only unpacking (interpolate_to self other ratio).
Proof.
  assert (W : forall e, only TypeError e -> unpacking e) by (intros ? ->; left; reflexivity).
  unfold interpolate_to.
  apply raises_only_bind; [exact (raises_only_weaken _ _ _ W (one_minus_raises _)) | intros t _].
  apply raises_only_bind; [exact (raises_only_weaken _ _ _ W (op_mul_raises _ _)) | intros lhs _].
  apply raises_only_bind; [apply as_mat2_raises | intros m _].
  apply raises_only_bind; [exact (raises_only_weaken _ _ _ W (op_mul_raises _ _)) | intros rhs _].
  destruct lhs; try exact I.
  exact (raises_only_weaken _ _ _ W (op_add_raises _ _)).
Qed.

Lemma transform_vector_dyn_raises self vec :
  raises_only unpacking (transform_vector_dyn self vec).
Proof.
  unfold transform_vector_dyn.
  apply raises_only_bind; [apply unpack2_raises | intros [u w] _].
  destruct u, w; exact I.
Qed.

Lemma mat_raises P r : raises_only P r -> raises_only P (mat r).
Proof. destruct r; simpl; auto. Qed.

Section S.
Variables cos sin : R -> R.

Lemma call_raises (o : op) (self : Mat22) (args : list pyval) :
  raises_only (permitted o) (call cos sin o self args).
Proof.
  assert (Hty : forall e, only TypeError e -> permitted o e) by (intros ? ->; left; reflexivity).
  assert (Hno : forall e, never e -> permitted o e) by (intros ? []).
  assert (Hte : raises_only (permitted o) (Err TypeError : outcome pyval)) by (left; reflexivity).
  destruct o; destruct args as [|x1 [|x2 [|x3 [|x4 [|x5 args]]]]]; try exact Hte; try exact I;
    unfold call.
  all: try (apply mat_raises).
  all: try (eapply raises_only_weaken; [| first
      [ apply Mat22_new_returns | apply op_add_raises | apply op_sub_raises
      | apply op_mul_raises | apply op_rmul_raises | apply op_matmul_raises ] ];
      first [exact Hty | exact Hno]).
  all: try (destruct x1; exact I).
  all: try (eapply raises_only_weaken; [| first
      [ apply getitem_raises | apply inverse_raises | apply truediv_raises
      | apply interpolate_to_raises | apply transform_vector_dyn_raises
      | apply as_mat2_raises ] ];
      unfold permitted, only, dividing, unpacking; intros e He; tauto).
  - destruct (eigenvalues_returns self) as (l1 & l2 & ->). exact I.
  - apply raises_only_bind; [| intros [] _; exact I].
    eapply raises_only_weaken; [| apply eigenvectors_raises].
    unfold permitted, only; tauto.
Qed.
End S.

Lemma Mat22_kw_raises kw : raises_only (only TypeError) (Mat22_kw kw).
Proof.
  unfold Mat22_kw. destruct (forallb _ _); [| reflexivity].
  repeat (match goal with |- context [match ?g with _ => _ end] => destruct g end);
    try reflexivity.
  eapply raises_only_weaken; [| apply Mat22_new_returns]. intros ? [].
Qed.



(** *** Calls on objects *)

Section Store.
Variables cos sin : R -> R.
Local Abbreviation call := (call cos sin).
Local Abbreviation invoke := (invoke cos sin).
Local Abbreviation at_values := (at_values cos sin).

Lemma load_alloc st o : heap (snd (alloc st o)) (fst (alloc st o)) = Some o.
Proof. cbn. unfold update. rewrite Nat.eqb_refl. reflexivity. Qed.

Lemma alloc_frame st o l : (l < next st)%nat -> heap (snd (alloc st o)) l = heap st l.
Proof.
  intros H. cbn. unfold update. destruct (Nat.eqb_spec l (next st)); [lia | reflexivity].
Qed.

Lemma load_never_raises st l e : load st l <> Err e.
Proof. unfold load. destruct (heap st l) as [[v | kw] |]; discriminate. Qed.

Lemma load_all_never_raises st ls e : load_all st ls <> Err e.
Proof.
  induction ls as [| l ls IH]; cbn; [discriminate |].
  destruct (load st l) eqn:E; cbn; try discriminate.
  - destruct (load_all st ls) eqn:E'; cbn; try discriminate. exact IH.
  - exfalso. exact (load_never_raises _ _ _ E).
Qed.

Lemma invoke_value o self args st :
  returned_value (invoke o self args st) = at_values o (load st self) (load_all st args).
Proof.
  unfold invoke, at_values, returned_value.
  destruct (load st self) as [v | e |] eqn:Es.
  2: { exfalso. exact (load_never_raises _ _ _ Es). }
  2: { destruct (load_all st args) as [vals | e |] eqn:Ea; reflexivity. }
  destruct (load_all st args) as [vals | e |] eqn:Ea.
  2: { exfalso. exact (load_all_never_raises _ _ _ Ea). }
  2: { destruct v; reflexivity. }
  destruct v as [| | | | | | m | | |]; try reflexivity.
  assert (G : returned_value
                match call o m vals with
                | Ok v => let '(l, st0) := alloc st (Value v) in (Ok l, st0)
                | Err e => (Err e, st)
                | Outside => (Outside, st)
                end = call o m vals).
  { destruct (call o m vals) as [v | e |]; try reflexivity.
    unfold returned_value. cbn [alloc fst snd bind]. unfold load.
    cbn [heap]. unfold update. rewrite Nat.eqb_refl. reflexivity. }
  destruct o; try exact G.
  destruct vals as [| [| | | | | | m' | | |] [| ? ?]]; try exact G.
  destruct args as [| obj [| ? ?]]; try exact G.
  cbn [fst snd bind]. cbn in Ea.
  destruct (load st obj) as [w | |]; cbn in Ea; try discriminate Ea.
  injection Ea as ->. reflexivity.
Qed.

Lemma invoke_frame o self args st l :
  (l < next st)%nat -> heap (snd (invoke o self args st)) l = heap st l.
Proof.
  intros Hl. unfold invoke.
  destruct (load st self) as [[| | | | | | m | | |] | e |];
    destruct (load_all st args) as [vals | e' |]; try reflexivity.
  assert (G : heap (snd match call o m vals with
                        | Ok v => let '(l, st0) := alloc st (Value v) in (Ok l, st0)
                        | Err e => (Err e, st)
                        | Outside => (Outside, st)
                        end) l = heap st l).
  { destruct (call o m vals) as [v | e |]; try reflexivity.
    apply (alloc_frame st (Value v) l Hl). }
  destruct o; try exact G.
  destruct vals as [| [| | | | | | m' | | |] [| ? ?]]; try exact G.
  destruct args as [| obj [| ? ?]]; try exact G. reflexivity.
Qed.

Lemma load_kwargs_never_raises st kw e : load_kwargs st kw <> Err e.
Proof.
  induction kw as [| [k l] kw IH]; cbn; [discriminate |].
  destruct (load st l) eqn:E; cbn; try discriminate.
  - destruct (load_kwargs st kw) eqn:E'; cbn; try discriminate. exact IH.
  - exfalso. exact (load_never_raises _ _ _ E).
Qed.

Lemma dict_setdefault_next d k v st : next (dict_setdefault d k v st) = next st.
Proof. unfold dict_setdefault. destruct (heap st d) as [[? | ?] |]; reflexivity. Qed.

Lemma dict_setdefault_frame d k v st l :
  l <> d -> heap (dict_setdefault d k v st) l = heap st l.
Proof.
  intros H. unfold dict_setdefault. destruct (heap st d) as [[? | ?] |]; try reflexivity.
  cbn. unfold update. destruct (Nat.eqb_spec l d); [contradiction | reflexivity].
Qed.

Lemma dict_setdefault_dict d k v st kw :
  heap st d = Some (Dict kw) ->
  heap (dict_setdefault d k v st) d = Some (Dict (setdefault k v kw)).
Proof.
  intros H. unfold dict_setdefault. rewrite H. cbn. unfold update.
  rewrite Nat.eqb_refl. reflexivity.
Qed.

Lemma invoke_copy_frame self kw st l :
  (l < next st)%nat -> heap (snd (invoke_copy self kw st)) l = heap st l.
Proof.
  intros Hl. unfold invoke_copy.
  destruct (load st self) as [[| | | | | | m | | |] | e |];
    destruct (load_kwargs st kw) as [kw' | e' |]; try reflexivity.
  cbn [alloc].
  set (d0 := next st).
  set (st' := dict_setdefault d0 "d" _ (dict_setdefault d0 "c" _
                (dict_setdefault d0 "b" _ (dict_setdefault d0 "a" _ _)))).
  assert (Hfr : heap st' l = heap st l).
  { unfold st'. rewrite !dict_setdefault_frame by (unfold d0; lia).
    cbn. unfold update. destruct (Nat.eqb_spec l d0); [unfold d0 in *; lia | reflexivity]. }
  assert (Hnx : next st' = S (next st)).
  { unfold st'. rewrite !dict_setdefault_next. reflexivity. }
  destruct (heap st' d0) as [[? | kw''] |]; try exact Hfr.
  destruct (Mat22_kw kw'') as [r | e |]; try exact Hfr.
  rewrite <- Hfr. apply alloc_frame. lia.
Qed.

Lemma invoke_copy_value self kw st :
  returned_value (invoke_copy self kw st) =
    copy_at_values (load st self) (load_kwargs st kw).
Proof.
  unfold invoke_copy, copy_at_values, returned_value.
  destruct (load st self) as [v | e |] eqn:Es.
  2: { exfalso. exact (load_never_raises _ _ _ Es). }
  2: { destruct (load_kwargs st kw) as [kw' | e |] eqn:Ea; reflexivity. }
  destruct (load_kwargs st kw) as [kw' | e |] eqn:Ea.
  2: { exfalso. exact (load_kwargs_never_raises _ _ _ Ea). }
  2: { destruct v; reflexivity. }
  destruct v as [| | | | | | m | | |]; try reflexivity.
  cbn [alloc].
  set (d0 := next st).
  set (st0 := Store (update (heap st) d0 (Dict kw')) (S d0)).
  assert (H0 : heap st0 d0 = Some (Dict kw')).
  { cbn. unfold update. rewrite Nat.eqb_refl. reflexivity. }
  rewrite (dict_setdefault_dict d0 "d" _ _ _
             (dict_setdefault_dict d0 "c" _ _ _
                (dict_setdefault_dict d0 "b" _ _ _
                   (dict_setdefault_dict d0 "a" _ _ _ H0)))).
  unfold copy.
  destruct (Mat22_kw _) as [r | e |]; try reflexivity.
  cbn [fst snd bind mat]. unfold load. cbn [heap]. unfold update.
  rewrite Nat.eqb_refl. reflexivity.
Qed.


End Store.


End Mat22_facts.

Module constraint_facts.
Import constraint constraint_props.
Open Scope prog_scope.

Ltac each_property H :=
  cbn in H;
  repeat (destruct H as [H | H]; [injection H as <- <- |]); [.. | destruct H].

Ltac forwarding :=
  split; [eexists; split; [reflexivity | intros ?; reflexivity] |];
  first [ reflexivity | eexists; split; [reflexivity | intros ? ?; reflexivity] ].

Lemma exposed_shape (c : cls) (name : string) (p : property) :
  In (name, p) (exposed c) -> exists x, has_shape p (shape_of c name x).
Proof.
  intros H. destruct c; each_property H; cbn - [has_shape].
  all: first [ exists ""; forwarding | eexists; forwarding ].
Qed.

Lemma exposed_lookup (c : cls) (name : string) (p : property) :
  In (name, p) (exposed c) -> lookup c name = Some p.
Proof.
  intros H. destruct c; each_property H; reflexivity.
Qed.

(** C1, as amended: reading or writing a property an instance exposes is
    one foreign call on the handle, [cp<Class>Get<X>] for a read and
    [cp<Class>Set<X>] for a write, with the result and the value passed on
    as they are; except that [a] and [b] return the stored body and cannot
    be written, [impulse] cannot be written, and [phase] and [ratio] of
    [GearJoint] and [rate] of [SimpleMotor] read and write a field of the
    native struct without a foreign call. *)
Theorem property_access (c : cls) (name : string) (p : property) :
  In (name, p) (exposed c) ->
  exists x, forall self v,
    perform c self (Read name) = expected_read c name x self /\
    perform c self (Write name v) = expected_write c name x self v.
Proof.
  intros H. destruct (exposed_shape c name p H) as [x Hs]. exists x. intros self v.
  unfold perform, expected_read, expected_write.
  rewrite (exposed_lookup c name p H).
  destruct (shape_of c name x) as [g [s|] | field | attr_]; cbn in Hs.
  - destruct Hs as [(get & -> & Hg) (set & -> & Hset)]. split; [apply Hg | apply Hset].
  - destruct Hs as [(get & -> & Hg) ->]. split; [apply Hg | reflexivity].
  - destruct Hs as [(get & -> & Hg) (set & -> & Hset)]. split; [apply Hg | apply Hset].
  - destruct Hs as [(get & -> & Hg) ->]. split; [apply Hg | reflexivity].
Qed.

Lemma property_access_witness :
  In ("distance", property2 PinJoint._get_distance PinJoint._set_distance) (exposed PinJoint_) /\
  exists x, forall self v,
    perform PinJoint_ self (Read "distance") = expected_read PinJoint_ "distance" x self /\
    perform PinJoint_ self (Write "distance" v) = expected_write PinJoint_ "distance" x self v.
Proof.
  split; [simpl; auto |].
  apply (property_access PinJoint_ "distance"
           (property2 PinJoint._get_distance PinJoint._set_distance)).
  simpl; auto.
Defined.

(** C1 as stated fails on [GearJoint.phase]: it is exposed, and neither
    reading nor writing it is a foreign call. *)
Lemma gear_phase_is_a_struct_field :
  In ("phase", property2 GearJoint._get_phase GearJoint._set_phase) (exposed GearJoint_) /\
  ~ forwards_both (property2 GearJoint._get_phase GearJoint._set_phase) /\
  perform GearJoint_ (VRef 0%nat) (Read "phase") =
    GetAttr (VRef 0%nat) "_dsc" (fun s => FieldGet s "phase" Ret).
Proof.
  split; [simpl; auto |]. split; [| reflexivity].
  intros (get & set & g & s & Hg & Hs & Fg & Fs).
  injection Hg as <-. specialize (Fg VNone). discriminate Fg.
Qed.

(** C5, as amended: every exposed property has a getter; every one but
    [impulse], [a] and [b] has a setter too, and these three have none; the
    accessors forward to a foreign call, except those of [a] and [b] (the
    stored body) and those of the struct-backed properties of [GearJoint]
    and [SimpleMotor] (a field of the native struct). *)
Theorem properties_paired (c : cls) (name : string) (p : property) :
  In (name, p) (exposed c) ->
  (exists get, fget p = Some get /\
     if is_in name ["a"; "b"] then get_stored get ("_" ++ name)
     else if struct_backed c name then get_field get name
     else exists g, get_forwards get g) /\
  (if is_in name ["impulse"; "a"; "b"] then fset p = None
   else exists set, fset p = Some set /\
     if struct_backed c name then set_field set name
     else exists s, set_forwards set s).
Proof.
  intros H. destruct c; each_property H; cbn.
  all: split; [eexists; split; [reflexivity |] |].
  all: try (intros ?; reflexivity).
  all: try (eexists; intros ?; reflexivity).
  all: try reflexivity.
  all: eexists; split; [reflexivity |]; try (intros ? ?; reflexivity).
  all: eexists; intros ? ?; reflexivity.
Qed.

Lemma properties_paired_witness :
  In ("impulse", property1 Constraint._get_impulse) (exposed SlideJoint_) /\
  (exists g, get_forwards Constraint._get_impulse g) /\
  fset (property1 Constraint._get_impulse) = None.
Proof.
  split; [simpl; auto 10 |].
  destruct (properties_paired SlideJoint_ "impulse" (property1 Constraint._get_impulse))
    as [(get & Hget & Hg) Hs]; [simpl; auto 10 |].
  injection Hget as <-. split; [exact Hg | exact Hs].
Defined.

(** C5 as stated fails on [impulse]: it has no setter. *)
Lemma impulse_has_no_setter :
  In ("impulse", property1 Constraint._get_impulse) (exposed Constraint_) /\
  fset (property1 Constraint._get_impulse) = None /\
  ~ forwards_both (property1 Constraint._get_impulse).
Proof.
  split; [simpl; auto 10 |]. split; [reflexivity |].
  intros (get & set & g & s & _ & Hs & _). discriminate Hs.
Qed.

(** *** Constructors *)

Ltac benign_tac :=
  cbn; repeat (constructor; try reflexivity; intros).

Lemma set_bodies_benign self a b : benign (Constraint._set_bodies self a b).
Proof. benign_tac. Qed.

Ltac constructs :=
  first
    [ left; eexists; reflexivity
    | right; do 5 eexists; split; [reflexivity | split; [reflexivity | benign_tac]] ].

(** A subclass constructor raises at once, or reads the two native bodies,
    calls the foreign constructor of its class, stores the handle, and
    goes on without another constructor call. *)
Lemma init_form (c : cls) (self : value) (args : list value) :
  In c subclasses ->
  (exists e, init c self args = Raise e) \/
  (exists f a b extra rest,
     init c self args = construct f a b extra self rest /\
     constructor_of c f = true /\ benign rest).
Proof.
  intros Hc. destruct c; cbn in Hc;
    try (exfalso; repeat (destruct Hc as [Hc | Hc]; [discriminate Hc |]); exact Hc);
    clear Hc; unfold init.
  3: { (* PivotJoint *)
    destruct args as [|a [|b args]]; [constructs | constructs |].
    unfold PivotJoint.__init__.
    destruct (List.length args =? 1)%nat; [constructs |].
    destruct (List.length args =? 2)%nat; constructs. }
  all: destruct args as [|a [|b [|x1 [|x2 [|x3 [|x4 [|x5 [|x6 args]]]]]]]]; constructs.
Qed.
(** *** Runs *)

Section Run.
Variable native : Type.
Variable foreign : string -> list value -> native -> value * native.
Variable contents : value -> native -> outcome value.
Variable cast : value -> string -> outcome value.
Variable field_get : value -> string -> native -> outcome value.
Variable field_set : value -> string -> value -> native -> outcome native.
Variable method : value -> string -> list value -> native -> outcome value * native.

Local Abbreviation state := (state native).
Local Abbreviation run := (run native foreign contents cast field_get field_set method).
Local Abbreviation do_step := (do_step native foreign contents cast field_get field_set method).
Local Abbreviation life := (life native foreign contents cast field_get field_set method).
Local Abbreviation heap := (heap native).
Local Abbreviation log := (log native).
Local Abbreviation cp_bound := (cp_bound native).
Local Abbreviation world := (world native).
Local Abbreviation extends := (extends native).
Local Abbreviation follows := (follows native).

Lemma extends_refl l st : extends l st st.
Proof.
  split; [reflexivity |]. split.
  - exists []. split; [symmetry; apply app_nil_r | constructor].
  - intros attrs H. exists attrs. auto.
Qed.

Lemma extends_trans l st1 st2 st3 :
  extends l st1 st2 -> extends l st2 st3 -> extends l st1 st3.
Proof.
  intros (Hc1 & (e1 & Hl1 & Hp1) & Hh1) (Hc2 & (e2 & Hl2 & Hp2) & Hh2).
  split; [congruence |]. split.
  - exists (e1 ++ e2)%list. split.
    + rewrite Hl2, Hl1. symmetry. apply app_assoc.
    + apply Forall_app. auto.
  - intros attrs H. destruct (Hh1 _ H) as (a1 & H1 & E1).
    destruct (Hh2 _ H1) as (a2 & H2 & E2). exists a2. split; [exact H2 | congruence].
Qed.

Lemma run_benign {A : Type} (l : loc) (p : py A) :
  benign p -> forall st, extends l st (snd (run p st)).
Proof.
  induction 1 as [a | e | o name k Hk IH | o name v k Hn Hk IH | f args k Hf Hk IH
                 | k Hk IH | q k Hk IH | q ty k Hk IH | s field k Hk IH
                 | s field v k Hk IH | s v k Hk IH | o name args k Hk IH];
    intros st; cbn [run].
  - apply extends_refl.
  - apply extends_refl.
  - destruct o; try apply extends_refl.
    destruct (heap st l0) as [[attrs | elems] |]; try apply extends_refl.
    destruct (attr name attrs); [apply IH | apply extends_refl].
  - destruct o; try apply extends_refl.
    destruct (heap st l0) as [[attrs | elems] |] eqn:E; try apply extends_refl.
    eapply extends_trans; [| apply IH].
    split; [reflexivity |]. split.
    + exists []. split; [symmetry; apply app_nil_r | constructor].
    + intros attrs0 H0. cbn [constraint.heap]. unfold update.
      destruct (Nat.eqb l l0) eqn:El.
      * apply Nat.eqb_eq in El. subst l0. rewrite E in H0. injection H0 as <-.
        eexists. split; [reflexivity |]. cbn [attr]. rewrite Hn. reflexivity.
      * exists attrs0. auto.
  - destruct (cp_bound st) eqn:Ec; [| apply extends_refl].
    destruct (foreign f args (world st)) as [r w].
    eapply extends_trans; [| apply IH].
    split; [cbn; congruence |]. split.
    + eexists. split; [reflexivity |]. constructor; [exact Hf | constructor].
    + intros attrs H0. exists attrs. auto.
  - apply IH.
  - destruct (contents q (world st)); [apply IH | apply extends_refl ..].
  - destruct (cast q ty); [apply IH | apply extends_refl ..].
  - destruct (field_get s field (world st)); [apply IH | apply extends_refl ..].
  - destruct (field_set s field v (world st)); [| apply extends_refl ..].
    eapply extends_trans; [| apply IH].
    split; [reflexivity |]. split.
    + exists []. split; [symmetry; apply app_nil_r | constructor].
    + intros attrs H0. exists attrs. auto.
  - destruct s; try apply extends_refl.
    destruct (heap st l0) as [[attrs | elems] |] eqn:E; try apply extends_refl.
    eapply extends_trans; [| apply IH].
    split; [reflexivity |]. split.
    + exists []. split; [symmetry; apply app_nil_r | constructor].
    + intros attrs0 H0. cbn [constraint.heap]. unfold update.
      destruct (Nat.eqb l l0) eqn:El.
      * apply Nat.eqb_eq in El. subst l0. rewrite E in H0. discriminate H0.
      * exists attrs0. auto.
  - destruct (method o name args (world st)) as [[v | e |] w].
    + eapply extends_trans; [| apply IH].
      split; [reflexivity |]. split.
      * exists []. split; [symmetry; apply app_nil_r | constructor].
      * intros attrs H0. exists attrs. auto.
    + split; [reflexivity |]. split.
      * exists []. split; [symmetry; apply app_nil_r | constructor].
      * intros attrs H0. exists attrs. auto.
    + split; [reflexivity |]. split.
      * exists []. split; [symmetry; apply app_nil_r | constructor].
      * intros attrs H0. exists attrs. auto.
Qed.

Lemma find_In name l p : find name l = Some p -> In (name, p) l.
Proof.
  induction l as [| [n q] l IH]; cbn; [discriminate |].
  destruct (String.eqb name n) eqn:E.
  - apply String.eqb_eq in E. subst n. intros [= ->]. left. reflexivity.
  - intros H. right. apply IH, H.
Qed.

Lemma accessors_benign c n p :
  In (n, p) (properties c) ->
  (forall g, fget p = Some g -> forall self, benign (g self)) /\
  (forall s, fset p = Some s -> forall self v, benign (s self v)).
Proof.
  intros H. destruct c; each_property H; split; intros ? E; cbn in E;
    try discriminate E; injection E as <-; intros; benign_tac.
Qed.

Lemma lookup_In c name p :
  lookup c name = Some p ->
  In (name, p) (properties c) \/ In (name, p) (properties Constraint_).
Proof.
  unfold lookup. destruct (find name (properties c)) eqn:E.
  - intros [= ->]. left. apply find_In, E.
  - destruct (base c) as [b |] eqn:Eb; [| discriminate].
    destruct c; try discriminate Eb; injection Eb as <-; intros H; right; apply find_In, H.
Qed.

Lemma perform_benign c self acc :
  ~ overwrites_handle (Access acc) -> benign (perform c self acc).
Proof.
  intros Hw. destruct acc as [name | name v |]; unfold perform.
  - destruct (lookup c name) as [p |] eqn:E; [| benign_tac].
    destruct (fget p) as [g |] eqn:Eg; [| constructor].
    destruct (lookup_In _ _ _ E) as [H | H]; apply accessors_benign in H; apply H, Eg.
  - destruct (lookup c name) as [p |] eqn:E.
    + destruct (fset p) as [s |] eqn:Es; [| constructor].
      destruct (lookup_In _ _ _ E) as [H | H]; apply accessors_benign in H; apply H, Es.
    + unfold setattr. constructor; [| constructor].
      destruct (String.eqb "_constraint" name) eqn:En; [| reflexivity].
      apply String.eqb_eq in En. subst name. exfalso. apply Hw. exists v. reflexivity.
  - benign_tac.
Qed.

Lemma follows_trans l st1 st2 st3 :
  follows l st1 st2 -> follows l st2 st3 -> follows l st1 st3.
Proof.
  intros H1 H2.
  apply (extends_trans l (State _ (heap st1) (world st1) true (log st1))
                         (State _ (heap st2) (world st2) true (log st2))
                         (State _ (heap st3) (world st3) true (log st3))).
  - split; [reflexivity | exact H1].
  - split; [reflexivity | exact H2].
Qed.

Lemma follows_same l st st' :
  heap st' = heap st -> log st' = log st -> follows l st st'.
Proof.
  intros Hh Hl. split.
  - exists []. split; [rewrite Hl; symmetry; apply app_nil_r | constructor].
  - intros attrs H. exists attrs. rewrite Hh. auto.
Qed.

Lemma steps_follow c l steps :
  Forall (fun s => ~ overwrites_handle s) steps ->
  forall st,
    follows l st (fold_left (do_step c (VRef l)) steps st) /\
    cp_bound (fold_left (do_step c (VRef l)) steps st) =
      cp_bound st && negb (existsb is_shutdown steps).
Proof.
  induction 1 as [| s steps Hs _ IH]; intros st; cbn [fold_left existsb].
  - split; [apply follows_same; reflexivity | rewrite andb_true_r; reflexivity].
  - destruct (IH (do_step c (VRef l) st s)) as [Hf Hc].
    destruct s as [acc |]; cbn [do_step is_shutdown orb negb] in *.
    + pose proof (run_benign l _ (perform_benign c (VRef l) acc Hs) st) as (Ec & Ef).
      split; [eapply follows_trans; [exact Ef | exact Hf] |].
      rewrite Hc, Ec. reflexivity.
    + split.
      * eapply follows_trans; [| exact Hf]. apply follows_same; reflexivity.
      * rewrite Hc. cbn. symmetry. apply andb_false_r.
Qed.

Lemma run_del l st attrs :
  heap st l = Some (Instance attrs) ->
  log (snd (run (Constraint.__del__ (VRef l)) st)) =
    (log st ++
     match attr "_constraint" attrs with
     | Some h =>
         if cp_bound st
         then [Called free_name [h] (fst (foreign free_name [h] (world st)))]
         else []
     | None => []
     end)%list.
Proof.
  intros H. unfold Constraint.__del__. cbn [seq run getattr cp].
  destruct (cp_bound st) eqn:Ec; cbn [seq run getattr cp].
  - rewrite H. destruct (attr "_constraint" attrs) as [h |]; cbn [seq run].
    + rewrite Ec. destruct (foreign free_name [h] (world st)) as [r w] eqn:Ef.
      unfold free_name in *. rewrite Ef. reflexivity.
    + symmetry. apply app_nil_r.
  - destruct (attr "_constraint" attrs); symmetry; apply app_nil_r.
Qed.

Lemma life_without_handle c l args steps st r :
  heap st l = Some (Instance []) ->
  run (init c (VRef l) args) st = (r, st) -> returned r = false ->
  log (life c (VRef l) args steps st) = log st /\
  returned (fst (run (init c (VRef l) args) st)) = false.
Proof.
  intros Hfresh E Hr. unfold life. rewrite E. split; [| exact Hr].
  destruct r; try discriminate Hr;
    rewrite (run_del l st [] Hfresh); apply app_nil_r.
Qed.

(** C3, as amended: in the life of an instance of a joint subclass, made
    on a fresh object while [cp] is bound and never assigned its
    [_constraint] attribute from outside, either the constructor raises
    before any foreign call and no foreign call is ever made, or the
    foreign calls are: first one call of the foreign constructor of the
    class, returning the handle [h]; then calls that neither construct nor
    free; and last one [cpConstraintFree(h)] made by [__del__] -- unless the
    constructor returned and [cp] was unbound before the object was
    collected, in which case [__del__] calls nothing and the handle is never
    freed. *)
Theorem instance_life (c : cls) (l : loc) (args : list value)
    (steps : list step) (st : state) :
  In c subclasses ->
  heap st l = Some (Instance []) ->
  cp_bound st = true ->
  Forall (fun s => ~ overwrites_handle s) steps ->
  (log (life c (VRef l) args steps st) = log st /\
   returned (fst (run (init c (VRef l) args) st)) = false)
  \/
  (exists f fargs h rest r,
     constructor_of c f = true /\ Forall plain_event rest /\
     log (life c (VRef l) args steps st) =
       (log st ++ Called f fargs h :: rest ++
        (if returned (fst (run (init c (VRef l) args) st)) &&
            existsb is_shutdown steps
         then [] else [Called free_name [h] r]))%list).
Proof.
  intros Hc Hfresh Hcp Hsteps.
  destruct (init_form c (VRef l) args Hc)
    as [[e E] | (f & a & b & extra & rest & E & Hf & Hb)].
  { left. apply (life_without_handle c l args steps st (Err e) Hfresh); [| reflexivity].
    rewrite E. reflexivity. }
  assert (Hrun : (exists e, run (init c (VRef l) args) st = (Err e, st)) \/
            exists ba bb,
              run (init c (VRef l) args) st =
                run rest
                  (State native
                     (update (heap st) l
                        (Instance [("_constraint", fst (foreign f (ba :: bb :: extra) (world st)))]))
                     (snd (foreign f (ba :: bb :: extra) (world st))) true
                     (log st ++ [Called f (ba :: bb :: extra)
                                   (fst (foreign f (ba :: bb :: extra) (world st)))]))).
  { rewrite E. unfold construct. cbn [run].
    destruct a as [| | | la |]; try (left; eexists; reflexivity).
    destruct (heap st la) as [[attrsa | ?] |]; try (left; eexists; reflexivity).
    destruct (attr "_body" attrsa) as [ba |]; try (left; eexists; reflexivity).
    destruct b as [| | | lb |]; try (left; eexists; reflexivity).
    destruct (heap st lb) as [[attrsb | ?] |]; try (left; eexists; reflexivity).
    destruct (attr "_body" attrsb) as [bb |]; try (left; eexists; reflexivity).
    right. exists ba, bb. rewrite Hcp.
    destruct (foreign f (ba :: bb :: extra) (world st)) as [h w].
    cbn [constraint.heap constraint.world constraint.cp_bound constraint.log fst snd].
    rewrite Hfresh. reflexivity. }
  destruct Hrun as [[e He] | (ba & bb & Hrun)].
  { left. apply (life_without_handle c l args steps st (Err e) Hfresh He). reflexivity. }
  right. unfold life. rewrite Hrun. clear E Hrun.
  destruct (foreign f (ba :: bb :: extra) (world st)) as [h w].
  cbn [fst snd].
  set (st2 := State native (update (heap st) l (Instance [("_constraint", h)])) w true
                (log st ++ [Called f (ba :: bb :: extra) h])).
  destruct (run_benign l rest Hb st2) as (Ec & (ext & El & Hp) & Hh).
  destruct (Hh [("_constraint", h)]) as (attrs3 & H3 & A3).
  { cbn. unfold update. rewrite Nat.eqb_refl. reflexivity. }
  cbn in A3.
  destruct (run rest st2) as [r st3]. cbn [fst snd] in *.
  assert (Hdel : forall st4 ext2,
            follows l st3 st4 -> log st4 = (log st3 ++ ext2)%list ->
            log (snd (run (Constraint.__del__ (VRef l)) st4)) =
              (log st ++ Called f (ba :: bb :: extra) h :: (ext ++ ext2) ++
               (if cp_bound st4
                then [Called free_name [h] (fst (foreign free_name [h] (world st4)))]
                else []))%list).
  { intros st4 ext2 [_ Hh4] Hl4. destruct (Hh4 _ H3) as (attrs4 & H4 & A4).
    rewrite (run_del l st4 attrs4 H4), A4, A3, Hl4, El. unfold st2. cbn [constraint.log].
    rewrite <- !app_assoc. reflexivity. }
  destruct r as [v | e |]; cbn [returned andb].
  - destruct (steps_follow c l steps Hsteps st3) as [Hfol Hcb].
    set (st4 := fold_left (do_step c (VRef l)) steps st3) in *.
    destruct Hfol as [(ext2 & El2 & Hp2) Hh2].
    exists f, (ba :: bb :: extra), h, (ext ++ ext2)%list,
      (fst (foreign free_name [h] (world st4))).
    split; [exact Hf |]. split; [apply Forall_app; auto |].
    rewrite (Hdel st4 ext2); [| split; [exists ext2; auto | exact Hh2] | exact El2].
    rewrite Hcb, Ec. cbn [constraint.cp_bound andb].
    destruct (existsb is_shutdown steps); reflexivity.
  - exists f, (ba :: bb :: extra), h, ext, (fst (foreign free_name [h] (world st3))).
    split; [exact Hf |]. split; [exact Hp |].
    rewrite (Hdel st3 []); [| apply follows_same; reflexivity | symmetry; apply app_nil_r].
    rewrite Ec. cbn [constraint.cp_bound]. rewrite app_nil_r. reflexivity.
  - exists f, (ba :: bb :: extra), h, ext, (fst (foreign free_name [h] (world st3))).
    split; [exact Hf |]. split; [exact Hp |].
    rewrite (Hdel st3 []); [| apply follows_same; reflexivity | symmetry; apply app_nil_r].
    rewrite Ec. cbn [constraint.cp_bound]. rewrite app_nil_r. reflexivity.
Qed.

(** C9: [PivotJoint(a, b, *args)] with neither one nor two points raises
    [Exception] and leaves the whole state as it was: no foreign call is
    logged, no attribute is set, no constraint set is touched. *)
Theorem pivot_joint_rejects (self a b : value) (args : list value) (st : state) :
  List.length args <> 1%nat -> List.length args <> 2%nat ->
  run (init PivotJoint_ self (a :: b :: args)) st =
    (Err (Exception "You must specify either one pivot point or two anchor points"), st).
Proof.
  intros H1 H2. unfold init, PivotJoint.__init__.
  destruct (Nat.eqb_spec (List.length args) 1) as [E | _]; [contradiction |].
  destruct (Nat.eqb_spec (List.length args) 2) as [E | _]; [contradiction |].
  reflexivity.
Qed.

End Run.

Lemma pivot_joint_rejects_witness :
  List.length (@nil value) <> 1%nat /\ List.length (@nil value) <> 2%nat /\
  stub.run (init PivotJoint_ (VRef 0%nat) [VRef 1%nat; VRef 2%nat]) stub.st0 =
    (Err (Exception "You must specify either one pivot point or two anchor points"),
     stub.st0).
Proof.
  split; [simpl; lia |]. split; [simpl; lia |].
  apply (pivot_joint_rejects stub.native stub.foreign stub.contents stub.cast
           stub.field_get stub.field_set stub.method
           (VRef 0%nat) (VRef 1%nat) (VRef 2%nat) [] stub.st0); simpl; lia.
Defined.

Lemma instance_life_witness :
  exists f fargs h rest r,
    constructor_of PinJoint_ f = true /\ Forall plain_event rest /\
    log _ (stub.life PinJoint_ (VRef 0%nat) [VRef 1%nat; VRef 2%nat]
             [Access (Read "distance"); Access (Write "max_force" (VNum 1))] stub.st0) =
      (Called f fargs h :: rest ++ [Called free_name [h] r])%list.
Proof.
  destruct (instance_life stub.native stub.foreign stub.contents stub.cast
              stub.field_get stub.field_set stub.method
              PinJoint_ 0%nat [VRef 1%nat; VRef 2%nat]
              [Access (Read "distance"); Access (Write "max_force" (VNum 1))] stub.st0)
    as [[H _] | H].
  - simpl; auto.
  - reflexivity.
  - reflexivity.
  - repeat constructor; intros [v H]; discriminate H.
  - discriminate H.
  - exact H.
Defined.

(** C3 as stated fails twice.  When the interpreter unbinds [cp] before the
    instance is collected, [__del__] frees nothing: the only foreign call of
    that life is the constructor's.  And an instance of the base class is
    given its handle: it constructs none, and frees the one it was given. *)
Lemma handle_not_freed_after_shutdown :
  log _ (stub.life PinJoint_ (VRef 0%nat) [VRef 1%nat; VRef 2%nat] [Shutdown] stub.st0) =
    [Called "cpPinJointNew"
       [VPtr 1; VPtr 2; VTuple [VNum 0; VNum 0]; VTuple [VNum 0; VNum 0]] (VPtr 7)] /\
  log _ (stub.life Constraint_ (VRef 0%nat) [VPtr 5] [] stub.st0) =
    [Called "cpConstraintFree" [VPtr 5] (VPtr 7)].
Proof. split; reflexivity. Qed.




End constraint_facts.

Module draw_options_facts.
Import draw_options draw_options_props.
Open Scope draw_scope.
Open Scope nat_scope.

Section Safe.
Variables n0 self b : loc.

Lemma safe_seq {A B : Type} (Q : A -> Prop) (Q' : B -> Prop) (m : dr A) (f : A -> dr B) :
  safe n0 self b Q m -> (forall a, Q a -> safe n0 self b Q' (f a)) ->
  safe n0 self b Q' (seq m f).
Proof.
  intros Hm Hf. induction Hm; cbn [seq]; try (constructor; auto; fail).
  apply Hf. assumption.
Qed.

Lemma safe_for_ {X S : Type} (l : list X) (body : X -> S -> dr S) :
  (forall i s, safe n0 self b (fun _ => True) (body i s)) ->
  forall s, safe n0 self b (fun _ => True) (for_ l body s).
Proof.
  intros Hb. induction l as [| i l IH]; intros s; cbn [for_].
  - constructor. exact I.
  - eapply safe_seq; [apply Hb | intros s' _; apply IH].
Qed.

(** *** Every drawing method is safe *)

Section Methods.
Variable atan2 : R -> R -> R.
Variable vec_add vec_sub : Vec2d -> Vec2d -> Vec2d.
Variable rotated : Vec2d -> R -> Vec2d.
Variable SpaceDebugColor : Type.
Variable as_int : SpaceDebugColor -> list Z.

Local Abbreviation draw_circle := (draw_circle vec_add rotated SpaceDebugColor as_int).
Local Abbreviation draw_segment := (draw_segment SpaceDebugColor as_int).
Local Abbreviation draw_fat_segment :=
  (draw_fat_segment atan2 vec_add vec_sub rotated SpaceDebugColor as_int).
Local Abbreviation draw_polygon :=
  (draw_polygon atan2 vec_add vec_sub rotated SpaceDebugColor as_int).
Local Abbreviation draw_dot := (draw_dot SpaceDebugColor as_int).
Local Abbreviation ok := (safe n0 self b (fun _ : unit => True)).

Ltac safe_step known :=
  unfold getitem, len, get_x, get_y;
  unfold new_list, extend, append, items, batch, add;
  cbn [seq];
  lazymatch goal with
  | |- safe _ _ _ _ (Ret _) => apply safe_Ret; exact I
  | |- safe _ _ _ _ (Raise _) => apply safe_Raise
  | |- safe _ _ _ _ (GetBatch _ _) => apply safe_GetBatch
  | |- safe _ _ _ _ (NewList _ _) => apply safe_NewList; intros ? ?
  | |- safe _ _ _ _ (Extend _ _ _) => apply safe_Extend; [assumption |]
  | |- safe _ _ _ _ (Append _ _ _) => apply safe_Append; [assumption |]
  | |- safe _ _ _ _ (Items _ _) => apply safe_Items; intros ?
  | |- safe _ _ _ _ (BatchAdd _ _ _) => apply safe_BatchAdd
  | |- safe _ _ _ _ (seq (for_ _ _ _) _) =>
      eapply safe_seq; [apply safe_for_; intros ? ? | intros ? _]
  | |- safe _ _ _ _ (for_ _ _ _) =>
      apply safe_for_; intros ? ?
  | |- safe _ _ _ _ (seq (match ?v with _ => _ end) _) => destruct v
  | |- safe _ _ _ _ (match ?v with _ => _ end) => destruct v
  | |- safe _ _ _ _ (seq _ _) =>
      first [ eapply safe_seq; [apply known | intros ? _]
            | apply (safe_seq (fun _ => True)); [| intros ? _] ]
  | |- safe _ _ _ _ _ => apply known
  end.

Lemma safe_draw_circle pos angle radius outline_color fill_color :
  ok (draw_circle self pos angle radius outline_color fill_color).
Proof.
  unfold draw_options.draw_circle. repeat safe_step I.
Qed.

Lemma safe_draw_segment u v color : ok (draw_segment self u v color).
Proof.
  unfold draw_options.draw_segment. repeat safe_step I.
Qed.

Lemma safe_draw_fat_segment u v radius outline_color fill_color :
  ok (draw_fat_segment self u v radius outline_color fill_color).
Proof.
  unfold draw_options.draw_fat_segment. repeat safe_step safe_draw_circle.
Qed.

Lemma safe_draw_polygon verts radius outline_color fill_color :
  ok (draw_polygon self verts radius outline_color fill_color).
Proof.
  unfold draw_options.draw_polygon. repeat safe_step safe_draw_fat_segment.
Qed.

Lemma safe_draw_dot size pos color : ok (draw_dot self size pos color).
Proof.
  unfold draw_options.draw_dot. repeat safe_step I.
Qed.

Lemma safe_method call :
  ok (method atan2 vec_add vec_sub rotated SpaceDebugColor as_int self call).
Proof.
  destruct call; cbn [method].
  - apply safe_draw_circle.
  - apply safe_draw_segment.
  - apply safe_draw_fat_segment.
  - apply safe_draw_polygon.
  - apply safe_draw_dot.
Qed.

End Methods.

(** *** Running a safe program keeps the frame *)

Section Frame.
Variable st0 : store.
Variable prims0 : list primitive.
Variable nb : bool.
Hypothesis Hn : next st0 = n0.
Hypothesis Hself : heap st0 self = Some (DrawOptions nb (Some b)).
Hypothesis Hslt : self < n0.
Hypothesis Hb : heap st0 b = Some (Batch prims0).
Hypothesis Hblt : b < n0.

Lemma framed_here : framed b prims0 st0 st0.
Proof.
  split; [lia |]. split; [reflexivity |]. exists []. rewrite app_nil_r. exact Hb.
Qed.

Lemma framed_fresh st l o :
  framed b prims0 st0 st -> n0 <= l -> next st <= S l ->
  framed b prims0 st0 (Store (update (heap st) l o) (S l)).
Proof.
  intros (Hle & Hfr & added & Hbt) Hl Hnx. split; [cbn; lia |]. split.
  - intros l' Hl' Hne. cbn. unfold update.
    destruct (Nat.eqb_spec l' l); [lia | apply Hfr; assumption].
  - exists added. cbn. unfold update.
    destruct (Nat.eqb_spec b l); [lia | exact Hbt].
Qed.

Lemma framed_own st l o :
  framed b prims0 st0 st -> n0 <= l ->
  framed b prims0 st0 (Store (update (heap st) l o) (next st)).
Proof.
  intros (Hle & Hfr & added & Hbt) Hl. split; [exact Hle |]. split.
  - intros l' Hl' Hne. cbn. unfold update.
    destruct (Nat.eqb_spec l' l); [lia | apply Hfr; assumption].
  - exists added. cbn. unfold update.
    destruct (Nat.eqb_spec b l); [lia | exact Hbt].
Qed.

Lemma run_safe {A : Type} (Q : A -> Prop) (p : dr A) :
  safe n0 self b Q p ->
  forall st, framed b prims0 st0 st ->
    framed b prims0 st0 (snd (run p st)) /\
    match fst (run p st) with
    | Ok a => Q a
    | _ => True
    end.
Proof.
  induction 1 as [a Ha | e | k Hk IH | its k Hk IH | l its k Hl Hk IH
                 | l it k Hl Hk IH | l k Hk IH | p k Hk IH];
    intros st Hst; cbn [run fst snd].
  - auto.
  - auto.
  - assert (E : heap st self = Some (DrawOptions nb (Some b))).
    { destruct Hst as (_ & Hfr & _). rewrite Hfr; [exact Hself | lia |].
      intros ->. rewrite Hb in Hself. discriminate Hself. }
    rewrite E. apply IH, Hst.
  - apply IH.
    + destruct Hst as (Hle & _). lia.
    + apply framed_fresh; [exact Hst | destruct Hst as (Hle & _); lia | lia].
  - destruct (heap st l) as [[? ? | ? | old] |]; try (cbn [fst snd]; auto; fail).
    apply IH, framed_own; assumption.
  - destruct (heap st l) as [[? ? | ? | old] |]; try (cbn [fst snd]; auto; fail).
    apply IH, framed_own; assumption.
  - destruct (heap st l) as [[? ? | ? | its] |]; cbn [fst snd]; auto.
  - destruct (heap st b) as [[? ? | prims | ?] |] eqn:E; try (cbn [fst snd]; auto; fail).
    apply IH. destruct Hst as (Hle & Hfr & added & Hbt).
    rewrite Hbt in E. injection E as <-.
    split; [exact Hle |]. split.
    + intros l' Hl' Hne. cbn. unfold update.
      destruct (Nat.eqb_spec l' b); [contradiction | apply Hfr; assumption].
    + exists (added ++ [p])%list. cbn. unfold update. rewrite Nat.eqb_refl.
      rewrite app_assoc. reflexivity.
Qed.

End Frame.
End Safe.

(** C8: a call of a [draw_*] method on an adapter that has a batch leaves
    every object that existed before the call as it was, but for the batch,
    which keeps the primitives it had and gets more at its end.  The
    vectors, numbers and colors it is given are immutable values; a list of
    vertices it is given is one of the objects left as they were. *)
Theorem draw_only_adds_to_batch
    (atan2 : R -> R -> R) (vec_add vec_sub : Vec2d -> Vec2d -> Vec2d)
    (rotated : Vec2d -> R -> Vec2d) (SpaceDebugColor : Type)
    (as_int : SpaceDebugColor -> list Z)
    (call : draw_call SpaceDebugColor) (self b : loc) (nb : bool)
    (prims : list primitive) (st : store) :
  heap st self = Some (DrawOptions nb (Some b)) ->
  heap st b = Some (Batch prims) ->
  self < next st -> b < next st ->
  let st' :=
    snd (run (method atan2 vec_add vec_sub rotated SpaceDebugColor as_int self call) st) in
  (forall l, l < next st -> l <> b -> heap st' l = heap st l) /\
  (exists added, heap st' b = Some (Batch (prims ++ added))).
Proof.
  intros Hself Hb Hslt Hblt st'.
  destruct (run_safe (next st) self b st prims nb eq_refl Hself Hslt Hb Hblt
              (fun _ => True) _
              (safe_method (next st) self b atan2 vec_add vec_sub rotated
                 SpaceDebugColor as_int call)
              st (framed_here (next st) self b st prims eq_refl Hslt Hb Hblt))
    as [(_ & Hfr & Hbt) _].
  split; assumption.
Qed.

Lemma draw_only_adds_to_batch_witness :
  let st' := snd (run (sample.method 0 (Polygon 2 1%R (0, 0, 0, 255)%Z (255, 0, 0, 255)%Z))
                      sample.st0) in
  heap st' 2 = heap sample.st0 2 /\
  heap st' 0 = heap sample.st0 0 /\
  exists added, heap st' 1 = Some (Batch added).
Proof.
  destruct (draw_only_adds_to_batch sample.atan2 sample.vec_add sample.vec_sub
              sample.rotated (Z * Z * Z * Z)%type sample.as_int
              (Polygon 2 1%R (0, 0, 0, 255)%Z (255, 0, 0, 255)%Z) 0 1 false [] sample.st0)
    as [Hfr Hbt].
  - reflexivity.
  - reflexivity.
  - simpl; lia.
  - simpl; lia.
  - intros st'. split; [apply Hfr; simpl; lia |]. split; [apply Hfr; simpl; lia |].
    exact Hbt.
Defined.

End draw_options_facts.

Module Mat22_more.
Import Mat22 Mat22_props Mat22_more_props.
Open Scope R_scope.

Lemma determinant_inverse_eq (m : Mat22) :
  determinant m <> 0 ->
  determinant (mk (d m / determinant m) (- b m / determinant m)
                  (- c m / determinant m) (a m / determinant m)) = / determinant m.
Proof.
  intros H. destruct m as [a b c d]; unfold determinant in *; simpl in *.
  field. exact H.
Qed.







Ltac entries := first [ring | f_equal; first [ring | f_equal; ring]].

Ltac decide_reals :=
  repeat (match goal with
          | |- context [Req_dec_T ?u ?v] => destruct (Req_dec_T u v); try lra
          end; cbn [bind]).

(** X5: for [i] and [j] each 0 or 1, [m[i]] is the vector that [rows]
    yields at place [i], and [m[i, j]] is coordinate [j] of that vector;
    [cols] yields what [rows] of the transposed matrix yields. *)
Theorem pair_index_is_coordinate (m : Mat22) (i j : nat) :
  (i < 2)%nat -> (j < 2)%nat ->
  exists v,
    nth_error (yielded (rows m)) i = Some (PVec v) /\
    __getitem__ m (PNum (INR i)) = Ok (PVec v) /\
    __getitem__ m (PTuple [PNum (INR i); PNum (INR j)]) = Ok (PNum (nth j [x v; y v] 0)) /\
    yielded (cols m) = yielded (rows (transposed m)).
Proof.
  intros Hi Hj.
  destruct i as [| [| i]]; [| | lia]; (destruct j as [| [| j]]; [| | lia]);
    cbn [INR]; eexists; (split; [reflexivity |]);
    repeat split; unfold __getitem__, eq_pair, eq_int; cbn [bind];
    decide_reals; reflexivity.
Qed.

Lemma pair_index_is_coordinate_witness :
  exists v,
    nth_error (yielded (rows m0)) 0 = Some (PVec v) /\
    __getitem__ m0 (PNum (INR 0)) = Ok (PVec v) /\
    __getitem__ m0 (PTuple [PNum (INR 0); PNum (INR 1)]) = Ok (PNum (nth 1 [x v; y v] 0)) /\
    yielded (cols m0) = yielded (rows (transposed m0)).
Proof. apply (pair_index_is_coordinate m0 0 1); lia. Defined.

(** X6: indexing by a number raises [IndexError] unless the number is 0 or
    1, and indexing by a pair of numbers raises it unless both are 0 or 1;
    an empty tuple, a triple and a list of two numbers are never an
    index. *)
Theorem index_out_of_range (m : Mat22) (r i j k : R) :
  (__getitem__ m (PNum r) = Err IndexError <-> r <> 0 /\ r <> 1) /\
  (__getitem__ m (PTuple [PNum i; PNum j]) = Err IndexError <->
     ~ ((i = 0 \/ i = 1) /\ (j = 0 \/ j = 1))) /\
  __getitem__ m (PTuple []) = Err IndexError /\
  __getitem__ m (PTuple [PNum i; PNum j; PNum k]) = Err IndexError /\
  __getitem__ m (PList [PNum i; PNum j]) = Err IndexError.
Proof.
  split; [| split; [| split; [| split]]].
  - unfold __getitem__, eq_pair, eq_int; cbn [bind].
    destruct (Req_dec_T r 0); cbn [bind]; [split; [discriminate | lra] |].
    destruct (Req_dec_T r 1); cbn [bind]; [split; [discriminate | lra] |].
    split; [intros _; auto | reflexivity].
  - unfold __getitem__, eq_pair, eq_int; cbn [bind].
    destruct (Req_dec_T i 0); destruct (Req_dec_T j 0);
      destruct (Req_dec_T i 1); destruct (Req_dec_T j 1); cbn [bind];
      try lra; (split; [first [discriminate | intros _; lra] | first [reflexivity | lra]]).
  - reflexivity.
  - unfold __getitem__, eq_pair, eq_int; cbn [bind]. decide_reals; reflexivity.
  - reflexivity.
Qed.




(** X9: [as_mat2] hands a [Mat22] back, builds the matrix of a pair of
    pairs of numbers (tuples or lists) entry by entry, and so builds [m]
    again from what [m.cols()] yields and the transposed matrix from what
    [m.rows()] yields. *)
Theorem as_mat2_round_trip (m : Mat22) (a b c d : R) :
  as_mat2 (PMat m) = Ok m /\
  as_mat2 (PTuple [PTuple [PNum a; PNum b]; PTuple [PNum c; PNum d]]) = Ok (mk a b c d) /\
  as_mat2 (PList [PList [PNum a; PNum b]; PList [PNum c; PNum d]]) = Ok (mk a b c d) /\
  as_mat2 (tuple_of (cols m)) = Ok m /\
  as_mat2 (tuple_of (rows m)) = Ok (transposed m).
Proof.
  destruct m; repeat split; reflexivity.
Qed.

Lemma get_app k kw kw' :
  get k (kw ++ kw')%list = match get k kw with Some v => Some v | None => get k kw' end.
Proof.
  induction kw as [| [k' v] kw IH]; cbn; [reflexivity |].
  destruct (String.eqb k k'); [reflexivity | exact IH].
Qed.

Lemma get_setdefault k k' v kw :
  get k (setdefault k' v kw) =
    match get k kw with
    | Some w => Some w
    | None => if String.eqb k k' then Some v else None
    end.
Proof.
  unfold setdefault. destruct (get k' kw) as [w |] eqn:E.
  - destruct (get k kw) eqn:E'; [reflexivity |].
    destruct (String.eqb_spec k k'); [| reflexivity]. subst. congruence.
  - rewrite get_app. cbn. destruct (get k kw); reflexivity.
Qed.

Lemma forallb_setdefault k v kw :
  field_name k = true ->
  forallb (fun kv => field_name (fst kv)) (setdefault k v kw) =
    forallb (fun kv => field_name (fst kv)) kw.
Proof.
  intros H. unfold setdefault. destruct (get k kw); [reflexivity |].
  rewrite forallb_app. cbn. rewrite H. rewrite !andb_true_r. reflexivity.
Qed.

Lemma field_numbers_get k kw :
  field_numbers kw -> get k kw = None \/ exists r, get k kw = Some (PNum r).
Proof.
  induction 1 as [| [k' v] kw [_ [r Hr]] _ IH]; cbn; [left; reflexivity |].
  destruct (String.eqb k k'); [| exact IH]. right. exists r. cbn in Hr. congruence.
Qed.

Lemma field_numbers_forallb kw :
  field_numbers kw -> forallb (fun kv => field_name (fst kv)) kw = true.
Proof.
  induction 1 as [| kv kw [H _] _ IH]; cbn; [reflexivity |]. rewrite H, IH. reflexivity.
Qed.

(** X10: [copy] replaces the fields named by its keyword arguments and
    keeps the others: with keywords that name fields and give numbers, the
    result has, field by field, the number given or else the field of
    [self]; without keywords it is [self]; and a keyword that is not a field
    makes it raise [TypeError]. *)
Theorem copy_replaces_fields (m : Mat22) (kw : kwargs) :
  (field_numbers kw ->
   exists a' b' c' d',
     copy m kw = Ok (mk a' b' c' d') /\
     picked "a" (a m) kw = PNum a' /\ picked "b" (b m) kw = PNum b' /\
     picked "c" (c m) kw = PNum c' /\ picked "d" (d m) kw = PNum d') /\
  copy m [] = Ok m /\
  (forallb (fun kv => field_name (fst kv)) kw = false -> copy m kw = Err TypeError).
Proof.
  split; [| split].
  - intros H. unfold copy, Mat22_kw, picked.
    rewrite !forallb_setdefault by reflexivity. rewrite (field_numbers_forallb kw H).
    rewrite !get_setdefault. cbn [String.eqb Ascii.eqb Bool.eqb].
    destruct (field_numbers_get "a" kw H) as [-> | [ra ->]];
      destruct (field_numbers_get "b" kw H) as [-> | [rb ->]];
      destruct (field_numbers_get "c" kw H) as [-> | [rc ->]];
      destruct (field_numbers_get "d" kw H) as [-> | [rd ->]];
      cbn; do 4 eexists; repeat split; reflexivity.
  - destruct m; reflexivity.
  - intros H. unfold copy, Mat22_kw.
    rewrite !forallb_setdefault by reflexivity. rewrite H. reflexivity.
Qed.

Lemma copy_replaces_fields_witness :
  copy m0 [("c", PNum 5)] = Ok (mk 1 0 5 1) /\
  copy m0 [("x", PNum 5)] = Err TypeError.
Proof.
  destruct (copy_replaces_fields m0 [("c", PNum 5)]) as [H _].
  destruct H as (a' & b' & c' & d' & E & Ha & Hb & Hc & Hd).
  { repeat constructor. exists 5. reflexivity. }
  split.
  - rewrite E. cbn in Ha, Hb, Hc, Hd. congruence.
  - apply (copy_replaces_fields m0 [("x", PNum 5)]). reflexivity.
Defined.




(** X14: when [cos] and [sin] satisfy [cos^2 + sin^2 = 1], a rotation
    matrix has determinant 1 and its inverse is its transpose. *)
Theorem rotation_is_orthogonal (cos sin : R -> R) (angle : R) :
  cos angle * cos angle + sin angle * sin angle = 1 ->
  determinant (rotation cos sin angle) = 1 /\
  inverse (rotation cos sin angle) = Ok (transposed (rotation cos sin angle)).
Proof.
  intros H.
  assert (Hd : determinant (rotation cos sin angle) = 1)
    by (unfold determinant, rotation; simpl; lra).
  split; [exact Hd |]. rewrite Mat22_facts.inverse_ok by (rewrite Hd; lra).
  rewrite Hd. unfold rotation, transposed; simpl. f_equal. f_equal; field.
Qed.

Lemma rotation_is_orthogonal_witness :
  determinant (rotation Rtrigo_def.cos Rtrigo_def.sin 1) = 1 /\
  inverse (rotation Rtrigo_def.cos Rtrigo_def.sin 1) =
    Ok (transposed (rotation Rtrigo_def.cos Rtrigo_def.sin 1)).
Proof.
  apply (rotation_is_orthogonal Rtrigo_def.cos Rtrigo_def.sin 1).
  pose proof (sin2_cos2 1) as H. unfold Rsqr in H. lra.
Defined.





(** X17: [m * v] for a vector [v] is [transform_vector]; it sends
    [(1, 0)] to the first vector [cols] yields and [(0, 1)] to the second,
    [(x, y)] to [x] times the one plus [y] times the other, and the
    identity matrix leaves every vector as it is. *)
Theorem transform_vector_columns (m : Mat22) (v : Vec2d) :
  cols m = PGen [PVec (transform_vector m (mkVec 1 0));
                 PVec (transform_vector m (mkVec 0 1))] /\
  transform_vector m v =
    mkVec (x v * x (transform_vector m (mkVec 1 0)) +
           y v * x (transform_vector m (mkVec 0 1)))
          (x v * y (transform_vector m (mkVec 1 0)) +
           y v * y (transform_vector m (mkVec 0 1))) /\
  __mul__ m (PVec v) = PVec (transform_vector m v) /\
  transform_vector identity v = v.
Proof.
  destruct m as [a b c d], v as [vx vy]; unfold cols, identity, scale; cbn.
  repeat split; try entries.
  replace (a * 1 + c * 0) with a by ring. replace (b * 1 + d * 0) with b by ring.
  replace (a * 0 + c * 1) with c by ring. replace (b * 0 + d * 1) with d by ring.
  reflexivity.
Qed.

End Mat22_more.

Module constraint_more.
Import constraint constraint_props constraint_more_props.
Open Scope prog_scope.

Section Run.
Variable native : Type.
Variable foreign : string -> list value -> native -> value * native.
Variable contents : value -> native -> outcome value.
Variable cast : value -> string -> outcome value.
Variable field_get : value -> string -> native -> outcome value.
Variable field_set : value -> string -> value -> native -> outcome native.
Variable method : value -> string -> list value -> native -> outcome value * native.

Local Abbreviation state := (state native).
Local Abbreviation run := (run native foreign contents cast field_get field_set method).
Local Abbreviation heap := (heap native).
Local Abbreviation log := (log native).
Local Abbreviation cp_bound := (cp_bound native).
Local Abbreviation world := (world native).
Local Abbreviation member := (member native).

(** Running [m] and then [f] on what it returns. *)
Lemma run_seq {A B : Type} (m : py A) (f : A -> py B) (st : state) :
  run (seq m f) st =
    match run m st with
    | (Ok a, st1) => run (f a) st1
    | (Err e, st1) => (Err e, st1)
    | (Outside, st1) => (Outside, st1)
    end.
Proof.
  revert st. induction m as [a | e | o name k IH | o name v k IH | g args k IH | k IH
                            | p k IH | p ty k IH | s field k IH | s field v k IH
                            | s v k IH | o name args k IH];
    intros st; cbn [seq constraint.run]; try reflexivity.
  - destruct o; try reflexivity.
    destruct (heap st l) as [[attrs | elems] |]; try reflexivity.
    destruct (attr name attrs); [apply IH | reflexivity].
  - destruct o; try reflexivity.
    destruct (heap st l) as [[attrs | elems] |]; try reflexivity. apply IH.
  - destruct (cp_bound st); [| reflexivity].
    destruct (foreign g args (world st)). apply IH.
  - apply IH.
  - destruct (contents p (world st)); [apply IH | reflexivity ..].
  - destruct (cast p ty); [apply IH | reflexivity ..].
  - destruct (field_get s field (world st)); [apply IH | reflexivity ..].
  - destruct (field_set s field v (world st)); [apply IH | reflexivity ..].
  - destruct s; try reflexivity.
    destruct (heap st l) as [[attrs | elems] |]; try reflexivity. apply IH.
  - destruct (method o name args (world st)) as [[v | e |] w]; [apply IH | reflexivity ..].
Qed.

Lemma run_stateless {A : Type} (p : py A) :
  stateless p -> forall st,
    heap (snd (run p st)) = heap st /\ cp_bound (snd (run p st)) = cp_bound st.
Proof.
  induction 1 as [a | e | o name k Hk IH | f args k Hk IH | k Hk IH | q k Hk IH
                 | q ty k Hk IH | s field k Hk IH | s field v k Hk IH
                 | o name args k Hk IH];
    intros st; cbn [constraint.run]; auto.
  - destruct o; auto. destruct (heap st l) as [[attrs | elems] |]; auto.
    destruct (attr name attrs); auto.
  - destruct (cp_bound st) eqn:E; auto.
    destruct (foreign f args (world st)) as [r w].
    destruct (IH r (State native (heap st) w (cp_bound st)
                      (log st ++ [Called f args r]))) as [H1 H2].
    rewrite E in *. auto.
  - destruct (contents q (world st)); auto.
  - destruct (cast q ty); auto.
  - destruct (field_get s field (world st)); auto.
  - destruct (field_set s field v (world st)) as [w | e |]; auto.
    apply (IH (State native (heap st) w (cp_bound st) (log st))).
  - destruct (method o name args (world st)) as [[v | e |] w]; auto.
    apply (IH v (State native (heap st) w (cp_bound st) (log st))).
Qed.

Ltac stateless_tac := cbn; repeat (constructor; intros).

Lemma accessors_stateless c n p :
  In (n, p) (properties c) ->
  (forall g, fget p = Some g -> forall self, stateless (g self)) /\
  (forall s, fset p = Some s -> forall self v, stateless (s self v)).
Proof.
  intros H. destruct c; constraint_facts.each_property H; split; intros ? E; cbn in E;
    try discriminate E; injection E as <-; intros; stateless_tac.
Qed.

(** X18: reading or writing a property that an instance exposes never
    changes a Python object -- no attribute of any instance, no constraint
    set -- and leaves [cp] bound or not as it was, whatever the compiled
    library answers; a write that is refused changes nothing either. *)
Theorem property_access_keeps_heap (c : cls) (name : string) (p : property)
    (self v : value) (st : state) :
  In (name, p) (exposed c) ->
  heap (snd (run (perform c self (Read name)) st)) = heap st /\
  heap (snd (run (perform c self (Write name v)) st)) = heap st /\
  cp_bound (snd (run (perform c self (Read name)) st)) = cp_bound st /\
  cp_bound (snd (run (perform c self (Write name v)) st)) = cp_bound st.
Proof.
  intros H. pose proof (constraint_facts.exposed_lookup c name p H) as E.
  assert (Hp : (forall g, fget p = Some g -> forall self, stateless (g self)) /\
               (forall s, fset p = Some s -> forall self v, stateless (s self v))).
  { destruct (constraint_facts.lookup_In c name p E) as [Hi | Hi];
      exact (accessors_stateless _ _ _ Hi). }
  destruct Hp as [Hg Hs].
  assert (Sr : stateless (perform c self (Read name))).
  { unfold perform. rewrite E. destruct (fget p) as [g |] eqn:Eg; [| constructor].
    apply Hg. reflexivity. }
  assert (Sw : stateless (perform c self (Write name v))).
  { unfold perform. rewrite E. destruct (fset p) as [s |] eqn:Es; [| constructor].
    apply Hs. reflexivity. }
  destruct (run_stateless _ Sr st) as [H1 H2]. destruct (run_stateless _ Sw st) as [H3 H4].
  auto.
Qed.

Lemma same_refl l : same (VRef l) (VRef l) = true.
Proof. apply Nat.eqb_refl. Qed.

Lemma set_add_member v elems : same v v = true -> existsb (same v) (set_add v elems) = true.
Proof.
  intros Hv. unfold set_add. destruct (existsb (same v) elems) eqn:E; [exact E |].
  rewrite existsb_app. cbn. rewrite Hv. apply orb_true_r.
Qed.

Lemma set_add_keeps v w elems :
  existsb (same v) elems = true -> existsb (same v) (set_add w elems) = true.
Proof.
  intros H. unfold set_add. destruct (existsb (same w) elems); [exact H |].
  rewrite existsb_app, H. reflexivity.
Qed.

(** What [_set_bodies] has done when it returns. *)
Lemma run_set_bodies self a b st v st' :
  run (Constraint._set_bodies self a b) st = (Ok v, st') ->
  exists l attrs,
    self = VRef l /\
    heap st l = Some (Instance attrs) /\
    heap st' l = Some (Instance (("_b", b) :: ("_a", a) :: attrs)) /\
    member self a st' /\ member self b st'.
Proof.
  unfold Constraint._set_bodies, setattr, getattr. cbn [seq constraint.run].
  destruct self as [| | | l |]; try discriminate.
  destruct (heap st l) as [[attrs | ?] |] eqn:El; try discriminate.
  cbn [constraint.heap]. unfold update at 1. rewrite Nat.eqb_refl.
  cbn [constraint.heap constraint.world constraint.cp_bound constraint.log].
  set (h2 := update (update (heap st) l (Instance (("_a", a) :: attrs))) l
               (Instance (("_b", b) :: ("_a", a) :: attrs))).
  assert (Hl2 : h2 l = Some (Instance (("_b", b) :: ("_a", a) :: attrs))).
  { unfold h2, update. rewrite Nat.eqb_refl. reflexivity. }
  destruct a as [| | | la |]; try discriminate.
  destruct (h2 la) as [[attrsa | ?] |] eqn:Ela; try discriminate.
  destruct (attr "_constraints" attrsa) as [sa |] eqn:Eca; try discriminate.
  destruct sa as [| | | lsa |]; try discriminate.
  destruct (h2 lsa) as [[? | ea] |] eqn:Esa; try discriminate.
  cbn [constraint.heap constraint.world constraint.cp_bound constraint.log].
  set (h3 := update h2 lsa (PySet (set_add (VRef l) ea))).
  assert (Hne : forall l' o, h2 l' = Some (Instance o) -> h3 l' = Some (Instance o)).
  { intros l' o H. unfold h3, update. destruct (Nat.eqb_spec l' lsa); [| exact H].
    subst. rewrite Esa in H. discriminate H. }
  destruct b as [| | | lb |]; try discriminate.
  destruct (h3 lb) as [[attrsb | ?] |] eqn:Elb; try discriminate.
  destruct (attr "_constraints" attrsb) as [sb |] eqn:Ecb; try discriminate.
  destruct sb as [| | | lsb |]; try discriminate.
  destruct (h3 lsb) as [[? | eb] |] eqn:Esb; try discriminate.
  cbn [constraint.heap constraint.world constraint.cp_bound constraint.log].
  intros [= <- <-]. unfold constraint_more_props.member. cbn [constraint.heap].
  set (h4 := update h3 lsb (PySet (set_add (VRef l) eb))).
  assert (Hne' : forall l' o, h3 l' = Some (Instance o) -> h4 l' = Some (Instance o)).
  { intros l' o H. unfold h4, update. destruct (Nat.eqb_spec l' lsb); [| exact H].
    subst. rewrite Esb in H. discriminate H. }
  exists l, attrs. split; [reflexivity |]. split; [exact El |].
  split; [apply Hne', Hne, Hl2 |]. split.
  - exists la, attrsa, lsa.
    destruct (Nat.eqb_spec lsa lsb) as [E | N].
    + exists (set_add (VRef l) eb).
      split; [reflexivity |]. split; [apply Hne', Hne, Ela |]. split; [exact Eca |].
      split; [unfold h4, update; rewrite E, Nat.eqb_refl; reflexivity |].
      apply set_add_member, same_refl.
    + exists (set_add (VRef l) ea).
      split; [reflexivity |]. split; [apply Hne', Hne, Ela |]. split; [exact Eca |].
      split.
      * unfold h4, update. destruct (Nat.eqb_spec lsa lsb); [contradiction |].
        unfold h3, update. rewrite Nat.eqb_refl. reflexivity.
      * apply set_add_member, same_refl.
  - exists lb, attrsb, lsb, (set_add (VRef l) eb).
    split; [reflexivity |]. split; [apply Hne', Elb |]. split; [exact Ecb |].
    split; [unfold h4, update; rewrite Nat.eqb_refl; reflexivity |].
    apply set_add_member, same_refl.
Qed.

Ltac walk H :=
  repeat (cbn [constraint.run seq getattr setattr cp constraint.heap constraint.world
               constraint.cp_bound constraint.log] in H;
          match type of H with
          | context [match ?x with _ => _ end] => destruct x eqn:?; try discriminate H
          end).

(** A subclass constructor that returns has ended in [_set_bodies] on its
    first two arguments. *)
Lemma init_ends_in_set_bodies (c : cls) (self : value) (args : list value)
    (st : state) (v : value) (st' : state) :
  In c subclasses ->
  run (init c self args) st = (Ok v, st') ->
  exists a b more st1,
    args = a :: b :: more /\
    run (Constraint._set_bodies self a b) st1 = (Ok v, st').
Proof.
  intros Hc H. destruct c; cbn in Hc;
    try (exfalso; repeat (destruct Hc as [Hc | Hc]; [discriminate Hc |]); exact Hc);
    clear Hc; unfold init in H.
  3: { (* PivotJoint *)
    destruct args as [| a [| b args]]; try discriminate H.
    unfold PivotJoint.__init__ in H.
    destruct (List.length args =? 1)%nat;
      [| destruct (List.length args =? 2)%nat; [| discriminate H]];
      walk H; eauto 8. }
  all: destruct args as [| a [| b [| x1 [| x2 [| x3 [| x4 [| x5 [| x6 args]]]]]]]];
    try discriminate H.
  all: unfold PinJoint.__init__, SlideJoint.__init__, GrooveJoint.__init__,
         DampedSpring.__init__, DampedRotarySpring.__init__, RotaryLimitJoint.__init__,
         RatchetJoint.__init__, GearJoint.__init__, SimpleMotor.__init__ in H.
  all: walk H; eauto 8.
Qed.

Lemma lookup_a_b (c : cls) :
  (exists p, lookup c "a" = Some p /\ fget p = Some (fun self => getattr self "_a")) /\
  (exists p, lookup c "b" = Some p /\ fget p = Some (fun self => getattr self "_b")).
Proof. destruct c; split; eexists; split; reflexivity. Qed.

(** X19: once the constructor of a joint subclass has returned, the
    properties [a] and [b] of the instance read as the two bodies it was
    given, in that order, and the instance is in the constraint set of
    each of them. *)
Theorem constructed_joint_knows_its_bodies (c : cls) (self : value)
    (args : list value) (st : state) (v : value) (st' : state) :
  In c subclasses ->
  run (init c self args) st = (Ok v, st') ->
  exists a b more,
    args = a :: b :: more /\
    run (perform c self (Read "a")) st' = (Ok a, st') /\
    run (perform c self (Read "b")) st' = (Ok b, st') /\
    member self a st' /\ member self b st'.
Proof.
  intros Hc H.
  destruct (init_ends_in_set_bodies c self args st v st' Hc H)
    as (a & b & more & st1 & -> & Hs).
  destruct (run_set_bodies self a b st1 v st' Hs) as (l & attrs & -> & _ & Hl & Ha & Hb).
  exists a, b, more. split; [reflexivity |].
  destruct (lookup_a_b c) as [(pa & La & Ga) (pb & Lb & Gb)].
  unfold perform. rewrite La, Lb, Ga, Gb. unfold getattr. cbn [constraint.run].
  rewrite Hl. cbn. auto.
Qed.

(** X20: an instance that the base class [Constraint] itself has
    initialised, on a new object, has no bodies: whether [__init__] returned
    or raised, reading [a] or [b] and calling [activate_bodies] raise
    [AttributeError]. *)
Theorem base_instance_has_no_bodies (l : loc) (args : list value) (st : state) :
  heap st l = Some (Instance []) ->
  let st' := snd (run (init Constraint_ (VRef l) args) st) in
  fst (run (perform Constraint_ (VRef l) (Read "a")) st') = Err AttributeError /\
  fst (run (perform Constraint_ (VRef l) (Read "b")) st') = Err AttributeError /\
  fst (run (perform Constraint_ (VRef l) ActivateBodies) st') = Err AttributeError.
Proof.
  intros Hl st'.
  assert (H : exists attrs, heap st' l = Some (Instance attrs) /\
                attr "_a" attrs = None /\ attr "_b" attrs = None).
  { unfold st', init.
    assert (G : forall c, exists attrs,
               heap (snd (run (Constraint.__init__ (VRef l) c) st)) l = Some (Instance attrs) /\
               attr "_a" attrs = None /\ attr "_b" attrs = None).
    { intros c. unfold Constraint.__init__, setattr, getattr.
      cbn [seq constraint.run constraint.heap constraint.world]. rewrite Hl.
      cbn [constraint.heap constraint.world]. unfold update at 1. rewrite Nat.eqb_refl.
      cbn [attr String.eqb Ascii.eqb Bool.eqb].
      destruct (contents c (world st)) as [x | e |];
        simpl; unfold update; rewrite ?Nat.eqb_refl; simpl;
        cbv [snd constraint.heap]; cbv beta; rewrite ?Nat.eqb_refl;
        eexists; (split; [reflexivity |]); split; reflexivity. }
    destruct args as [| c [| ? ?]]; [apply G | apply G |].
    exists []. cbn. auto. }
  destruct H as (attrs & Hh & Ha & Hb).
  unfold perform, Constraint.activate_bodies, getattr. cbn [lookup find properties base].
  cbn. rewrite Hh, Ha, Hb. auto.
Qed.

End Run.

Lemma property_access_keeps_heap_witness :
  heap _ (snd (stub.run (perform GearJoint_ (VRef 0%nat) (Write "max_force" (VNum 3)))
                  stub.st0)) = heap _ stub.st0.
Proof.
  apply (property_access_keeps_heap stub.native stub.foreign stub.contents stub.cast
           stub.field_get stub.field_set stub.method
           GearJoint_ "max_force"
           (property2 Constraint._get_max_force Constraint._set_max_force)
           (VRef 0%nat) (VNum 3) stub.st0).
  simpl; auto 12.
Defined.

Lemma base_instance_has_no_bodies_witness :
  fst (stub.run (perform Constraint_ (VRef 0%nat) (Read "a"))
         (snd (stub.run (init Constraint_ (VRef 0%nat) [VPtr 5]) stub.st0))) =
    Err AttributeError.
Proof.
  apply (base_instance_has_no_bodies stub.native stub.foreign stub.contents stub.cast
           stub.field_get stub.field_set stub.method 0%nat [VPtr 5] stub.st0).
  reflexivity.
Defined.

Lemma constructed_joint_knows_its_bodies_witness :
  exists v st',
    stub.run (init SlideJoint_ (VRef 0%nat)
                [VRef 1%nat; VRef 2%nat; VNone; VNone; VNum 1; VNum 2]) stub.st0 = (Ok v, st') /\
    stub.run (perform SlideJoint_ (VRef 0%nat) (Read "a")) st' = (Ok (VRef 1%nat), st') /\
    stub.run (perform SlideJoint_ (VRef 0%nat) (Read "b")) st' = (Ok (VRef 2%nat), st') /\
    member stub.native (VRef 0%nat) (VRef 1%nat) st' /\
    member stub.native (VRef 0%nat) (VRef 2%nat) st'.
Proof.
  eexists. eexists. split; [reflexivity |].
  destruct (constructed_joint_knows_its_bodies stub.native stub.foreign stub.contents
              stub.cast stub.field_get stub.field_set stub.method
              SlideJoint_ (VRef 0%nat)
              [VRef 1%nat; VRef 2%nat; VNone; VNone; VNum 1; VNum 2] stub.st0
              _ _ ltac:(simpl; auto 12) eq_refl)
    as (a & b & more & E & Ha & Hb & Ma & Mb).
  injection E as <- <- <-. auto.
Defined.

End constraint_more.

Module draw_options_more.
Import draw_options draw_options_props draw_options_more_props.
Open Scope draw_scope.
Open Scope nat_scope.

(** *** Running programs step by step *)

Lemma run_seq_dr {A B : Type} (m : dr A) (f : A -> dr B) (st : store) :
  run (seq m f) st =
    match run m st with
    | (Ok a, st1) => run (f a) st1
    | (Err e, st1) => (Err e, st1)
    | (Outside, st1) => (Outside, st1)
    end.
Proof.
  revert st. induction m as [a | e | self k IH | its k IH | l its k IH | l it k IH
                            | l k IH | b p k IH];
    intros st; cbn [seq run]; try reflexivity.
  - destruct (heap st self) as [[? [?|] | ? | ?] |]; try reflexivity. apply IH.
  - apply IH.
  - destruct (heap st l) as [[? ? | ? | ?] |]; try reflexivity. apply IH.
  - destruct (heap st l) as [[? ? | ? | ?] |]; try reflexivity. apply IH.
  - destruct (heap st l) as [[? ? | ? | ?] |]; try reflexivity. apply IH.
  - destruct (heap st b) as [[? ? | ? | ?] |]; try reflexivity. apply IH.
Qed.

(** *** Truncation *)

Lemma int_of_Z_plus (n : Z) (f : R) :
  (0 <= n)%Z -> (0 <= f < 1)%R -> int (IZR n + f) = n.
Proof.
  intros Hn Hf. unfold int.
  assert (Hp : (0 <= IZR n)%R) by (apply IZR_le in Hn; exact Hn).
  destruct (Rle_dec 0 (IZR n + f)) as [_ | N]; [| exfalso; lra].
  unfold Int_part.
  assert (E : (n + 1)%Z = up (IZR n + f)).
  { apply tech_up; rewrite plus_IZR; simpl; lra. }
  rewrite <- E. lia.
Qed.

Lemma int_small (v : R) : (0 <= v < 1)%R -> int v = 0%Z.
Proof.
  intros H. replace v with (IZR 0 + v)%R by (simpl; ring).
  apply int_of_Z_plus; [lia | exact H].
Qed.

Lemma int_at_least_one (v : R) : (1 <= v)%R -> (1 <= int v)%Z.
Proof.
  intros H. unfold int. destruct (Rle_dec 0 v) as [_ | N]; [| exfalso; lra].
  unfold Int_part. destruct (archimed v) as [H1 H2].
  assert (H3 : (1 < IZR (up v))%R) by lra.
  apply lt_IZR in H3. lia.
Qed.

(** *** Ranges and indices *)

Lemma length_range (lo hi : Z) : List.length (range lo hi) = Z.to_nat (hi - lo).
Proof. unfold range. rewrite length_map, length_seq. reflexivity. Qed.

Lemma nth_error_range (lo hi : Z) (k : nat) (i : Z) :
  nth_error (range lo hi) k = Some i ->
  i = (lo + Z.of_nat k)%Z /\ (Z.of_nat k < hi - lo)%Z.
Proof.
  intros H.
  assert (Hk : k < List.length (range lo hi)).
  { apply nth_error_Some. rewrite H. discriminate. }
  rewrite length_range in Hk.
  unfold range in H. rewrite nth_error_map in H.
  rewrite nth_error_seq in H.
  destruct (Nat.ltb_spec k (Z.to_nat (hi - lo))) as [_ | N]; [| lia].
  cbn in H. injection H as <-. split; [reflexivity | lia].
Qed.

Lemma index_in_range {X : Type} (l : list X) (i : Z) :
  (- Z.of_nat (List.length l) <= i < Z.of_nat (List.length l))%Z ->
  exists it, index l i = Some it /\ In it l.
Proof.
  intros H. unfold index.
  destruct (Z.leb_spec 0 i) as [P | P].
  - destruct (nth_error l (Z.to_nat i)) as [it |] eqn:E.
    + exists it. split; [reflexivity | eapply nth_error_In; exact E].
    + apply nth_error_None in E. lia.
  - destruct (Z.leb_spec (- Z.of_nat (List.length l)) i) as [P' | P']; [| lia].
    destruct (nth_error l (Z.to_nat (Z.of_nat (List.length l) + i))) as [it |] eqn:E.
    + exists it. split; [reflexivity | eapply nth_error_In; exact E].
    + apply nth_error_None in E. lia.
Qed.

(** *** The steps of a program that returns *)

Lemma returns_seq {A B : Type} (m : dr A) (f : A -> dr B) (st : store)
    (Q : B -> store -> Prop) :
  returns m st (fun a st1 => returns (f a) st1 Q) -> returns (seq m f) st Q.
Proof.
  intros (a & st1 & E & H). unfold returns. rewrite run_seq_dr, E. exact H.
Qed.

Lemma returns_Ret {A : Type} (a : A) (st : store) (Q : A -> store -> Prop) :
  Q a st -> returns (Ret a) st Q.
Proof. intros H. exists a, st. split; [reflexivity | exact H]. Qed.

Lemma update_same (h : loc -> option object) (l : loc) (o : object) :
  update h l o l = Some o.
Proof. unfold update. rewrite Nat.eqb_refl. reflexivity. Qed.

Lemma update_other (h : loc -> option object) (l l' : loc) (o : object) :
  l' <> l -> update h l o l' = h l'.
Proof. intros H. unfold update. destruct (Nat.eqb_spec l' l); [contradiction | reflexivity]. Qed.

Lemma returns_new_list (its : list item) (st : store) (n : loc)
    (Q : loc -> store -> Prop) :
  next st = n ->
  (forall st1, next st1 = S n -> heap st1 n = Some (List_ its) ->
     (forall l, l <> n -> heap st1 l = heap st l) -> Q n st1) ->
  returns (new_list its) st Q.
Proof.
  intros <- H. eexists _, _. split; [reflexivity |]. apply H; cbn [heap next].
  - reflexivity.
  - apply update_same.
  - intros l Hl. apply update_other, Hl.
Qed.

Lemma returns_extend (l : loc) (old its : list item) (st : store)
    (Q : unit -> store -> Prop) :
  heap st l = Some (List_ old) ->
  (forall st1, next st1 = next st -> heap st1 l = Some (List_ (old ++ its)) ->
     (forall l', l' <> l -> heap st1 l' = heap st l') -> Q tt st1) ->
  returns (extend l its) st Q.
Proof.
  intros E H. eexists _, _. cbn [extend run]. rewrite E. split; [reflexivity |].
  apply H; cbn [heap next].
  - reflexivity.
  - apply update_same.
  - intros l' Hl. apply update_other, Hl.
Qed.

Lemma returns_append (l : loc) (old : list item) (it : item) (st : store)
    (Q : unit -> store -> Prop) :
  heap st l = Some (List_ old) ->
  (forall st1, next st1 = next st -> heap st1 l = Some (List_ (old ++ [it])) ->
     (forall l', l' <> l -> heap st1 l' = heap st l') -> Q tt st1) ->
  returns (append l it) st Q.
Proof.
  intros E H. eexists _, _. cbn [append run]. rewrite E. split; [reflexivity |].
  apply H; cbn [heap next].
  - reflexivity.
  - apply update_same.
  - intros l' Hl. apply update_other, Hl.
Qed.

Lemma returns_items (l : loc) (its : list item) (st : store)
    (Q : list item -> store -> Prop) :
  heap st l = Some (List_ its) -> Q its st -> returns (items l) st Q.
Proof.
  intros E H. eexists _, _. cbn [items run]. rewrite E. split; [reflexivity | exact H].
Qed.

Lemma returns_getitem (l : loc) (its : list item) (i : Z) (st : store)
    (Q : item -> store -> Prop) :
  heap st l = Some (List_ its) ->
  (- Z.of_nat (List.length its) <= i < Z.of_nat (List.length its))%Z ->
  (forall it, index its i = Some it -> In it its -> Q it st) ->
  returns (getitem l i) st Q.
Proof.
  intros E Hi H. destruct (index_in_range its i Hi) as (it & Ei & Hin).
  exists it, st. unfold getitem, items. cbn [seq run]. rewrite E, Ei.
  split; [reflexivity | apply H; assumption].
Qed.

Lemma returns_len (l : loc) (its : list item) (st : store) (Q : Z -> store -> Prop) :
  heap st l = Some (List_ its) ->
  (forall n, n = Z.of_nat (List.length its) -> Q n st) ->
  returns (len l) st Q.
Proof.
  intros E H. eexists _, st. unfold len, items. cbn [seq run]. rewrite E.
  split; [reflexivity | apply H; reflexivity].
Qed.

Lemma returns_batch (self b : loc) (nb : bool) (st : store) (Q : loc -> store -> Prop) :
  heap st self = Some (DrawOptions nb (Some b)) -> Q b st -> returns (batch self) st Q.
Proof.
  intros E H. exists b, st. cbn [batch run]. rewrite E. split; [reflexivity | exact H].
Qed.

Lemma returns_add (b : loc) (prims : list primitive) (count : Z) (mode : gl_mode)
    (g : group) (vertices : string * vertex_data) (colors : string * list Z)
    (st : store) (Q : unit -> store -> Prop) :
  heap st b = Some (Batch prims) ->
  (forall st1, next st1 = next st ->
     heap st1 b = Some (Batch (prims ++ [Primitive count mode g vertices colors])) ->
     (forall l', l' <> b -> heap st1 l' = heap st l') -> Q tt st1) ->
  returns (add b count mode g vertices colors) st Q.
Proof.
  intros E H. eexists _, _. cbn [add run]. rewrite E. split; [reflexivity |].
  apply H; cbn [heap next].
  - reflexivity.
  - apply update_same.
  - intros l' Hl. apply update_other, Hl.
Qed.

Lemma returns_for_ {X T : Type} (I : nat -> T -> store -> Prop) (l : list X)
    (body : X -> T -> dr T) (s : T) (st : store) (Q : T -> store -> Prop) :
  I 0 s st ->
  (forall k i s st, nth_error l k = Some i -> I k s st ->
     returns (body i s) st (I (S k))) ->
  (forall s st, I (List.length l) s st -> Q s st) ->
  returns (for_ l body s) st Q.
Proof.
  revert I s st. induction l as [| i l IH]; intros I s st H0 Hb HQ; cbn [for_].
  - apply returns_Ret, HQ, H0.
  - apply returns_seq.
    destruct (Hb 0 i s st eq_refl H0) as (s1 & st1 & E & H1).
    exists s1, st1. split; [exact E |].
    apply (IH (fun k => I (S k))); [exact H1 | | exact HQ].
    intros k j s' st' Hj Hk. apply (Hb (S k) j s' st' Hj Hk).
Qed.

Lemma returns_get_x (v : Vec2d) (st : store) (Q : R -> store -> Prop) :
  Q (Mat22.x v) st -> returns (get_x (IVec v)) st Q.
Proof. apply returns_Ret. Qed.

Lemma returns_get_y (v : Vec2d) (st : store) (Q : R -> store -> Prop) :
  Q (Mat22.y v) st -> returns (get_y (IVec v)) st Q.
Proof. apply returns_Ret. Qed.

(** Looking an object up through the steps taken so far. *)
Ltac look :=
  repeat match goal with
         | H : heap ?s ?y = Some _ |- context [heap ?s ?y] => rewrite H
         | H : forall l, l <> _ -> heap ?s l = _ |- context [heap ?s ?y] =>
             rewrite (H y) by lia
         | H : forall l, l < _ -> l <> _ -> heap ?s l = _ |- context [heap ?s ?y] =>
             rewrite (H y) by lia
         end.

Ltac found := look; reflexivity.

(** *** The drawing methods *)

Section Methods.
Variable atan2 : R -> R -> R.
Variable vec_add vec_sub : Vec2d -> Vec2d -> Vec2d.
Variable rotated : Vec2d -> R -> Vec2d.
Variable SpaceDebugColor : Type.
Variable as_int : SpaceDebugColor -> list Z.

Local Abbreviation draw_circle := (draw_circle vec_add rotated SpaceDebugColor as_int).
Local Abbreviation draw_segment := (draw_segment SpaceDebugColor as_int).
Local Abbreviation draw_fat_segment :=
  (draw_fat_segment atan2 vec_add vec_sub rotated SpaceDebugColor as_int).
Local Abbreviation draw_polygon :=
  (draw_polygon atan2 vec_add vec_sub rotated SpaceDebugColor as_int).
Local Abbreviation draw_dot := (draw_dot SpaceDebugColor as_int).
Local Abbreviation disc := (disc SpaceDebugColor as_int).
Local Abbreviation quad := (quad SpaceDebugColor as_int).
Local Abbreviation strip := (strip SpaceDebugColor as_int).
Local Abbreviation radius_line := (radius_line vec_add rotated SpaceDebugColor as_int).

Lemma segments_at_least_one (radius : R) :
  (1 / 16 <= radius)%R -> (1 <= int (4 * sqrt radius))%Z.
Proof.
  intros H. apply int_at_least_one.
  assert (E : sqrt (1 / 16) = (1 / 4)%R).
  { replace (1 / 16)%R with ((1 / 4) * (1 / 4))%R by field. apply sqrt_square. lra. }
  pose proof (sqrt_le_1_alt _ _ H) as H1. rewrite E in H1. lra.
Qed.

Lemma returns_draw_circle (self b : loc) (nb : bool) (prims : list primitive)
    (pos : Vec2d) (angle radius : R) (outline_color fill_color : SpaceDebugColor)
    (st : store) (n0 : loc) (Q : unit -> store -> Prop) :
  (1 / 16 <= radius)%R ->
  next st = n0 ->
  heap st self = Some (DrawOptions nb (Some b)) ->
  heap st b = Some (Batch prims) ->
  self < n0 -> b < n0 ->
  (forall data st',
     Z.of_nat (List.length data) = (2 * (2 * int (4 * sqrt radius) + 1))%Z ->
     next st' = 3 + n0 ->
     heap st' b =
       Some (Batch (prims ++ [disc (2 * int (4 * sqrt radius) + 1)%Z data fill_color;
                              radius_line pos angle radius outline_color])) ->
     (forall l, l < n0 -> l <> b -> heap st' l = heap st l) ->
     Q tt st') ->
  returns (draw_circle self pos angle radius outline_color fill_color) st Q.
Proof.
  intros Hr Hn Hself Hb Hs Hbl HQ.
  assert (Hsb : self <> b) by (intros ->; rewrite Hb in Hself; discriminate).
  pose proof (segments_at_least_one radius Hr) as HN.
  unfold draw_options.draw_circle. cbv zeta.
  set (N := int (4 * sqrt radius)) in *.
  destruct (Rlt_dec radius 0) as [C | _]; [lra |].
  destruct (Z.eqb_spec N 0) as [C | _]; [lia |]. cbn [seq].
  apply returns_seq. eapply returns_new_list; [exact Hn |]. intros st1 Hn1 Hps1 Hfr1.
  apply returns_seq.
  apply returns_for_ with
    (I := fun k (_ : R * R) s =>
            next s = S n0 /\ (forall l, l <> n0 -> heap s l = heap st1 l) /\
            exists L, heap s n0 = Some (List_ L) /\ List.length L = k /\ Forall is_vec L).
  { split; [exact Hn1 |]. split; [reflexivity |]. exists []. auto. }
  { intros k i [x y] s _ (Hnx & Hfr & L & HL & Hlen & Hv). cbv beta iota.
    apply returns_seq. eapply returns_extend; [exact HL |]. intros s1 Hn' HL' Hfr'.
    apply returns_Ret. split; [congruence |]. split.
    - intros l Hl. found.
    - eexists. split; [exact HL' |]. split.
      + rewrite length_app. cbn. lia.
      + apply Forall_app. split; [exact Hv | repeat constructor]. }
  intros [x y] st2 (Hn2 & Hfr2 & L1 & HL1 & Hlen1 & Hv1). rewrite length_range in Hlen1.
  rewrite Forall_forall in Hv1.
  apply returns_seq. eapply returns_getitem; [found | lia |]. intros p0 _ Hp0.
  apply returns_seq. eapply returns_new_list; [exact Hn2 |]. intros st3 Hn3 Hps3 Hfr3.
  assert (E1 : Z.of_nat (List.length L1) = N) by lia.
  apply returns_seq. eapply returns_len; [found |]. intros n ->. rewrite E1.
  rewrite (int_of_Z_plus N (1 / 2)) by (lia || lra).
  apply returns_seq.
  apply returns_for_ with
    (I := fun k (_ : unit) s =>
            next s = S (S n0) /\ (forall l, l <> S n0 -> heap s l = heap st3 l) /\
            exists L, heap s (S n0) = Some (List_ L) /\ List.length L = 1 + 2 * k /\
                      forall it, In it L -> is_vec it).
  { split; [exact Hn3 |]. split; [reflexivity |]. eexists. split; [exact Hps3 |].
    split; [reflexivity |]. intros it [<- | []]. apply Hv1, Hp0. }
  { intros k i [] s Hi (Hnx & Hfr & L & HL & Hlen & Hv).
    apply nth_error_range in Hi as [-> Hk].
    apply returns_seq. eapply returns_getitem; [found | lia |]. intros p _ Hp.
    apply returns_seq. eapply returns_append; [exact HL |]. intros s1 Hn1' HL1' Hfr1'.
    apply returns_seq. eapply returns_getitem; [found | lia |]. intros q _ Hq.
    eapply returns_append; [exact HL1' |]. intros s2 Hn2' HL2' Hfr2'.
    split; [congruence |]. split.
    - intros l Hl. found.
    - eexists. split; [exact HL2' |]. split.
      + rewrite !length_app. cbn. lia.
      + intros it Hit. apply in_app_or in Hit as [Hit | [<- | []]]; [| apply Hv1, Hq].
        apply in_app_or in Hit as [Hit | [<- | []]]; [apply Hv, Hit | apply Hv1, Hp]. }
  intros [] st4 (Hn4 & Hfr4 & L2 & HL2 & Hlen2 & Hv2). rewrite length_range in Hlen2.
  apply returns_seq. eapply returns_new_list; [exact Hn4 |]. intros st5 Hn5 Hvs5 Hfr5.
  apply returns_seq. eapply returns_getitem; [found | lia |]. intros first _ Hfirst.
  apply returns_seq. eapply returns_items; [found |].
  apply returns_seq. eapply returns_getitem; [found | lia |]. intros last _ Hlast.
  apply returns_seq.
  apply returns_for_ with
    (I := fun k (_ : unit) s =>
            next s = S (S (S n0)) /\ (forall l, l <> S (S n0) -> heap s l = heap st5 l) /\
            exists L, heap s (S (S n0)) = Some (List_ L) /\ List.length L = 2 * k).
  { split; [exact Hn5 |]. split; [reflexivity |]. eexists. split; [exact Hvs5 |].
    reflexivity. }
  { intros k p [] s Hp (Hnx & Hfr & L & HL & Hlen).
    apply nth_error_In in Hp.
    assert (Hvp : is_vec p).
    { apply in_app_or in Hp as [[<- | []] | Hp]; [apply Hv2, Hfirst |].
      apply in_app_or in Hp as [Hp | [<- | []]]; [apply Hv2, Hp | apply Hv2, Hlast]. }
    destruct p as [v | r]; [| contradiction].
    apply returns_seq, returns_get_x, returns_seq, returns_get_y.
    eapply returns_extend; [exact HL |]. intros s1 Hn1' HL1' Hfr1'.
    split; [congruence |]. split.
    - intros l Hl. found.
    - eexists. split; [exact HL1' |]. rewrite length_app. cbn. lia. }
  intros [] st6 (Hn6 & Hfr6 & L3 & HL3 & Hlen3). rewrite !length_app in Hlen3.
  cbn [List.length] in Hlen3.
  assert (E3 : (Z.of_nat (List.length L3) / 2 = 2 * N + 1)%Z).
  { replace (Z.of_nat (List.length L3)) with ((2 * N + 1) * 2)%Z by lia.
    apply Z.div_mul. lia. }
  apply returns_seq. eapply returns_len; [found |]. intros n ->.
  apply returns_seq. eapply returns_batch; [found |].
  apply returns_seq. eapply returns_len; [found |]. intros n ->.
  apply returns_seq. eapply returns_items; [found |].
  apply returns_seq. eapply returns_add; [found |]. intros st7 Hn7 Hb7 Hfr7.
  apply returns_seq. eapply returns_batch; [found |].
  eapply returns_add; [found |]. intros st8 Hn8 Hb8 Hfr8.
  apply (HQ L3).
  - lia.
  - lia.
  - rewrite Hb8, <- app_assoc, E3. reflexivity.
  - intros l Hl Hlb. found.
Qed.

Lemma returns_draw_fat_segment (self b : loc) (nb : bool) (prims : list primitive)
    (u v : Vec2d) (radius : R) (outline_color fill_color : SpaceDebugColor)
    (st : store) (n0 : loc) (Q : unit -> store -> Prop) :
  next st = n0 ->
  heap st self = Some (DrawOptions nb (Some b)) ->
  heap st b = Some (Batch prims) ->
  self < n0 -> b < n0 ->
  (forall data d1 d2 st',
     let r := Rmax radius 1 in
     let count := (2 * int (4 * sqrt r) + 1)%Z in
     List.length data = 12 ->
     Z.of_nat (List.length d1) = (2 * count)%Z ->
     Z.of_nat (List.length d2) = (2 * count)%Z ->
     next st' = 7 + n0 ->
     heap st' b =
       Some (Batch (prims ++ [quad data fill_color;
                              disc count d1 fill_color; radius_line u 0 r fill_color;
                              disc count d2 fill_color; radius_line v 0 r fill_color])) ->
     (forall l, l < n0 -> l <> b -> heap st' l = heap st l) ->
     Q tt st') ->
  returns (draw_fat_segment self u v radius outline_color fill_color) st Q.
Proof.
  intros Hn Hself Hb Hs Hbl HQ.
  assert (Hsb : self <> b) by (intros ->; rewrite Hb in Hself; discriminate).
  assert (Hr : (1 / 16 <= Rmax radius 1)%R) by (pose proof (Rmax_r radius 1); lra).
  unfold draw_options.draw_fat_segment. cbv zeta.
  set (r := Rmax radius 1) in *.
  match goal with |- context [new_list ?d] => set (data := d) end.
  assert (Hd : List.length data = 12) by reflexivity.
  apply returns_seq. eapply returns_new_list; [exact Hn |]. intros st1 Hn1 Hvs1 Hfr1.
  apply returns_seq. eapply returns_len; [found |]. intros n ->. rewrite Hd.
  change (Z.of_nat 12 / 2)%Z with 6%Z.
  apply returns_seq. eapply returns_batch; [found |].
  apply returns_seq. eapply returns_items; [found |].
  apply returns_seq. eapply returns_add; [found |]. intros st2 Hn2 Hb2 Hfr2.
  apply returns_seq.
  eapply returns_draw_circle with (n0 := S n0);
    [exact Hr | congruence | found | exact Hb2 | lia | lia |].
  intros d1 st3 Hd1 Hn3 Hb3 Hfr3.
  eapply returns_draw_circle with (n0 := 3 + S n0);
    [exact Hr | exact Hn3 | found | exact Hb3 | lia | lia |].
  intros d2 st4 Hd2 Hn4 Hb4 Hfr4.
  apply (HQ data d1 d2).
  - exact Hd.
  - exact Hd1.
  - exact Hd2.
  - lia.
  - rewrite Hb4, <- !app_assoc. reflexivity.
  - intros l Hl Hlb. found.
Qed.

Lemma returns_seq_with {A B : Type} (P : A -> store -> Prop) (m : dr A) (f : A -> dr B)
    (st : store) (Q : B -> store -> Prop) :
  returns m st P -> (forall a st1, P a st1 -> returns (f a) st1 Q) ->
  returns (seq m f) st Q.
Proof.
  intros (a & st1 & E & H) Hf. apply returns_seq. exists a, st1.
  split; [exact E | apply Hf, H].
Qed.

Lemma half_bounds (n : Z) :
  (0 <= n)%Z ->
  (0 <= n / 2)%Z /\ (n = 2 * (n / 2) + n mod 2)%Z /\ (n mod 2 = 0 \/ n mod 2 = 1)%Z.
Proof.
  intros H. pose proof (Z.div_mod n 2 ltac:(lia)) as E.
  pose proof (Z.mod_pos_bound n 2 ltac:(lia)) as Hm.
  pose proof (Z.div_pos n 2 H ltac:(lia)) as Hd. lia.
Qed.

Lemma returns_draw_polygon (self b verts : loc) (nb : bool) (prims : list primitive)
    (V : list item) (radius : R) (outline_color fill_color : SpaceDebugColor)
    (st : store) (n0 : loc) (Q : unit -> store -> Prop) :
  next st = n0 ->
  heap st self = Some (DrawOptions nb (Some b)) ->
  heap st b = Some (Batch prims) ->
  heap st verts = Some (List_ V) ->
  self < n0 -> b < n0 -> verts < n0 ->
  V <> [] -> Forall is_vec V ->
  (forall data added st',
     let count := (Z.of_nat (List.length V) + 2)%Z in
     Z.of_nat (List.length data) = (2 * count)%Z ->
     List.length added = (if Rlt_dec 0 radius then 5 * List.length V else 0) ->
     heap st' b = Some (Batch (prims ++ strip count data fill_color
                                         :: added)) ->
     (forall l, l < n0 -> l <> b -> heap st' l = heap st l) ->
     Q tt st') ->
  returns (draw_polygon self verts radius outline_color fill_color) st Q.
Proof.
  intros Hn Hself Hb Hverts Hs Hbl Hvl Hne Hvec HQ.
  assert (Hsb : self <> b) by (intros ->; rewrite Hb in Hself; discriminate).
  assert (Hvb : verts <> b) by (intros ->; rewrite Hb in Hverts; discriminate).
  assert (Hpos : (1 <= Z.of_nat (List.length V))%Z).
  { destruct V; [contradiction | cbn; lia]. }
  rewrite Forall_forall in Hvec.
  destruct (half_bounds (Z.of_nat (List.length V)) ltac:(lia)) as (Hmid & Hhalf & Hmod).
  unfold draw_options.draw_polygon. cbv zeta.
  apply returns_seq. eapply returns_len; [found |]. intros l ->.
  apply returns_seq. eapply returns_len; [found |]. intros n ->.
  set (len := Z.of_nat (List.length V)) in *.
  set (mid := (len / 2)%Z) in *.
  apply returns_seq. eapply returns_new_list; [exact Hn |]. intros st1 Hn1 Hvs1 Hfr1.
  apply returns_seq.
  apply returns_for_ with
    (I := fun k (_ : unit) s =>
            next s = S n0 /\ (forall l, l <> n0 -> heap s l = heap st1 l) /\
            exists L, heap s n0 = Some (List_ L) /\ List.length L = 4 * k).
  { split; [exact Hn1 |]. split; [reflexivity |]. eexists. split; [exact Hvs1 |].
    reflexivity. }
  { intros k i [] s Hi (Hnx & Hfr & L & HL & Hlen).
    apply nth_error_range in Hi as [-> Hk].
    apply returns_seq. eapply returns_getitem; [found | unfold len in *; lia |].
    intros p _ Hp. apply Hvec in Hp. destruct p as [p | ?]; [| contradiction].
    apply returns_seq, returns_get_x.
    apply returns_seq. eapply returns_getitem; [found | unfold len in *; lia |].
    intros p' _ Hp'. apply Hvec in Hp'. destruct p' as [p' | ?]; [| contradiction].
    apply returns_seq, returns_get_y.
    apply returns_seq. eapply returns_extend; [exact HL |]. intros s1 Hn1' HL1' Hfr1'.
    apply returns_seq. eapply returns_getitem; [found | unfold len in *; lia |].
    intros q _ Hq. apply Hvec in Hq. destruct q as [q | ?]; [| contradiction].
    apply returns_seq, returns_get_x.
    apply returns_seq. eapply returns_getitem; [found | unfold len in *; lia |].
    intros q' _ Hq'. apply Hvec in Hq'. destruct q' as [q' | ?]; [| contradiction].
    apply returns_seq, returns_get_y.
    eapply returns_extend; [exact HL1' |]. intros s2 Hn2' HL2' Hfr2'.
    split; [congruence |]. split.
    - intros l Hl. found.
    - eexists. split; [exact HL2' |]. rewrite !length_app. cbn. lia. }
  intros [] st2 (Hn2 & Hfr2 & L2 & HL2 & Hlen2). rewrite length_range in Hlen2.
  apply returns_seq_with with
    (P := fun (_ : unit) s =>
            next s = S n0 /\ (forall l, l <> n0 -> heap s l = heap st1 l) /\
            exists L, heap s n0 = Some (List_ L) /\
                      Z.of_nat (List.length L) = (2 * len)%Z).
  { destruct (Z.eqb_spec (len mod 2) 0) as [E | E].
    - apply returns_Ret. split; [exact Hn2 |]. split; [exact Hfr2 |].
      eexists. split; [exact HL2 |]. lia.
    - apply returns_seq. eapply returns_getitem; [found | unfold len in *; lia |].
      intros p _ Hp. apply Hvec in Hp. destruct p as [p | ?]; [| contradiction].
      apply returns_seq, returns_get_x.
      apply returns_seq. eapply returns_getitem; [found | unfold len in *; lia |].
      intros p' _ Hp'. apply Hvec in Hp'. destruct p' as [p' | ?]; [| contradiction].
      apply returns_seq, returns_get_y.
      eapply returns_extend; [exact HL2 |]. intros s1 Hn1' HL1' Hfr1'.
      split; [congruence |]. split.
      + intros l Hl. found.
      + eexists. split; [exact HL1' |]. rewrite length_app. cbn [List.length]. lia. }
  clear st2 Hn2 Hfr2 L2 HL2 Hlen2.
  intros [] st2 (Hn2 & Hfr2 & L2 & HL2 & Hlen2).
  apply returns_seq. eapply returns_getitem; [found | lia |]. intros v0 _ _.
  apply returns_seq. eapply returns_getitem; [found | lia |]. intros v1 _ _.
  apply returns_seq. eapply returns_items; [found |].
  apply returns_seq. eapply returns_getitem; [found | lia |]. intros w0 _ _.
  apply returns_seq. eapply returns_getitem; [found | lia |]. intros w1 _ _.
  apply returns_seq. eapply returns_new_list; [exact Hn2 |]. intros st3 Hn3 Hvs3 Hfr3.
  set (data := ([v0; v1] ++ L2 ++ [w0; w1])%list) in *.
  assert (Hd : Z.of_nat (List.length data) = ((len + 2) * 2)%Z).
  { unfold data. rewrite !length_app. cbn [List.length]. lia. }
  apply returns_seq. eapply returns_len; [found |]. intros n ->.
  rewrite Hd, Z.div_mul by lia.
  apply returns_seq. eapply returns_batch; [found |].
  apply returns_seq. eapply returns_items; [found |].
  apply returns_seq. eapply returns_add; [found |]. intros st4 Hn4 Hb4 Hfr4.
  destruct (Rlt_dec 0 radius) as [Hrad | Hrad].
  - apply returns_seq. eapply returns_len; [found |]. intros n ->. fold len.
    apply returns_for_ with
      (I := fun k (_ : unit) s =>
              next s = 7 * k + S (S n0) /\
              (forall l, l < n0 -> l <> b -> heap s l = heap st l) /\
              exists added, heap s b =
                Some (Batch (prims ++ strip (len + 2)%Z data fill_color
                                   :: added)) /\
                List.length added = 5 * k).
    { split; [lia |]. split; [intros l Hl Hlb; found |]. exists [].
      split; [exact Hb4 | reflexivity]. }
    { intros k i [] s Hi (Hnx & Hfr & added & Hbs & Hlen).
      apply nth_error_range in Hi as [-> Hk].
      apply returns_seq. eapply returns_getitem; [found | unfold len in *; lia |].
      intros p _ Hp. apply Hvec in Hp. destruct p as [p | ?]; [| contradiction].
      apply returns_seq. eapply returns_len; [found |]. intros n ->. fold len.
      pose proof (Z.mod_pos_bound (0 + Z.of_nat k + 1) len ltac:(lia)) as Hm.
      apply returns_seq. eapply returns_getitem; [found | unfold len in *; lia |].
      intros q _ Hq. apply Hvec in Hq. destruct q as [q | ?]; [| contradiction].
      eapply returns_draw_fat_segment;
        [exact Hnx | found | exact Hbs | lia | lia |].
      intros d d1 d2 s' r count _ _ _ Hn' Hb' Hfr'.
      split; [lia |]. split; [intros l Hl Hlb; found |].
      eexists. split.
      - rewrite Hb'. rewrite <- app_assoc. cbn [app]. reflexivity.
      - rewrite length_app. cbn [List.length]. lia. }
    intros [] st5 (Hn5 & Hfr5 & added & Hb5 & Hlen5). rewrite length_range in Hlen5.
    apply (HQ data added).
    + lia.
    + unfold len in *. lia.
    + exact Hb5.
    + exact Hfr5.
  - apply returns_Ret. apply (HQ data []).
    + lia.
    + reflexivity.
    + exact Hb4.
    + intros l Hl Hlb. found.
Qed.

(** *** Without a batch *)

Lemma reads_batch_seq (self : loc) {A B : Type} (m : dr A) (f : A -> dr B) :
  (forall a, reads_batch self (f a)) -> reads_batch self (seq m f).
Proof.
  intros Hf. induction m; cbn [seq]; try (constructor; auto; fail). apply Hf.
Qed.

Lemma no_batch_update (self l : loc) (o : object) (st : store) (n : loc) :
  (forall nb b, o <> DrawOptions nb (Some b)) ->
  no_batch self st -> no_batch self (Store (update (heap st) l o) n).
Proof.
  intros Ho H nb b. cbn [heap]. unfold update.
  destruct (Nat.eqb self l); [| apply H].
  intros E. injection E as E. exact (Ho nb b E).
Qed.

Lemma run_reads_batch (self : loc) {A : Type} (p : dr A) :
  reads_batch self p ->
  forall st, no_batch self st -> exists e, fst (run p st) = Err e.
Proof.
  induction 1 as [e | k | other k Hk IH | its k Hk IH | l its k Hk IH
                 | l it k Hk IH | l k Hk IH | b p k Hk IH];
    intros st Hst; cbn [run].
  - exists e. reflexivity.
  - destruct (heap st self) as [[nb [b |] | ? | ?] |] eqn:E;
      try (exists AttributeError; reflexivity).
    exfalso. exact (Hst nb b E).
  - destruct (heap st other) as [[nb [b |] | ? | ?] |];
      try (exists AttributeError; reflexivity).
    apply IH, Hst.
  - apply IH, no_batch_update; [discriminate | exact Hst].
  - destruct (heap st l) as [[? ? | ? | old] |]; try (exists TypeError; reflexivity).
    apply IH, no_batch_update; [discriminate | exact Hst].
  - destruct (heap st l) as [[? ? | ? | old] |]; try (exists AttributeError; reflexivity).
    apply IH, no_batch_update; [discriminate | exact Hst].
  - destruct (heap st l) as [[? ? | ? | its] |]; try (exists TypeError; reflexivity).
    apply IH, Hst.
  - destruct (heap st b) as [[? ? | prims | ?] |]; try (exists AttributeError; reflexivity).
    apply IH, no_batch_update; [discriminate | exact Hst].
Qed.

Ltac to_batch :=
  repeat lazymatch goal with
         | |- reads_batch _ (seq (batch _) _) => unfold batch; cbn [seq]; apply rb_GetBatch
         | |- reads_batch _ (seq _ _) => apply reads_batch_seq; intros ?
         end.

Lemma reads_batch_method (self : loc) (call : draw_call SpaceDebugColor) :
  reads_batch self (method atan2 vec_add vec_sub rotated SpaceDebugColor as_int self call).
Proof.
  destruct call; cbn [method].
  - unfold draw_options.draw_circle. cbv zeta. to_batch.
  - unfold draw_options.draw_segment. cbv zeta. to_batch.
  - unfold draw_options.draw_fat_segment. cbv zeta. to_batch.
  - unfold draw_options.draw_polygon. cbv zeta. to_batch.
  - unfold draw_options.draw_dot. to_batch.
Qed.

(** *** What the drawing methods add *)

(** X21: [draw_circle] with a radius under 1/16 raises before it touches
    any object: [ValueError] from [math.sqrt] for a negative radius, and
    otherwise [ZeroDivisionError], since [int(4 * sqrt(radius))] segments
    are none. *)
Theorem circle_rejects_small_radius (self : loc) (pos : Vec2d) (angle radius : R)
    (outline_color fill_color : SpaceDebugColor) (st : store) :
  (radius < 1 / 16)%R ->
  run (draw_circle self pos angle radius outline_color fill_color) st =
    (Err (if Rlt_dec radius 0 then ValueError else ZeroDivisionError), st).
Proof.
  intros Hr. unfold draw_options.draw_circle. cbv zeta.
  destruct (Rlt_dec radius 0) as [C | C]; [reflexivity |]. cbn [seq].
  assert (E : int (4 * sqrt radius) = 0%Z).
  { apply int_small. pose proof (sqrt_pos radius) as Hp.
    assert (E : sqrt (1 / 16) = (1 / 4)%R).
    { replace (1 / 16)%R with ((1 / 4) * (1 / 4))%R by field. apply sqrt_square. lra. }
    assert (H1 : (sqrt radius < sqrt (1 / 16))%R) by (apply sqrt_lt_1_alt; lra).
    lra. }
  rewrite E. reflexivity.
Qed.

(** X22: [draw_circle] with a radius of at least 1/16, on an adapter with a
    batch, returns, and adds exactly two primitives to the batch: a
    triangle strip of [2 * n + 1] vertices, [n = int(4 * sqrt(radius))],
    with two floats for each vertex, and the line of the radius. *)
Theorem circle_adds_disc_and_radius (self b : loc) (nb : bool) (prims : list primitive)
    (pos : Vec2d) (angle radius : R) (outline_color fill_color : SpaceDebugColor)
    (st : store) :
  (1 / 16 <= radius)%R ->
  heap st self = Some (DrawOptions nb (Some b)) ->
  heap st b = Some (Batch prims) ->
  self < next st -> b < next st ->
  exists data st',
    run (draw_circle self pos angle radius outline_color fill_color) st = (Ok tt, st') /\
    Z.of_nat (List.length data) = (2 * (2 * int (4 * sqrt radius) + 1))%Z /\
    heap st' b =
      Some (Batch (prims ++ [disc (2 * int (4 * sqrt radius) + 1)%Z data fill_color;
                             radius_line pos angle radius outline_color])).
Proof.
  intros Hr Hself Hb Hs Hbl.
  destruct (returns_draw_circle self b nb prims pos angle radius outline_color fill_color
              st (next st)
              (fun _ st' => exists data,
                 Z.of_nat (List.length data) = (2 * (2 * int (4 * sqrt radius) + 1))%Z /\
                 heap st' b =
                   Some (Batch (prims ++
                     [disc (2 * int (4 * sqrt radius) + 1)%Z data fill_color;
                      radius_line pos angle radius outline_color])))
              Hr eq_refl Hself Hb Hs Hbl) as ([] & st' & E & data & Hd & Hb').
  { intros data st' Hd _ Hb' _. exists data. split; assumption. }
  exists data, st'. auto.
Qed.

(** X23: [draw_fat_segment], on an adapter with a batch, returns whatever
    the radius, which it raises to 1 if it is less, and adds exactly five
    primitives: two triangles of 6 vertices, then for each end a disc and
    its radius line.  The outline color is not used: the discs and their
    lines have the fill color. *)
Theorem fat_segment_adds_five_primitives (self b : loc) (nb : bool)
    (prims : list primitive) (u v : Vec2d) (radius : R)
    (outline_color fill_color : SpaceDebugColor) (st : store) :
  heap st self = Some (DrawOptions nb (Some b)) ->
  heap st b = Some (Batch prims) ->
  self < next st -> b < next st ->
  let r := Rmax radius 1 in
  let count := (2 * int (4 * sqrt r) + 1)%Z in
  exists data d1 d2 st',
    run (draw_fat_segment self u v radius outline_color fill_color) st = (Ok tt, st') /\
    List.length data = 12 /\
    Z.of_nat (List.length d1) = (2 * count)%Z /\
    Z.of_nat (List.length d2) = (2 * count)%Z /\
    heap st' b =
      Some (Batch (prims ++ [quad data fill_color;
                             disc count d1 fill_color; radius_line u 0 r fill_color;
                             disc count d2 fill_color; radius_line v 0 r fill_color])).
Proof.
  intros Hself Hb Hs Hbl r count.
  destruct (returns_draw_fat_segment self b nb prims u v radius outline_color fill_color
              st (next st)
              (fun _ st' => exists data d1 d2,
                 List.length data = 12 /\
                 Z.of_nat (List.length d1) = (2 * count)%Z /\
                 Z.of_nat (List.length d2) = (2 * count)%Z /\
                 heap st' b =
                   Some (Batch (prims ++
                     [quad data fill_color;
                      disc count d1 fill_color; radius_line u 0 r fill_color;
                      disc count d2 fill_color; radius_line v 0 r fill_color])))
              eq_refl Hself Hb Hs Hbl)
    as ([] & st' & E & data & d1 & d2 & H).
  { intros data d1 d2 st' r' count' Hd H1 H2 _ Hb' _. exists data, d1, d2. auto. }
  exists data, d1, d2, st'. auto.
Qed.

(** X24: [draw_polygon] on an empty list of vertices raises [IndexError],
    at [vs[0]]; all it has done by then is to create the empty list [vs],
    so nothing is added to any batch, whether the adapter has one or not. *)
Theorem polygon_without_vertices (self verts : loc) (radius : R)
    (outline_color fill_color : SpaceDebugColor) (st : store) :
  heap st verts = Some (List_ []) ->
  let r := run (draw_polygon self verts radius outline_color fill_color) st in
  fst r = Err IndexError /\
  forall l, l <> next st -> heap (snd r) l = heap st l.
Proof.
  intros Hv r. subst r. unfold draw_options.draw_polygon. cbv zeta.
  unfold len, getitem, items, new_list. cbn [seq run]. rewrite Hv. cbn [seq run].
  cbn [List.length Z.of_nat]. change (0 / 2)%Z with 0%Z.
  change (range 0 0) with (@nil Z). cbn [for_ seq run Z.modulo Z.eqb].
  change (0 mod 2 =? 0)%Z with true. cbn [seq run heap]. rewrite update_same.
  cbn [seq run index List.length Z.of_nat Z.leb Z.compare fst snd heap].
  split; [reflexivity |]. intros l Hl. apply update_other, Hl.
Qed.

(** X25: [draw_polygon] on a list of one or more vertices, on an adapter
    with a batch, returns.  It adds a triangle strip of two vertices more
    than the polygon has, with two floats for each, and then, if the
    radius is positive, the five primitives of a fat segment for each
    side: [1 + 5 * len(verts)] primitives in all. *)
Theorem polygon_adds_strip_and_sides (self b verts : loc) (nb : bool)
    (prims : list primitive) (V : list item) (radius : R)
    (outline_color fill_color : SpaceDebugColor) (st : store) :
  heap st self = Some (DrawOptions nb (Some b)) ->
  heap st b = Some (Batch prims) ->
  heap st verts = Some (List_ V) ->
  self < next st -> b < next st -> verts < next st ->
  V <> [] -> Forall is_vec V ->
  let count := (Z.of_nat (List.length V) + 2)%Z in
  exists data added st',
    run (draw_polygon self verts radius outline_color fill_color) st = (Ok tt, st') /\
    Z.of_nat (List.length data) = (2 * count)%Z /\
    List.length added = (if Rlt_dec 0 radius then 5 * List.length V else 0) /\
    heap st' b = Some (Batch (prims ++ strip count data fill_color :: added)) /\
    heap st' verts = Some (List_ V).
Proof.
  intros Hself Hb Hverts Hs Hbl Hvl Hne Hvec count.
  assert (Hvb : verts <> b) by (intros ->; rewrite Hb in Hverts; discriminate).
  destruct (returns_draw_polygon self b verts nb prims V radius outline_color fill_color
              st (next st)
              (fun _ st' => exists data added,
                 Z.of_nat (List.length data) = (2 * count)%Z /\
                 List.length added = (if Rlt_dec 0 radius then 5 * List.length V else 0) /\
                 heap st' b = Some (Batch (prims ++ strip count data fill_color :: added)) /\
                 heap st' verts = Some (List_ V))
              eq_refl Hself Hb Hverts Hs Hbl Hvl Hne Hvec)
    as ([] & st' & E & data & added & H).
  { intros data added st' count' Hd Ha Hb' Hfr. exists data, added.
    repeat split; try assumption. rewrite Hfr by assumption. exact Hverts. }
  exists data, added, st'. auto.
Qed.

(** X26: on an adapter that has no batch, as it is when it was created
    without one and [__enter__] has not run, no call of a [draw_*] method
    returns: each one raises. *)
Theorem drawing_needs_a_batch (self : loc) (nb : bool)
    (call : draw_call SpaceDebugColor) (st : store) :
  heap st self = Some (DrawOptions nb None) ->
  exists e,
    fst (run (method atan2 vec_add vec_sub rotated SpaceDebugColor as_int self call) st)
    = Err e.
Proof.
  intros Hself. apply (run_reads_batch self _ (reads_batch_method self call)).
  intros nb' b. rewrite Hself. discriminate.
Qed.

End Methods.

Lemma circle_rejects_small_radius_witness :
  run (sample.method 0 (Circle (Vec2d_ 0 0) 0%R 0%R (0, 0, 0, 255)%Z (255, 0, 0, 255)%Z))
      sample.st0
  = (Err (if Rlt_dec 0 0 then ValueError else ZeroDivisionError), sample.st0).
Proof.
  apply (circle_rejects_small_radius sample.vec_add sample.rotated (Z * Z * Z * Z)%type
           sample.as_int 0 (Vec2d_ 0 0) 0%R 0%R (0, 0, 0, 255)%Z (255, 0, 0, 255)%Z
           sample.st0).
  lra.
Defined.

Lemma circle_adds_disc_and_radius_witness :
  exists data st',
    run (sample.method 0 (Circle (Vec2d_ 0 0) 0%R 1%R (0, 0, 0, 255)%Z (255, 0, 0, 255)%Z))
        sample.st0 = (Ok tt, st') /\
    Z.of_nat (List.length data) = (2 * (2 * int (4 * sqrt 1) + 1))%Z /\
    heap st' 1 =
      Some (Batch ([] ++ [disc (Z * Z * Z * Z)%type sample.as_int
                            (2 * int (4 * sqrt 1) + 1)%Z data (255, 0, 0, 255)%Z;
                          radius_line sample.vec_add sample.rotated (Z * Z * Z * Z)%type
                            sample.as_int (Vec2d_ 0 0) 0%R 1%R (0, 0, 0, 255)%Z])).
Proof.
  apply (circle_adds_disc_and_radius sample.vec_add sample.rotated (Z * Z * Z * Z)%type
           sample.as_int 0 1 false [] (Vec2d_ 0 0) 0%R 1%R (0, 0, 0, 255)%Z
           (255, 0, 0, 255)%Z sample.st0).
  - lra.
  - reflexivity.
  - reflexivity.
  - simpl; lia.
  - simpl; lia.
Defined.

Lemma fat_segment_adds_five_primitives_witness :
  exists data d1 d2 st',
    run (sample.method 0 (FatSegment (Vec2d_ 0 0) (Vec2d_ 4 0) 0%R
                            (0, 0, 0, 255)%Z (255, 0, 0, 255)%Z)) sample.st0
    = (Ok tt, st') /\
    List.length data = 12 /\
    Z.of_nat (List.length d1) = (2 * (2 * int (4 * sqrt (Rmax 0 1)) + 1))%Z /\
    Z.of_nat (List.length d2) = (2 * (2 * int (4 * sqrt (Rmax 0 1)) + 1))%Z /\
    heap st' 1 =
      Some (Batch ([] ++
        [quad (Z * Z * Z * Z)%type sample.as_int data (255, 0, 0, 255)%Z;
         disc (Z * Z * Z * Z)%type sample.as_int (2 * int (4 * sqrt (Rmax 0 1)) + 1)%Z d1
           (255, 0, 0, 255)%Z;
         radius_line sample.vec_add sample.rotated (Z * Z * Z * Z)%type sample.as_int
           (Vec2d_ 0 0) 0%R (Rmax 0 1) (255, 0, 0, 255)%Z;
         disc (Z * Z * Z * Z)%type sample.as_int (2 * int (4 * sqrt (Rmax 0 1)) + 1)%Z d2
           (255, 0, 0, 255)%Z;
         radius_line sample.vec_add sample.rotated (Z * Z * Z * Z)%type sample.as_int
           (Vec2d_ 4 0) 0%R (Rmax 0 1) (255, 0, 0, 255)%Z])).
Proof.
  apply (fat_segment_adds_five_primitives sample.atan2 sample.vec_add sample.vec_sub
           sample.rotated (Z * Z * Z * Z)%type sample.as_int 0 1 false []
           (Vec2d_ 0 0) (Vec2d_ 4 0) 0%R (0, 0, 0, 255)%Z (255, 0, 0, 255)%Z sample.st0).
  - reflexivity.
  - reflexivity.
  - simpl; lia.
  - simpl; lia.
Defined.

Lemma polygon_without_vertices_witness :
  let r := run (sample.method 0 (Polygon 2 1%R (0, 0, 0, 255)%Z (255, 0, 0, 255)%Z))
               sample_more.no_vertices in
  fst r = Err IndexError /\
  forall l, l <> 3 -> heap (snd r) l = heap sample_more.no_vertices l.
Proof.
  apply (polygon_without_vertices sample.atan2 sample.vec_add sample.vec_sub
           sample.rotated (Z * Z * Z * Z)%type sample.as_int 0 2 1%R
           (0, 0, 0, 255)%Z (255, 0, 0, 255)%Z sample_more.no_vertices).
  reflexivity.
Defined.

Lemma polygon_adds_strip_and_sides_witness :
  exists data added st',
    run (sample.method 0 (Polygon 2 1%R (0, 0, 0, 255)%Z (255, 0, 0, 255)%Z)) sample.st0
    = (Ok tt, st') /\
    Z.of_nat (List.length data) = (2 * (3 + 2))%Z /\
    List.length added = (if Rlt_dec 0 1 then 5 * 3 else 0) /\
    heap st' 1 =
      Some (Batch ([] ++ strip (Z * Z * Z * Z)%type sample.as_int (3 + 2)%Z data
                           (255, 0, 0, 255)%Z :: added)) /\
    heap st' 2 = Some (List_ [IVec (Vec2d_ 0 0); IVec (Vec2d_ 4 0); IVec (Vec2d_ 0 3)]).
Proof.
  apply (polygon_adds_strip_and_sides sample.atan2 sample.vec_add sample.vec_sub
           sample.rotated (Z * Z * Z * Z)%type sample.as_int 0 1 2 false []
           [IVec (Vec2d_ 0 0); IVec (Vec2d_ 4 0); IVec (Vec2d_ 0 3)] 1%R
           (0, 0, 0, 255)%Z (255, 0, 0, 255)%Z sample.st0).
  - reflexivity.
  - reflexivity.
  - reflexivity.
  - simpl; lia.
  - simpl; lia.
  - simpl; lia.
  - discriminate.
  - repeat constructor.
Defined.

Lemma drawing_needs_a_batch_witness :
  exists e,
    fst (run (sample.method 0 (Dot 1%R (Vec2d_ 0 0) (0, 0, 0, 255)%Z))
             sample_more.before_enter) = Err e.
Proof.
  apply (drawing_needs_a_batch sample.atan2 sample.vec_add sample.vec_sub
           sample.rotated (Z * Z * Z * Z)%type sample.as_int 0 true
           (Dot 1%R (Vec2d_ 0 0) (0, 0, 0, 255)%Z) sample_more.before_enter).
  reflexivity.
Defined.

End draw_options_more.
